(** * Sidebar menu builder (list_sidebar.js / form_sidebar.js)

    Shallow embedding of [make_sidebar_menu] as it is written in
    [frappe/public/js/frappe/list/list_sidebar.js] (lines 300-391) and
    [frappe/public/js/frappe/form/sidebar/form_sidebar.js] (lines 289-366).

    Modelling conventions.
    - The DOM below a sidebar is an ordered forest of item containers, kept in
      first-child / next-sibling form like the DOM itself.  Every element has
      an identity ([el_id]); jQuery sets are lists of identities or of
      attribute texts, in document order.
    - A thrown exception is [None]; a normal return is [Some].
    - Local storage maps a key to the array that was handed to
      [JSON.stringify]; reading it decodes the text again ([parse_stringify]).
    - Attribute texts and selector keys are taken verbatim.  That is what
      the HTML parser, jQuery's [.data()] and the attribute selector do for
      the texts [data_modelled] describes; titles that need escaping in HTML
      or in a selector, that look like JSON objects or arrays, or that print
      a number with a fraction, an exponent or more than 15 digits are
      outside the model, and every general statement below is about pages
      inside it ([page_modelled]).  Of the selector grammar the model keeps
      one error: a key that ends in a backslash ([selector_error]). *)

From Stdlib Require Import String Ascii List Bool Arith ZArith DecimalString Lia.
From stdpp Require Import base option list strings gmap sorting.

Local Open Scope string_scope.

(** ** JavaScript values that reach the builder *)

Inductive JsVal : Type :=
  | JUndefined
  | JNull
  | JBool (b : bool)
  | JNum (text : string)   (* a number, kept as its canonical decimal text *)
  | JStr (s : string).

#[global] Instance JsVal_eq_dec : EqDecision JsVal.
Proof. solve_decision. Defined.

(** [`${v}`] : the text a template literal produces for [v]. *)
Definition template (v : JsVal) : string :=
  match v with
  | JUndefined => "undefined"
  | JNull => "null"
  | JBool true => "true"
  | JBool false => "false"
  | JNum t => t
  | JStr s => s
  end.

(** JavaScript truthiness, as tested by [if (itemparent)], [a || b], [c ? x : y]. *)
Definition truthy (v : JsVal) : bool :=
  match v with
  | JUndefined | JNull => false
  | JBool b => b
  | JNum t => negb (bool_decide (t = "0") || bool_decide (t = "NaN"))
  | JStr s => negb (bool_decide (s = ""))
  end.

Definition is_digit (c : ascii) : bool :=
  let n := nat_of_ascii c in (48 <=? n)%nat && (n <=? 57)%nat.

Fixpoint all_digits (s : string) : bool :=
  match s with
  | EmptyString => true
  | String c r => is_digit c && all_digits r
  end.

(** Decimal integers written the way JavaScript prints them (no sign on zero,
    no leading zero, at most 15 digits so that the value is exact). *)
Definition canonical_nat (s : string) : bool :=
  match s with
  | EmptyString => false
  | String c r =>
      all_digits s && (String.length s <=? 15)%nat
      && (bool_decide (s = "0") || negb (bool_decide (c = "0"%char)))
  end.

Definition canonical_number (s : string) : bool :=
  bool_decide (s = "NaN") || bool_decide (s = "Infinity")
  || bool_decide (s = "-Infinity")
  || canonical_nat s
  || match s with
     | String "-" r => canonical_nat r && negb (bool_decide (r = "0"))
     | _ => false
     end.

(** jQuery's [.data(key)] on an element whose [data-key] attribute holds the
    text [s] ([getData]): "true", "false" and "null" become the JavaScript
    constants, a text that is the print of its own number
    ([data === +data + ""]) becomes that number, a text in braces or
    brackets goes to [JSON.parse], everything else stays a string.  The
    definition follows this for the texts of [data_modelled] below; for the
    others (the engine's number prints beyond [canonical_number], and JSON)
    it keeps the text, which is not what jQuery returns. *)
Definition jq_data (s : string) : JsVal :=
  if bool_decide (s = "true") then JBool true
  else if bool_decide (s = "false") then JBool false
  else if bool_decide (s = "null") then JNull
  else if canonical_number s then JNum s
  else JStr s.

(** ** The texts the model covers

    What the template writes reaches the builder through the HTML parser,
    through [.data()] and through a CSS attribute selector.  Plain texts
    pass all three unchanged: printable ASCII without the double quote, the
    ampersand, the angle brackets and the backslash. *)
Definition plain_char (c : ascii) : bool :=
  let n := nat_of_ascii c in
  (32 <=? n)%nat && (n <=? 126)%nat
  && negb (n =? 34)%nat && negb (n =? 38)%nat && negb (n =? 60)%nat
  && negb (n =? 62)%nat && negb (n =? 92)%nat.

Fixpoint plain (s : string) : bool :=
  match s with
  | EmptyString => true
  | String c r => plain_char c && plain r
  end.

(** A plain text without a space, for the attribute the template leaves
    unquoted ([data-icon]). *)
Fixpoint no_space (s : string) : bool :=
  match s with
  | EmptyString => true
  | String c r => negb (nat_of_ascii c =? 32)%nat && no_space r
  end.

(** The characters of a number print other than "NaN" and "Infinity". *)
Definition number_char (c : ascii) : bool :=
  is_digit c
  || let n := nat_of_ascii c in
     (n =? 43)%nat || (n =? 45)%nat || (n =? 46)%nat || (n =? 101)%nat.

Fixpoint number_chars (s : string) : bool :=
  match s with
  | EmptyString => true
  | String c r => number_char c && number_chars r
  end.

Fixpoint last_char (c : ascii) (s : string) : ascii :=
  match s with
  | EmptyString => c
  | String d r => last_char d r
  end.

(** jQuery's [rbrace]: a text in braces or in brackets. *)
Definition in_braces (s : string) : bool :=
  match s with
  | String c (String d r) =>
      let z := nat_of_ascii (last_char d r) in
      ((nat_of_ascii c =? 123)%nat && (z =? 125)%nat)
      || ((nat_of_ascii c =? 91)%nat && (z =? 93)%nat)
  | _ => false
  end.

(** The attribute texts for which [jq_data] is what [.data()] returns: plain,
    not in braces or brackets, and either not made of number characters
    alone (then no number prints like it), or empty, or a print that
    [canonical_number] knows. *)
Definition data_modelled (s : string) : bool :=
  plain s && negb (in_braces s)
  && (negb (number_chars s) || bool_decide (s = "") || canonical_number s).

(** ** Data model *)

(** A page descriptor as returned by [get_workspace_sidebar_items]. *)
Record PageItem : Type := mkPage {
  title : JsVal;
  parent_page : JsVal;
  public : JsVal;
  is_editable : JsVal;
  icon : JsVal;
  custom_link : JsVal;
  selected : JsVal
}.

#[global] Instance PageItem_eq_dec : EqDecision PageItem.
Proof. solve_decision. Defined.

(** [item.custom_link || (item.public ? slug(title) : "private/" + slug(title))],
    kept symbolic in [frappe.router.slug]. *)
Inductive Link : Type :=
  | LCustom (v : JsVal)
  | LPublicSlug (t : JsVal)
  | LPrivateSlug (t : JsVal).

(** The drop icon span: the [href] of the [use] element inside it and the
    number of click handlers bound to the span. *)
Record DropIcon : Type := mkIcon {
  href : string;
  handlers : nat
}.

(** One [div.sidebar-item-container] with its fixed inner markup. *)
Record Elem : Type := mkElem {
  el_id : nat;
  is_draggable : bool;
  data_parent : string;
  data_name : string;
  data_public : string;
  is_selected : bool;
  link : Link;
  block_click : bool;
  data_icon : string;
  label : JsVal;
  drop_icon : option DropIcon;   (* content of .sidebar-item-control *)
  hidden : bool                  (* class "hidden" on the nested container *)
}.

(** Item containers in document order: an element, the content of its
    [.sidebar-child-item.nested-container], and its following siblings. *)
Inductive Forest : Type :=
  | FNil
  | FNode (e : Elem) (kids : Forest) (next : Forest).

(** The sidebar element: the [.standard-sidebar-section] containers below it
    in document order, the [button.collapsible_btn] elements prepended so far
    and the supply of fresh element identities. *)
Record Sidebar : Type := mkSidebar {
  sections : list Forest;
  buttons : nat;
  next_id : nat
}.

Definition empty_sidebar : Sidebar := mkSidebar [] 0 0.

(** ** Rendering (the [sidebar_item_container] template)

    [__], [frappe.router.slug] and [frappe.utils.icon] are framework
    functions outside these two files.  Their results are kept symbolic
    ([label], [link], [data_icon]); [__] and [frappe.utils.icon] are taken
    to return plain text and markup without item containers, and [slug] to
    return for a string and to throw for anything else ([renders]). *)

Definition js_or (a b : JsVal) : JsVal := if truthy a then a else b.

Definition is_text (v : JsVal) : bool :=
  match v with JStr _ => true | _ => false end.

(** Line 302: [item.custom_link || (... frappe.router.slug(item.title) ...)].
    The framework's [slug] is [name.toLowerCase().replace(...)]: called on a
    title that is not a string (a missing one is [undefined]) it throws a
    TypeError; with a [custom_link] it is not called. *)
Definition renders (item : PageItem) : bool :=
  truthy (custom_link item) || is_text (title item).

(** The element the template's markup (lines 303-313) parses to, for an item
    for which line 302 returns ([renders]; the builders below test it before
    they use the markup). *)
Definition sidebar_item_container (id : nat) (item : PageItem) : Elem :=
  {| el_id := id;
     is_draggable := truthy (is_editable item);
     data_parent := template (parent_page item);
     data_name := template (title item);
     data_public := template (js_or (public item) (JNum "0"));
     is_selected := truthy (selected item);
     link := if truthy (custom_link item) then LCustom (custom_link item)
             else if truthy (public item) then LPublicSlug (title item)
             else LPrivateSlug (title item);
     block_click := negb (truthy (is_editable item));
     data_icon := template (js_or (icon item) (JStr "folder-normal"));
     label := title item;
     drop_icon := None;
     hidden := true |}.

(** [pages.forEach(element => html_sidebar_menu += sidebar_item_container(element))]:
    the items side by side, none nested. *)
Fixpoint render_flat (id : nat) (pages : list PageItem) : Forest :=
  match pages with
  | [] => FNil
  | p :: ps => FNode (sidebar_item_container id p) FNil (render_flat (S id) ps)
  end.

(** [$(sidebar).append(`<div class="desk-sidebar ..."><div class="standard-sidebar-section ...">...`)] *)
Definition append_menu (pages : list PageItem) (s : Sidebar) : Sidebar :=
  {| sections := sections s ++ [render_flat (next_id s) pages];
     buttons := buttons s;
     next_id := next_id s + length pages |}.

(** ** jQuery and DOM operations on the forest *)

Definition set_drop_icon (i : option DropIcon) (e : Elem) : Elem :=
  mkElem (el_id e) (is_draggable e) (data_parent e) (data_name e) (data_public e)
         (is_selected e) (link e) (block_click e) (data_icon e) (label e)
         i (hidden e).

Definition set_hidden (h : bool) (e : Elem) : Elem :=
  mkElem (el_id e) (is_draggable e) (data_parent e) (data_name e) (data_public e)
         (is_selected e) (link e) (block_click e) (data_icon e) (label e)
         (drop_icon e) h.

Definition set_id (i : nat) (e : Elem) : Elem :=
  mkElem i (is_draggable e) (data_parent e) (data_name e) (data_public e)
         (is_selected e) (link e) (block_click e) (data_icon e) (label e)
         (drop_icon e) (hidden e).

Definition mem (i : nat) (ids : list nat) : bool := existsb (Nat.eqb i) ids.

Definition named (key : string) (e : Elem) : bool :=
  bool_decide (data_name e = key).

(** Sibling concatenation. *)
Fixpoint fapp (f g : Forest) : Forest :=
  match f with
  | FNil => g
  | FNode e k n => FNode e k (fapp n g)
  end.

(** All elements, in document order. *)
Fixpoint elems (f : Forest) : list Elem :=
  match f with
  | FNil => []
  | FNode e k n => e :: elems k ++ elems n
  end.

(** [.children()] of a section: the top-level item containers. *)
Fixpoint tops (f : Forest) : list Elem :=
  match f with
  | FNil => []
  | FNode e _ n => e :: tops n
  end.

(** [$sidebarSections.find(`[data-name="key"].sidebar-item-container`)]
    inside one section, as element identities in document order. *)
Fixpoint find_named (key : string) (f : Forest) : list nat :=
  match f with
  | FNil => []
  | FNode e k n =>
      (if named key e then [el_id e] else [])
      ++ find_named key k ++ find_named key n
  end.

(** [$selectoritemparent.find('.desk-sidebar-item > .sidebar-item-control')
      .find('.drop-icon').length != 0]: some control at or below an element
    named [key] already holds a drop icon.  [inside] records that an ancestor
    is named [key]. *)
Fixpoint icon_under (inside : bool) (key : string) (f : Forest) : bool :=
  match f with
  | FNil => false
  | FNode e k n =>
      let ins := inside || named key e in
      (ins && bool_decide (is_Some (drop_icon e)))
      || icon_under ins key k || icon_under inside key n
  end.

(** [$selectoritemparentbtn.append(itemparentbtn)]: every control at or
    below an element named [key] receives the icon markup. *)
Fixpoint add_icon_under (inside : bool) (key : string) (ic : DropIcon)
    (f : Forest) : Forest :=
  match f with
  | FNil => FNil
  | FNode e k n =>
      let ins := inside || named key e in
      FNode (if ins then set_drop_icon (Some ic) e else e)
            (add_icon_under ins key ic k) (add_icon_under inside key ic n)
  end.

(** [frappe.utils.icon("es-line-down", "sm")] inside a fresh
    [span.drop-icon]: for this icon name the framework emits
    [<use href="#es-line-down">], the value the click handler compares
    with; no handler is bound yet. *)
Definition itemparentbtn : DropIcon := mkIcon "#es-line-down" 0.

Fixpoint has_id (i : nat) (f : Forest) : bool :=
  match f with
  | FNil => false
  | FNode e k n => Nat.eqb (el_id e) i || has_id i k || has_id i n
  end.

(** Moving the elements [ids] into a document fragment ([buildFragment]):
    each is taken out of the tree in document order; an element of [ids]
    nested in another one ends up beside it.  Result: what stays, and the
    fragment. *)
Fixpoint detach (ids : list nat) (f : Forest) : Forest * Forest :=
  match f with
  | FNil => (FNil, FNil)
  | FNode e k n =>
      let '(k', fk) := detach ids k in
      let '(n', fn) := detach ids n in
      if mem (el_id e) ids
      then (n', FNode e k' (fapp fk fn))
      else (FNode e k' n', fapp fk fn)
  end.

(** [target.appendChild(fragment)] where [target] is the nested container of
    the element [t]: the fragment goes after the container's last child. *)
Fixpoint insert_at (t : nat) (frag : Forest) (f : Forest) : Forest :=
  match f with
  | FNil => FNil
  | FNode e k n =>
      if Nat.eqb (el_id e) t
      then FNode e (fapp k frag) (insert_at t frag n)
      else FNode e (insert_at t frag k) (insert_at t frag n)
  end.

(** Deep copies ([.clone(true)]) of the elements [ids], each with its
    current subtree, in document order. *)
Fixpoint copies (ids : list nat) (f : Forest) : Forest :=
  match f with
  | FNil => FNil
  | FNode e k n =>
      fapp (if mem (el_id e) ids then FNode e k FNil else FNil)
           (fapp (copies ids k) (copies ids n))
  end.

(** Cloned elements are new elements: fresh identities from [i] on. *)
Fixpoint renumber (i : nat) (f : Forest) : Forest * nat :=
  match f with
  | FNil => (FNil, i)
  | FNode e k n =>
      let '(k', i1) := renumber (S i) k in
      let '(n', i2) := renumber i1 n in
      (FNode (set_id i e) k' n', i2)
  end.

(** [.addClass("hidden")] on the nested containers of the elements [ids]. *)
Fixpoint hide_at (ids : list nat) (f : Forest) : Forest :=
  match f with
  | FNil => FNil
  | FNode e k n =>
      FNode (if mem (el_id e) ids then set_hidden true e else e)
            (hide_at ids k) (hide_at ids n)
  end.

(** The same operations on all sections of the sidebar. *)
Definition find_all (key : string) (secs : list Forest) : list nat :=
  flat_map (find_named key) secs.

Fixpoint has_quote (key : string) : bool :=
  match key with
  | EmptyString => false
  | String c r => (nat_of_ascii c =? 34)%nat || has_quote r
  end.

(** Reading [key] the way the selector grammar reads a quoted value, a
    backslash taking the character after it along: does the text end right
    after such a backslash? *)
Fixpoint ends_escaped (esc : bool) (key : string) : bool :=
  match key with
  | EmptyString => esc
  | String c r =>
      if esc then ends_escaped false r
      else ends_escaped (nat_of_ascii c =? 92)%nat r
  end.

(** In [`[data-name="${key}"].sidebar-item-container`] a key without a
    quote that ends in an unescaped backslash escapes the quote the template
    closes the value with, no other quote follows, and jQuery's selector
    grammar finds no attribute selector: "Syntax error, unrecognized
    expression".  (Other keys with a backslash or a quote select by rules
    the model does not follow; they are not [plain].) *)
Definition selector_error (key : string) : bool :=
  negb (has_quote key) && ends_escaped false key.

(** [$sidebarSections.find(`[data-name="${key}"].sidebar-item-container`)]:
    the elements found, or the syntax error. *)
Definition jq_find (key : string) (secs : list Forest) : option (list nat) :=
  if selector_error key then None else Some (find_all key secs).

Definition detach_all (ids : list nat) (secs : list Forest)
    : list Forest * Forest :=
  (map (fun f => fst (detach ids f)) secs,
   fold_right (fun f acc => fapp (snd (detach ids f)) acc) FNil secs).

Definition copies_all (ids : list nat) (secs : list Forest) : Forest :=
  fold_right (fun f acc => fapp (copies ids f) acc) FNil secs.

(** [$sources.appendTo($targets)]: every target but the last receives clones
    of the sources, the last one receives the sources themselves.  With no
    target nothing happens.  Inserting into a target that has left the tree
    with the fragment is the DOM's HierarchyRequestError. *)
Fixpoint appendTo (sources targets : list nat) (secs : list Forest) (fresh : nat)
    : option (list Forest * nat) :=
  match targets with
  | [] => Some (secs, fresh)
  | [t] =>
      let '(rest, frag) := detach_all sources secs in
      match frag with
      | FNil => Some (secs, fresh)
      | _ => if existsb (has_id t) rest
             then Some (map (insert_at t frag) rest, fresh)
             else None
      end
  | t :: ts =>
      let '(clones, fresh') := renumber fresh (copies_all sources secs) in
      appendTo sources ts (map (insert_at t clones) secs) fresh'
  end.

(** [$labelItems.find(".drop-icon").on("click", handler)]: one more handler on
    every drop icon at or below one of the elements [roots]. *)
Definition add_handler (e : Elem) : Elem :=
  match drop_icon e with
  | Some ic => set_drop_icon (Some (mkIcon (href ic) (S (handlers ic)))) e
  | None => e
  end.

Fixpoint bind_under (inside : bool) (roots : list nat) (f : Forest) : Forest :=
  match f with
  | FNil => FNil
  | FNode e k n =>
      let ins := inside || mem (el_id e) roots in
      FNode (if ins then add_handler e else e)
            (bind_under ins roots k) (bind_under inside roots n)
  end.

(** ** Operations used by the click handler *)

Fixpoint lookup_elem (x : nat) (f : Forest) : option Elem :=
  match f with
  | FNil => None
  | FNode e k n =>
      if Nat.eqb (el_id e) x then Some e
      else match lookup_elem x k with
           | Some r => Some r
           | None => lookup_elem x n
           end
  end.

Fixpoint lookup_all (x : nat) (secs : list Forest) : option Elem :=
  match secs with
  | [] => None
  | f :: r => match lookup_elem x f with
              | Some e => Some e
              | None => lookup_all x r
              end
  end.

(** [.toggleClass("hidden")] on every nested container in [f]. *)
Fixpoint flip_all (f : Forest) : Forest :=
  match f with
  | FNil => FNil
  | FNode e k n => FNode (set_hidden (negb (hidden e)) e) (flip_all k) (flip_all n)
  end.

(** [$drop_icon.parents(".sidebar-item-container")
      .find(".sidebar-child-item.nested-container").toggleClass("hidden")]
    for the drop icon of element [x]: [.parents] collects every item
    container above the icon, [.find] every nested container below any of
    them, that is, every nested container of the top-level item whose
    subtree holds [x]. *)
Fixpoint toggle_parents (x : nat) (f : Forest) : Forest :=
  match f with
  | FNil => FNil
  | FNode e k n =>
      if Nat.eqb (el_id e) x || has_id x k
      then FNode (set_hidden (negb (hidden e)) e) (flip_all k) (toggle_parents x n)
      else FNode e k (toggle_parents x n)
  end.

(** [$drop_icon.find("use").attr("href", icon)] for the icon of element [x]. *)
Fixpoint set_href (x : nat) (h : string) (f : Forest) : Forest :=
  match f with
  | FNil => FNil
  | FNode e k n =>
      FNode (if Nat.eqb (el_id e) x
             then match drop_icon e with
                  | Some ic => set_drop_icon (Some (mkIcon h (handlers ic))) e
                  | None => e
                  end
             else e)
            (set_href x h k) (set_href x h n)
  end.

(** [===] on the values stored: NaN is different from itself. *)
Definition strict_eq (a b : JsVal) : bool :=
  bool_decide (a = b) && negb (bool_decide (a = JNum "NaN")).

(** [Array.prototype.includes] (SameValueZero: NaN is found). *)
Definition includes (l : list JsVal) (v : JsVal) : bool :=
  existsb (fun w => bool_decide (w = v)) l.

(** [Array.prototype.indexOf]; [None] is -1. *)
Fixpoint indexOf (l : list JsVal) (v : JsVal) : option nat :=
  match l with
  | [] => None
  | w :: r => if strict_eq w v then Some 0
              else option_map S (indexOf r v)
  end.

Fixpoint remove_nth (i : nat) (l : list JsVal) {struct l} : list JsVal :=
  match l, i with
  | [], _ => []
  | _ :: r, 0 => r
  | w :: r, S j => w :: remove_nth j r
  end.

(** [existingArray.splice(existingArray.indexOf(itemname), 1)]; a start of
    -1 counts from the end, so one element is removed there. *)
Definition splice_indexOf (l : list JsVal) (v : JsVal) : list JsVal :=
  match indexOf l v with
  | Some i => remove_nth i l
  | None => removelast l
  end.

(** [JSON.parse(JSON.stringify(l))]: a number that JSON cannot write (NaN,
    Infinity) and [undefined] come back as null. *)
Definition json_value (v : JsVal) : JsVal :=
  match v with
  | JUndefined => JNull
  | JNum t => if bool_decide (t = "NaN") || bool_decide (t = "Infinity")
                 || bool_decide (t = "-Infinity")
              then JNull else JNum t
  | _ => v
  end.

Definition parse_stringify (l : list JsVal) : list JsVal := map json_value l.

(** The browser's local storage; an entry is the array whose JSON text is
    stored. *)
Abbreviation Storage := (gmap string (list JsVal)).

Definition storage_key : string := "list_sidebar_open".

(** [JSON.parse(localStorage.getItem(k) || '[]')] *)
Definition get_array (k : string) (st : Storage) : list JsVal :=
  parse_stringify (default [] (st !! k)).

(** The page as the handlers see it. *)
Record View : Type := mkView {
  dom : list Forest;
  local_storage : Storage
}.

(** [$(sidebar).find('.standard-sidebar-section').not(".hidden")
      .children().not(".standard-sidebar-label")]: the top-level item
    containers of all sections (no section carries "hidden", and the
    template renders no label). *)
Definition label_items (secs : list Forest) : list Elem := flat_map tops secs.

(** Running the callback of [.each] over the elements, stopping at the first
    exception. *)
Fixpoint each {A : Type} (body : Elem -> A -> option A) (l : list Elem) (a : A)
    : option A :=
  match l with
  | [] => Some a
  | e :: r => match body e a with
              | Some a' => each body r a'
              | None => None
              end
  end.

(** The element of a drop icon a click lands on ([e.target]): the span the
    handler is bound to, the svg inside it, or the [use] element inside the
    svg. *)
Inductive Target : Type := OnSpan | OnSvg | OnUse.

(** ** list_sidebar.js *)

Module ListSidebar.

(** Body of [$labelItems.each(function () {...})], lines 341-359.  The
    selector of the item itself is evaluated before the test of the parent
    (line 345).  The nested container of a parent is addressed by the
    parent's identity, so [selectoritemparent] also stands for
    [$selectoritemparentcontent]; the drop icon is appended when no control
    at or below a parent holds one. *)
Definition each_body (current : Elem) (st : list Forest * nat)
    : option (list Forest * nat) :=
  let '(secs, fresh) := st in
  let itemname := jq_data (data_name current) in
  let itemparent := jq_data (data_parent current) in
  match jq_find (template itemname) secs with
  | None => None
  | Some selectoritemname =>
      if truthy itemparent then
        match jq_find (template itemparent) secs with
        | None => None
        | Some selectoritemparent =>
            let secs1 :=
              if existsb (icon_under false (template itemparent)) secs then secs
              else map (add_icon_under false (template itemparent) itemparentbtn)
                       secs in
            match appendTo selectoritemname selectoritemparent secs1 fresh with
            | Some (secs2, fresh2) =>
                Some (map (hide_at selectoritemparent) secs2, fresh2)
            | None => None
            end
        end
      else Some st
  end.

(** The callback of [frappe.call], lines 318-389, up to the binding of the
    click handlers.  The template runs for every page before anything is
    appended (lines 320-323). *)
Definition make_sidebar_menu (pages : list PageItem) (s : Sidebar)
    : option Sidebar :=
  if forallb renders pages then
    let s1 := append_menu pages s in
    let btns := S (buttons s1) in
    let labelItems := label_items (sections s1) in
    match each each_body labelItems (sections s1, next_id s1) with
    | Some (secs, fresh) =>
        Some {| sections := map (bind_under false (map el_id labelItems)) secs;
                buttons := btns;
                next_id := fresh |}
    | None => None
    end
  else None.

(** The click handler of a drop icon, lines 361-388, run with [e.target]
    the span or the svg of the drop icon of element [x]; [None] when [x]
    carries no drop icon (no handler to run). *)
Definition on_click (x : nat) (v : View) : option View :=
  match lookup_all x (dom v) with
  | Some el =>
      match drop_icon el with
      | Some ic =>
          let itemname := jq_data (data_name el) in
          let existingArray := get_array "list_sidebar_open" (local_storage v) in
          let icon := if bool_decide (href ic = "#es-line-down")
                      then "#es-line-up" else "#es-line-down" in
          let d1 := map (set_href x icon) (dom v) in
          let d2 := map (toggle_parents x) d1 in
          if bool_decide (icon = "#es-line-down") then
            if includes existingArray itemname then
              Some (mkView d2 (<["list_sidebar_open" :=
                                  splice_indexOf existingArray itemname]>
                                (local_storage v)))
            else Some (mkView d2 (local_storage v))
          else
            if negb (includes existingArray itemname) then
              Some (mkView d2 (<["list_sidebar_open" :=
                                  (existingArray ++ [itemname])%list]>
                                (local_storage v)))
            else Some (mkView d2 (local_storage v))
      | None => None
      end
  | None => None
  end.

(** The same handler run with [e.target] the [use] element of the icon of
    [x]: [$drop_icon.find("use")] is empty, [.attr("href")] is [undefined]
    both times it is read and writing it does nothing, so the icon stays as
    it is; the containers are toggled all the same, and the branch that
    stores the name runs. *)
Definition on_use (x : nat) (v : View) : option View :=
  match lookup_all x (dom v) with
  | Some el =>
      match drop_icon el with
      | Some ic =>
          let itemname := jq_data (data_name el) in
          let existingArray := get_array "list_sidebar_open" (local_storage v) in
          let d2 := map (toggle_parents x) (dom v) in
          if negb (includes existingArray itemname) then
            Some (mkView d2 (<["list_sidebar_open" :=
                                (existingArray ++ [itemname])%list]>
                              (local_storage v)))
          else Some (mkView d2 (local_storage v))
      | None => None
      end
  | None => None
  end.

(** One run of the click handler for a click that lands on [t]. *)
Definition handler (t : Target) (x : nat) (v : View) : option View :=
  match t with
  | OnUse => on_use x v
  | OnSpan | OnSvg => on_click x v
  end.

End ListSidebar.

(** ** form_sidebar.js *)

Module FormSidebar.

(** Body of [$nonLabelItems.each(function () {...})], lines 318-336: both
    selectors are evaluated inside the test of the parent. *)
Definition each_body (current : Elem) (st : list Forest * nat)
    : option (list Forest * nat) :=
  let '(secs, fresh) := st in
  let itemname := jq_data (data_name current) in
  let itemparent := jq_data (data_parent current) in
  if truthy itemparent then
    match jq_find (template itemname) secs with
    | None => None
    | Some selectoritemname =>
        match jq_find (template itemparent) secs with
        | None => None
        | Some selectoritemparent =>
            let secs1 :=
              if existsb (icon_under false (template itemparent)) secs then secs
              else map (add_icon_under false (template itemparent) itemparentbtn)
                       secs in
            match appendTo selectoritemname selectoritemparent secs1 fresh with
            | Some (secs2, fresh2) =>
                Some (map (hide_at selectoritemparent) secs2, fresh2)
            | None => None
            end
        end
    end
  else Some st.

(** The callback of [frappe.call], lines 307-364, up to the binding of the
    click handlers. *)
Definition make_sidebar_menu (pages : list PageItem) (s : Sidebar)
    : option Sidebar :=
  if forallb renders pages then
    let s1 := append_menu pages s in
    let nonLabelItems := label_items (sections s1) in
    match each each_body nonLabelItems (sections s1, next_id s1) with
    | Some (secs, fresh) =>
        Some {| sections := map (bind_under false (map el_id nonLabelItems)) secs;
                buttons := buttons s1;
                next_id := fresh |}
    | None => None
    end
  else None.

(** The click handler of a drop icon, lines 338-363, run with [e.target]
    the span or the svg of the drop icon of element [x]; [None] when [x]
    carries no drop icon. *)
Definition on_click (x : nat) (v : View) : option View :=
  match lookup_all x (dom v) with
  | Some el =>
      match drop_icon el with
      | Some ic =>
          let itemname := jq_data (data_name el) in
          let existingArray := get_array "list_sidebar_open" (local_storage v) in
          let icon := if bool_decide (href ic = "#es-line-down")
                      then "#es-line-up" else "#es-line-down" in
          let d1 := map (set_href x icon) (dom v) in
          let d2 := map (toggle_parents x) d1 in
          if bool_decide (icon = "#es-line-down") then
            if includes existingArray itemname then
              Some (mkView d2 (<["list_sidebar_open" :=
                                  splice_indexOf existingArray itemname]>
                                (local_storage v)))
            else Some (mkView d2 (local_storage v))
          else
            if negb (includes existingArray itemname) then
              Some (mkView d2 (<["list_sidebar_open" :=
                                  (existingArray ++ [itemname])%list]>
                                (local_storage v)))
            else Some (mkView d2 (local_storage v))
      | None => None
      end
  | None => None
  end.

(** The same handler run with [e.target] the [use] element of the icon of
    [x]: [$drop_icon.find("use")] is empty, [.attr("href")] is [undefined]
    both times it is read and writing it does nothing, so the icon stays as
    it is; the containers are toggled all the same, and the branch that
    stores the name runs. *)
Definition on_use (x : nat) (v : View) : option View :=
  match lookup_all x (dom v) with
  | Some el =>
      match drop_icon el with
      | Some ic =>
          let itemname := jq_data (data_name el) in
          let existingArray := get_array "list_sidebar_open" (local_storage v) in
          let d2 := map (toggle_parents x) (dom v) in
          if negb (includes existingArray itemname) then
            Some (mkView d2 (<["list_sidebar_open" :=
                                (existingArray ++ [itemname])%list]>
                              (local_storage v)))
          else Some (mkView d2 (local_storage v))
      | None => None
      end
  | None => None
  end.

(** One run of the click handler for a click that lands on [t]. *)
Definition handler (t : Target) (x : nat) (v : View) : option View :=
  match t with
  | OnUse => on_use x v
  | OnSpan | OnSvg => on_click x v
  end.

End FormSidebar.

(** ** The loop and the build once rendering and selectors pass

    [each_core] is the body of the loop of either sidebar with every
    selector accepted, [build_core] the callback of the list sidebar with
    it; the proofs go through them. *)

Definition each_core (current : Elem) (st : list Forest * nat)
    : option (list Forest * nat) :=
  let '(secs, fresh) := st in
  let itemname := jq_data (data_name current) in
  let itemparent := jq_data (data_parent current) in
  let selectoritemname := find_all (template itemname) secs in
  if truthy itemparent then
    let selectoritemparent := find_all (template itemparent) secs in
    let secs1 :=
      if existsb (icon_under false (template itemparent)) secs then secs
      else map (add_icon_under false (template itemparent) itemparentbtn) secs in
    match appendTo selectoritemname selectoritemparent secs1 fresh with
    | Some (secs2, fresh2) => Some (map (hide_at selectoritemparent) secs2, fresh2)
    | None => None
    end
  else Some st.

Definition build_core (pages : list PageItem) (s : Sidebar) : option Sidebar :=
  let s1 := append_menu pages s in
  let btns := S (buttons s1) in
  let labelItems := label_items (sections s1) in
  match each each_core labelItems (sections s1, next_id s1) with
  | Some (secs, fresh) =>
      Some {| sections := map (bind_under false (map el_id labelItems)) secs;
              buttons := btns;
              next_id := fresh |}
  | None => None
  end.

(** ** Reading the handler's effect off a click

    The definitions below restate, for the proofs, what one run of the click
    handler does to the icon and to the stored array. *)

(** The [href] the handler gives the icon. *)
Definition flip_href (h : string) : string :=
  if bool_decide (h = "#es-line-down") then "#es-line-up" else "#es-line-down".

(** The array handed to [localStorage.setItem], if the handler calls it, for
    an icon whose [href] was [h] before the click. *)
Definition saved_array (h : string) (itemname : JsVal) (arr : list JsVal)
    : option (list JsVal) :=
  if bool_decide (h = "#es-line-down")
  then if includes arr itemname then None else Some (arr ++ [itemname])%list
  else if includes arr itemname then Some (splice_indexOf arr itemname) else None.

Definition write_back (o : option (list JsVal)) (st : Storage) : Storage :=
  match o with
  | Some a => <[storage_key := a]> st
  | None => st
  end.

(** The icon of an element after [attr("href", h)]. *)
Definition with_href (h : string) (e : Elem) : Elem :=
  match drop_icon e with
  | Some ic => set_drop_icon (Some (mkIcon h (handlers ic))) e
  | None => e
  end.

(** Two arrays holding the same set of entries. *)
Definition same_set (l k : list JsVal) : Prop := forall x, x ∈ l <-> x ∈ k.

(** The expansion state as the next page load would read it. *)
Definition expansion_state (v : View) : list JsVal :=
  get_array storage_key (local_storage v).

(** ** Statements and sample inputs *)

(** A page whose title and parent are plain strings. *)
Definition sample_page (t p : string) : PageItem :=
  mkPage (JStr t) (JStr p) (JNum "1") JUndefined JUndefined JUndefined JUndefined.

(** The page right after the list sidebar has built the menu for [pages] on
    an empty sidebar, with [arr] stored under the expansion key. *)
Definition loaded_view (pages : list PageItem) (arr : list JsVal) : View :=
  mkView (from_option sections [] (ListSidebar.make_sidebar_menu pages empty_sidebar))
         (<[storage_key := arr]> ∅).

(** Two clicks on the toggle of [x] bring the stored expansion state back to
    the set it was. *)
Definition toggle_twice_restores (click : nat -> View -> option View)
    (x : nat) (v : View) : Prop :=
  forall v1 v2, click x v = Some v1 -> click x v1 = Some v2 ->
    same_set (expansion_state v2) (expansion_state v).

(** A value that JSON writes and reads back unchanged. *)
Definition json_stable (v : JsVal) : Prop := json_value v = v.

(** An array entry that is a string. *)
Definition is_string (v : JsVal) : Prop := exists s, v = JStr s.

(** A click leaves an array of strings an array of strings. *)
Definition click_stores_strings (click : nat -> View -> option View)
    (x : nat) (v : View) : Prop :=
  Forall is_string (expansion_state v) ->
  forall v', click x v = Some v' -> Forall is_string (expansion_state v').

(** ** Reading the tree

    [nodes up f]: every element of [f] with its identity, its [data-name] and
    the [data-name] of the item whose nested container it sits in ([None]:
    directly in the section), where [up] is that name for the top level of
    [f]. *)
Fixpoint nodes (up : option string) (f : Forest)
    : list (nat * string * option string) :=
  match f with
  | FNil => []
  | FNode e k n =>
      (el_id e, data_name e, up) :: nodes (Some (data_name e)) k ++ nodes up n
  end.

Definition node_id (t : nat * string * option string) : nat := t.1.1.
Definition node_name (t : nat * string * option string) : string := t.1.2.
Definition node_up (t : nat * string * option string) : option string := t.2.

(** The node named [n] sits in the nested container of the node named [q]. *)
Definition nested_under (f : Forest) (n q : string) : Prop :=
  exists i, (i, n, Some q) ∈ nodes None f.

(** The node named [n] is a direct child of the section. *)
Definition at_top (f : Forest) (n : string) : Prop :=
  exists i, (i, n, None) ∈ nodes None f.

(** The texts the template writes into [data-name] and [data-parent]. *)
Definition name_text (p : PageItem) : string := template (title p).
Definition parent_text (p : PageItem) : string := template (parent_page p).

(** The parent as the builder sees it: [if (itemparent)] on what jQuery
    reads back from [data-parent]. *)
Definition parent_set (q : string) : bool := truthy (jq_data q).

(** The parent as the specification sees it: a non-empty text. *)
Definition parent_nonempty (q : string) : bool := negb (bool_decide (q = "")).

(** [ancestor is_set links a b]: following parent references from the name
    [a] leads to [b]; [links] pairs each name with its parent text, and
    [is_set] tells which parent texts count as a reference. *)
Inductive ancestor (is_set : string -> bool) (links : list (string * string))
    : string -> string -> Prop :=
  | ancestor_parent n q :
      (n, q) ∈ links -> is_set q = true -> ancestor is_set links n q
  | ancestor_trans a b c :
      ancestor is_set links a b -> ancestor is_set links b c ->
      ancestor is_set links a c.

Definition acyclic (is_set : string -> bool) (links : list (string * string))
    : Prop :=
  forall n, ~ ancestor is_set links n n.

Definition page_links (pages : list PageItem) : list (string * string) :=
  map (fun p => (name_text p, parent_text p)) pages.

Definition elem_links (els : list Elem) : list (string * string) :=
  map (fun e => (data_name e, data_parent e)) els.

(** Where the builder puts an element, given all names of the menu. *)
Definition placed (names : list string) (e : Elem)
    : nat * string * option string :=
  (el_id e, data_name e,
   if parent_set (data_parent e) && bool_decide (data_parent e ∈ names)
   then Some (data_parent e) else None).

Definition unplaced (e : Elem) : nat * string * option string :=
  (el_id e, data_name e, None).

(** The nodes of the tree when the loop has handled [done] and has [todo]
    before it. *)
Definition layout_of (names : list string) (done todo : list Elem)
    : list (nat * string * option string) :=
  (map (placed names) done ++ map unplaced todo)%list.

(** The elements the template produces for [pages], numbered from [i]. *)
Fixpoint rendered (i : nat) (pages : list PageItem) : list Elem :=
  match pages with
  | [] => []
  | p :: ps => sidebar_item_container i p :: rendered (S i) ps
  end.

(** Parent references as the specification wants them: empty, or the title
    of another item. *)
Definition well_formed_parents (pages : list PageItem) : Prop :=
  forall p, p ∈ pages ->
    parent_text p = ""
    \/ exists q, q ∈ pages /\ q <> p /\ name_text q = parent_text p.

(** A page inside the model: the template returns for it, [.data()]
    converts its [data-name] and [data-parent] the way [jq_data] says, and
    the other texts the template writes are plain. *)
Definition page_modelled (p : PageItem) : bool :=
  renders p
  && data_modelled (name_text p) && data_modelled (parent_text p)
  && plain (template (js_or (public p) (JNum "0")))
  && plain (template (js_or (icon p) (JStr "folder-normal")))
  && no_space (template (js_or (icon p) (JStr "folder-normal")))
  && plain (template (custom_link p)).

(** The selectors built from the element's texts are accepted. *)
Definition keys_ok (e : Elem) : Prop :=
  selector_error (data_name e) = false /\ selector_error (data_parent e) = false.

(** Every item whose non-empty parent reference is the title of no other
    item is a direct child of a section after the build, and the build
    returns. *)
Definition orphans_stay (pages : list PageItem) : Prop :=
  forall p, p ∈ pages ->
    parent_text p <> "" ->
    (forall q, q ∈ pages -> q <> p -> name_text q <> parent_text p) ->
    exists s f,
      ListSidebar.make_sidebar_menu pages empty_sidebar = Some s
      /\ f ∈ sections s /\ at_top f (name_text p).

(** Two builds with the same pages leave two containers, each holding the
    rendered items once. *)
Definition two_builds_two_copies (pages : list PageItem) : Prop :=
  exists s1 s2 f1 f2,
    ListSidebar.make_sidebar_menu pages empty_sidebar = Some s1
    /\ ListSidebar.make_sidebar_menu pages s1 = Some s2
    /\ sections s2 = [f1; f2]
    /\ map data_name (elems f1) ≡ₚ map name_text pages
    /\ map data_name (elems f2) ≡ₚ map name_text pages.

(** The two sidebars throw together or return the same sections and the
    same supply of identities. *)
Definition sidebars_alike (pages : list PageItem) (s : Sidebar) : Prop :=
  option_map (fun r => (sections r, next_id r))
             (ListSidebar.make_sidebar_menu pages s)
  = option_map (fun r => (sections r, next_id r))
               (FormSidebar.make_sidebar_menu pages s).

(** Every nested container in the forest carries the class "hidden". *)
Fixpoint all_hidden (f : Forest) : bool :=
  match f with
  | FNil => true
  | FNode e k n => hidden e && all_hidden k && all_hidden n
  end.

(** * Further code of the repository

    ** login.html: the countdown (lines 236-274)

    [Date] arithmetic (calendar, time zone) is the browser's; the functions
    below are the rest: the step to the target weekday and the split of the
    millisecond difference [diff].  [Math.floor(a / b)] on integers below
    2^53 is the floor of the exact quotient ([Z.div]), and [%] keeps the
    sign of the dividend ([Z.rem]). *)

(** [7 - now.getDay() % 7]: the days added to today's date. *)
Definition days_to_target (getDay : Z) : Z := (7 - Z.rem getDay 7)%Z.

(** Number to string, for an integer. *)
Definition js_string_of_int (z : Z) : string :=
  NilZero.string_of_int (Z.to_int z).

(** [days], [hours], [minutes], [seconds] of [getTimeRemainingWeek]. *)
Definition week_parts (diff : Z) : Z * Z * Z * Z :=
  ((diff / (1000 * 60 * 60 * 24))%Z,
   (Z.rem diff (1000 * 60 * 60 * 24) / (1000 * 60 * 60))%Z,
   (Z.rem diff (1000 * 60 * 60) / (1000 * 60))%Z,
   (Z.rem diff (1000 * 60) / 1000)%Z).

(** What [getTimeRemainingWeek] returns when [target - now] is [diff]. *)
Definition getTimeRemainingWeek (diff : Z) : string :=
  let '(days, hours, minutes, seconds) := week_parts diff in
  js_string_of_int days ++ "j " ++ js_string_of_int hours ++ "h "
  ++ js_string_of_int minutes ++ "m " ++ js_string_of_int seconds ++ "s ".

(** [hours], [minutes], [seconds] of [getTimeRemainingDay]. *)
Definition day_parts (diff : Z) : Z * Z * Z :=
  ((Z.rem diff (1000 * 60 * 60 * 24) / (1000 * 60 * 60))%Z,
   (Z.rem diff (1000 * 60 * 60) / (1000 * 60))%Z,
   (Z.rem diff (1000 * 60) / 1000)%Z).

(** What [getTimeRemainingDay] returns when [target - now] is [diff]. *)
Definition getTimeRemainingDay (diff : Z) : string :=
  let '(hours, minutes, seconds) := day_parts diff in
  js_string_of_int hours ++ "h " ++ js_string_of_int minutes ++ "m "
  ++ js_string_of_int seconds ++ "s ".

(** ** translation_manager.js: [update_translations] (lines 95-99) *)

Record TranslationRow : Type := mkRow {
  language : JsVal;
  translation : JsVal;
  translate_woocommerce : JsVal
}.

(** [translation_dict[row.language] = [row.translation, row.translate_woocommerce]]:
    the property key is the text of [row.language]; assigning an array to
    the key "__proto__" of an object literal sets its prototype and creates
    no property. *)
Definition assign_row (d : gmap string (JsVal * JsVal)) (row : TranslationRow)
    : gmap string (JsVal * JsVal) :=
  if bool_decide (template (language row) = "__proto__") then d
  else <[template (language row) := (translation row, translate_woocommerce row)]> d.

(** The [translation_dict] sent to the server; [translation_data] defaults
    to the empty array when it is undefined. *)
Definition translation_dict (translation_data : option (list TranslationRow))
    : gmap string (JsVal * JsVal) :=
  fold_left assign_row (default [] translation_data) ∅.

(** ** form_sidebar.js: the user actions (lines 185-197)

    [this.user_actions] is the jQuery set [this.sidebar.find(".user-actions")];
    every operation applies to each element of the set. *)

Inductive ActionChild : Type :=
  | ActionRow (label : string)   (* li.user-action-row with its link *)
  | OtherChild (markup : string).

Record UserActions : Type := mkUserActions {
  ua_hidden : bool;
  ua_children : list ActionChild
}.

Definition is_action_row (c : ActionChild) : bool :=
  match c with ActionRow _ => true | OtherChild _ => false end.

(** [$("<a>").html(label).appendTo($('<li class="user-action-row">')
      .appendTo(this.user_actions.removeClass("hidden")))] *)
Definition add_user_action (label : string) (uas : list UserActions)
    : list UserActions :=
  map (fun ua => mkUserActions false (ua_children ua ++ [ActionRow label])) uas.

(** [this.user_actions.addClass("hidden");
     this.user_actions.find(".user-action-row").remove()] *)
Definition clear_user_actions (uas : list UserActions) : list UserActions :=
  map (fun ua => mkUserActions true
                   (List.filter (fun c => negb (is_action_row c)) (ua_children ua)))
      uas.

(** ** list_sidebar.js: the "Filter by" button (lines 326-336) *)

(** The collapsible buttons of the sidebar (class "active" or not) and the
    computed [display] of its [ul.sidebar-menu] elements, in document
    order. *)
Record Collapsible : Type := mkCollapsible {
  btn_active : list bool;
  ul_display : list string
}.

Definition set_last (d : string) (l : list string) : list string :=
  match rev l with
  | [] => []
  | _ :: r => rev (d :: r)
  end.

Definition set_nth_bool (i : nat) (b : bool) (l : list bool) : list bool :=
  <[i := b]> l.

(** The click handler, run for the button with index [this]:
    [content = $(sidebar).find('ul.sidebar-menu').last()]; without such an
    element [.css("display")] is undefined and the setter does nothing. *)
Definition collapsible_click (this : nat) (c : Collapsible) : Collapsible :=
  if bool_decide (last (ul_display c) = Some "block")
  then mkCollapsible (set_nth_bool this false (btn_active c))
                     (set_last "none" (ul_display c))
  else mkCollapsible (set_nth_bool this true (btn_active c))
                     (set_last "block" (ul_display c)).

(** ** list_sidebar.js: [setup_reports] (lines 116-163) *)

Module Reports.

(** A field of a report as the server sends it: a string, null, or absent. *)
Inductive Field : Type :=
  | FUndefined
  | FNull
  | FText (s : string).

#[global] Instance Field_eq_dec : EqDecision Field.
Proof. solve_decision. Defined.

Definition field_truthy (f : Field) : bool :=
  match f with
  | FText s => negb (bool_decide (s = ""))
  | _ => false
  end.

(** The field inside a string concatenation or template literal. *)
Definition field_text (f : Field) : string :=
  match f with
  | FUndefined => "undefined"
  | FNull => "null"
  | FText s => s
  end.

Definition field_or (a b : Field) : Field := if field_truthy a then a else b.

Record Report : Type := mkReport {
  ref_doctype : Field;
  report_type : Field;
  route : Field;
  title : Field;
  name : Field
}.

Inductive DropdownItem : Type :=
  | Divider                                   (* what [me.get_divider()] returns *)
  | ReportLink (href : string) (label : Field)   (* <li><a href=...>__(label)</a></li> *)
  | OtherItem (markup : string).

(** The variables [added] and [divider] of [setup_reports] and the children
    of the dropdown. *)
Record State : Type := mkState {
  added : list string;
  divider : bool;
  dropdown : list DropdownItem
}.

(** [!r.ref_doctype || r.ref_doctype == me.doctype] *)
Definition for_doctype (doctype : string) (r : Report) : bool :=
  negb (field_truthy (ref_doctype r))
  || bool_decide (ref_doctype r = FText doctype).

(** [r.route || report_type + "/" + (r.title || r.name)] *)
Definition route_of (r : Report) : string :=
  let report_type :=
    if bool_decide (report_type r = FText "Report Builder")
    then "List/" ++ field_text (ref_doctype r) ++ "/Report"
    else "query-report" in
  if field_truthy (route r) then field_text (route r)
  else report_type ++ "/" ++ field_text (field_or (title r) (name r)).

(** The callback of [$.each(reports, ...)] in [add_reports].  The class in
    this file defines no [get_divider]: [has_get_divider] tells whether the
    method exists on the object; calling a missing method throws ([None]),
    after [added.push(route)] and before anything is appended. *)
Definition add_report (doctype : string) (has_get_divider : bool)
    (st : State) (r : Report) : option State :=
  if for_doctype doctype r then
    let route := route_of r in
    if negb (bool_decide (route ∈ added st)) then
      let link := ReportLink ("#" ++ route) (field_or (title r) (name r)) in
      if divider st then
        Some (mkState (added st ++ [route]) true (dropdown st ++ [link]))
      else if has_get_divider then
        Some (mkState (added st ++ [route]) true (dropdown st ++ [Divider; link]))
      else None
    else Some st
  else Some st.

Fixpoint add_reports (doctype : string) (has_get_divider : bool)
    (reports : list Report) (st : State) : option State :=
  match reports with
  | [] => Some st
  | r :: rest =>
      match add_report doctype has_get_divider st r with
      | Some st' => add_reports doctype has_get_divider rest st'
      | None => None
      end
  end.

(** Whether the title of the report is a string. *)
Definition titled (r : Report) : bool :=
  match title r with
  | FText _ => true
  | _ => false
  end.

(** The comparator of line 158, [a.title.localeCompare(b.title)]: a
    TypeError ([None]) unless [a.title] is a string; [b.title] is converted
    to a string.  [collate] is the order of the browser's locale on
    strings. *)
Definition compare_titles (collate : string -> string -> comparison)
    (a b : Report) : option comparison :=
  match title a with
  | FText s => Some (collate s (field_text (title b)))
  | _ => None
  end.

(** One step of the sort: [a] goes into [before], the part sorted so far
    with its last element first, behind everything it does not come
    before. *)
Fixpoint insert_report (collate : string -> string -> comparison)
    (a : Report) (before : list Report) : option (list Report) :=
  match before with
  | [] => Some [a]
  | b :: rest =>
      match compare_titles collate a b with
      | None => None
      | Some Lt => option_map (cons b) (insert_report collate a rest)
      | Some _ => Some (a :: before)
      end
  end.

Fixpoint sort_from (collate : string -> string -> comparison)
    (reports before : list Report) : option (list Report) :=
  match reports with
  | [] => Some (rev before)
  | a :: rest =>
      match insert_report collate a before with
      | Some before' => sort_from collate rest before'
      | None => None
      end
  end.

(** [Object.values(frappe.boot.user.all_reports).sort(...)] (lines 156-159),
    for [all_reports] the values of that object in the order of its keys:
    a stable sort by insertion, each report compared as [a] with reports
    before it; a comparison that throws ends the sort.  Which pairs an engine
    compares is its own choice, and so is the outcome for a list with both
    reports that have a string title and reports that do not; with string
    titles only no comparison throws, and with two or more reports and no
    string title every comparison does.  The [|| []] of line 159 never
    applies: [sort] returns the array. *)
Definition sort_reports (collate : string -> string -> comparison)
    (all_reports : list Report) : option (list Report) :=
  sort_from collate all_reports [].

(** [setup_reports]: the reports of the list view settings, if any, then the
    reports of [frappe.boot.user.all_reports], sorted by title.  The result
    is the content of the dropdown, [None] if the method throws. *)
Definition setup_reports (collate : string -> string -> comparison)
    (doctype : string) (has_get_divider : bool)
    (settings_reports : option (list Report)) (all_reports : list Report)
    (dropdown0 : list DropdownItem) : option (list DropdownItem) :=
  let st0 := mkState [] false dropdown0 in
  match match settings_reports with
        | Some reports => add_reports doctype has_get_divider reports st0
        | None => Some st0
        end with
  | Some st1 =>
      match sort_reports collate all_reports with
      | Some reports =>
          option_map dropdown (add_reports doctype has_get_divider reports st1)
      | None => None
      end
  | None => None
  end.

End Reports.

(** The targets of the report links among some dropdown items. *)
Definition report_hrefs (l : list Reports.DropdownItem) : list string :=
  flat_map (fun i => match i with Reports.ReportLink h _ => [h] | _ => [] end) l.

(** What [setup_reports] appends for a list of links: a divider before the
    first link, nothing without links. *)
Definition with_divider (links : list Reports.DropdownItem)
    : list Reports.DropdownItem :=
  match links with
  | [] => []
  | _ => Reports.Divider :: links
  end.

Definition is_report_link (i : Reports.DropdownItem) : Prop :=
  exists h l, i = Reports.ReportLink h l.

(** The state of [add_reports] after it has appended [links] to [dropdown0]. *)
Definition reports_state_ok (dropdown0 links : list Reports.DropdownItem)
    (st : Reports.State) : Prop :=
  Reports.dropdown st = (dropdown0 ++ with_divider links)%list
  /\ Reports.divider st = negb (bool_decide (links = []))
  /\ Forall is_report_link links
  /\ report_hrefs links = map (String.append "#") (Reports.added st)
  /\ NoDup (Reports.added st).

(** ** Further readings of the tree *)

(** A property of every element of the forest. *)
Fixpoint forall_elems (P : Elem -> bool) (f : Forest) : bool :=
  match f with
  | FNil => true
  | FNode e k n => P e && forall_elems P k && forall_elems P n
  end.

(** The control of the element is empty or holds the icon as the builder
    appends it. *)
Definition icon_as_appended (e : Elem) : bool :=
  match drop_icon e with
  | None => true
  | Some ic => bool_decide (href ic = "#es-line-down") && Nat.eqb (handlers ic) 0
  end.

(** The control of the element is empty or holds a collapsed icon with one
    click handler. *)
Definition icon_bound_once (e : Elem) : bool :=
  match drop_icon e with
  | None => true
  | Some ic => bool_decide (href ic = "#es-line-down") && Nat.eqb (handlers ic) 1
  end.

Definition top_ids (f : Forest) : list nat := map el_id (tops f).

(** The top level of every section only loses elements, and keeps the rest
    in order. *)
Definition tops_shrink (secs' secs : list Forest) : Prop :=
  Forall2 (fun f' f => top_ids f' `sublist_of` top_ids f) secs' secs.

Definition is_top (t : nat * string * option string) : bool :=
  bool_decide (node_up t = None).

Definition by_id (a b : nat * string * option string) : Prop :=
  node_id a < node_id b.

(** The pages, as the builder places them. *)
Definition stays_on_top (names : list string) (p : PageItem) : bool :=
  negb (parent_set (parent_text p) && bool_decide (parent_text p ∈ names)).

(** The top-level element with identity [i], and its nested container. *)
Fixpoint top_node (i : nat) (f : Forest) : option (Elem * Forest) :=
  match f with
  | FNil => None
  | FNode e k n => if Nat.eqb (el_id e) i then Some (e, k) else top_node i n
  end.

(** The forest without its top-level element [i]. *)
Fixpoint remove_top (i : nat) (f : Forest) : Forest :=
  match f with
  | FNil => FNil
  | FNode e k n => if Nat.eqb (el_id e) i then n else FNode e k (remove_top i n)
  end.

(** The parent named [q] gets a drop icon unless a control at or below it
    has one. *)
Definition with_icon (q : string) (f : Forest) : Forest :=
  if icon_under false q f then f else add_icon_under false q itemparentbtn f.

(** What one round of the loop does in a menu with distinct names, said on
    the tree: the parent named [q] (identity [j]) gets its drop icon, the
    top-level element [i] goes with its subtree to the end of the parent's
    nested container, and the container is hidden. *)
Definition move_under (i j : nat) (q : string) (f : Forest) : Forest :=
  match top_node i (with_icon q f) with
  | Some (e, k) =>
      hide_at [j] (insert_at j (FNode e k FNil) (remove_top i (with_icon q f)))
  | None => f
  end.

Definition is_empty (f : Forest) : bool :=
  match f with FNil => true | FNode _ _ _ => false end.

(** A property of every element together with whether its nested container
    is empty. *)
Fixpoint forall_nodes (P : Elem -> bool -> bool) (f : Forest) : bool :=
  match f with
  | FNil => true
  | FNode e k n => P e (is_empty k) && forall_nodes P k && forall_nodes P n
  end.

Definition has_toggle (e : Elem) : bool := bool_decide (is_Some (drop_icon e)).

(** The element has a toggle exactly when its nested container has
    content. *)
Definition toggle_ok (e : Elem) (empty : bool) : bool :=
  Bool.eqb (has_toggle e) (negb empty).

(** The same, except that an element named [q] just has a toggle. *)
Definition toggle_ok_but (q : string) (e : Elem) (empty : bool) : bool :=
  if named q e then has_toggle e else toggle_ok e empty.

(** The same, with the exception made for the element [j]. *)
Definition toggle_ok_but_id (j : nat) (e : Elem) (empty : bool) : bool :=
  if Nat.eqb (el_id e) j then has_toggle e else toggle_ok e empty.

(** The name [q] belongs to the element [j] and to no other. *)
Definition name_of (q : string) (j : nat) (e : Elem) (empty : bool) : bool :=
  Bool.eqb (named q e) (Nat.eqb (el_id e) j).

(** The children of the elements named [q]: what their nested containers
    hold directly, in document order. *)
Fixpoint children_of (q : string) (f : Forest) : list Elem :=
  match f with
  | FNil => []
  | FNode e k n =>
      ((if named q e then tops k else []) ++ children_of q k ++ children_of q n)%list
  end.

(** In every nested container the children stand in the order of their
    identities. *)
Fixpoint kids_sorted (f : Forest) : Prop :=
  match f with
  | FNil => True
  | FNode e k n => StronglySorted lt (top_ids k) /\ kids_sorted k /\ kids_sorted n
  end.

(** The builder puts the page below the item named [q]: its parent
    reference is [q], counts as set, and names an item of the menu. *)
Definition nests_under (names : list string) (q : string) (p : PageItem) : bool :=
  parent_set (parent_text p) && bool_decide (parent_text p ∈ names)
  && bool_decide (parent_text p = q).

Definition is_under (q : string) (t : nat * string * option string) : bool :=
  bool_decide (node_up t = Some q).

Definition entries (up : option string) (l : list Elem)
    : list (nat * string * option string) :=
  map (fun c => (el_id c, data_name c, up)) l.

(** Clicks on the toggles of the elements [xs], one after the other, each
    with the part of the icon it lands on. *)
Fixpoint clicks (xs : list (Target * nat)) (v : View) : option View :=
  match xs with
  | [] => Some v
  | (t, x) :: r => match ListSidebar.handler t x v with
                   | Some v' => clicks r v'
                   | None => None
                   end
  end.

(** The array a run of the handler on the [use] element hands to
    [localStorage.setItem], if it calls it. *)
Definition saved_on_use (itemname : JsVal) (arr : list JsVal)
    : option (list JsVal) :=
  if includes arr itemname then None else Some (arr ++ [itemname])%list.

(** The same for any target, for an icon whose [href] was [h]. *)
Definition saved_by (t : Target) (h : string) (itemname : JsVal)
    (arr : list JsVal) : option (list JsVal) :=
  match t with
  | OnUse => saved_on_use itemname arr
  | OnSpan | OnSvg => saved_array h itemname arr
  end.

Definition is_use (t : Target) : bool :=
  match t with OnUse => true | _ => false end.

(** A drop icon in one of the two states the handler writes, with its one
    handler. *)
Definition icon_in_use (e : Elem) : bool :=
  match drop_icon e with
  | None => true
  | Some ic =>
      (bool_decide (href ic = "#es-line-down") || bool_decide (href ic = "#es-line-up"))
      && Nat.eqb (handlers ic) 1
  end.

(** The title made of the letter a and a backslash. *)
Definition a_backslash : string :=
  String "a" (String (ascii_of_nat 92) EmptyString).

(** * Properties *)

(** ** Arrays of the click handler *)

Lemma includes_true (l : list JsVal) (v : JsVal) :
  includes l v = true <-> v ∈ l.
Proof.
  unfold includes. induction l as [|w l IH]; simpl.
  - split; [discriminate | intros H; inversion H].
  - rewrite orb_true_iff, IH, bool_decide_eq_true, elem_of_cons.
    split; intros [H|H]; auto.
Qed.

Lemma includes_false (l : list JsVal) (v : JsVal) :
  includes l v = false <-> v ∉ l.
Proof.
  rewrite <- includes_true. destruct (includes l v); split; congruence.
Qed.

Lemma remove_nth_sublist (i : nat) (l : list JsVal) :
  remove_nth i l `sublist_of` l.
Proof.
  revert i. induction l as [|w l IH]; intros i; simpl.
  - constructor.
  - destruct i; [apply sublist_cons; reflexivity | apply sublist_skip, IH].
Qed.

Lemma removelast_sublist (l : list JsVal) : removelast l `sublist_of` l.
Proof.
  induction l as [|w l IH]; simpl; [constructor|].
  destruct l; [apply sublist_cons; constructor | apply sublist_skip, IH].
Qed.

Lemma splice_indexOf_sublist (l : list JsVal) (v : JsVal) :
  splice_indexOf l v `sublist_of` l.
Proof.
  unfold splice_indexOf. destruct (indexOf l v).
  - apply remove_nth_sublist.
  - apply removelast_sublist.
Qed.

Lemma strict_eq_true (a b : JsVal) :
  b <> JNum "NaN" -> strict_eq a b = bool_decide (a = b).
Proof.
  intros Hb. unfold strict_eq. case_bool_decide as E; simpl; [|reflexivity].
  subst. rewrite bool_decide_eq_false_2 by assumption. reflexivity.
Qed.

(** For a value other than NaN, [splice(indexOf(v), 1)] on an array that
    holds [v] once leaves an array without [v] and keeps all the rest. *)
Lemma splice_indexOf_elem (l : list JsVal) (v w : JsVal) :
  v <> JNum "NaN" -> v ∈ l -> w <> v ->
  (w ∈ splice_indexOf l v <-> w ∈ l).
Proof.
  intros Hv Hin Hw. unfold splice_indexOf.
  induction l as [|a l IH]; [inversion Hin|].
  simpl. rewrite strict_eq_true by assumption.
  case_bool_decide as E; simpl.
  - subst a. rewrite elem_of_cons. split; [auto|]. intros [?|?]; [contradiction|auto].
  - apply elem_of_cons in Hin as [Hin|Hin]; [congruence|].
    specialize (IH Hin).
    destruct (indexOf l v) as [i|] eqn:Ei; simpl in *.
    + rewrite !elem_of_cons, IH. reflexivity.
    + exfalso. clear IH. induction l as [|b l IHl]; [inversion Hin|].
      simpl in Ei. rewrite strict_eq_true in Ei by assumption.
      case_bool_decide; [discriminate|].
      apply elem_of_cons in Hin as [?|Hin]; [congruence|].
      destruct (indexOf l v); [discriminate|]. auto.
Qed.

Lemma json_value_idem (v : JsVal) : json_value (json_value v) = json_value v.
Proof.
  destruct v as [| |b|t|s]; simpl; try reflexivity.
  destruct (bool_decide (t = "NaN") || bool_decide (t = "Infinity")
            || bool_decide (t = "-Infinity")) eqn:E; simpl; [reflexivity|].
  rewrite E. reflexivity.
Qed.

(** ** The click handler, step by step *)

Lemma on_click_unfold (x : nat) (v : View) :
  ListSidebar.on_click x v =
  match lookup_all x (dom v) with
  | Some el =>
      match drop_icon el with
      | Some ic =>
          Some (mkView
                  (map (toggle_parents x)
                       (map (set_href x (flip_href (href ic))) (dom v)))
                  (write_back
                     (saved_array (href ic) (jq_data (data_name el))
                                  (expansion_state v))
                     (local_storage v)))
      | None => None
      end
  | None => None
  end.
Proof.
  unfold ListSidebar.on_click, flip_href, saved_array, write_back,
    expansion_state, storage_key.
  destruct (lookup_all x (dom v)) as [el|]; [|reflexivity].
  destruct (drop_icon el) as [ic|]; [|reflexivity].
  destruct (bool_decide (href ic = "#es-line-down")); cbv iota.
  - rewrite (bool_decide_eq_false_2 ("#es-line-up" = "#es-line-down"))
      by discriminate.
    destruct (includes _ _); reflexivity.
  - rewrite (bool_decide_eq_true_2 ("#es-line-down" = "#es-line-down"))
      by reflexivity.
    destruct (includes _ _); reflexivity.
Qed.

Lemma lookup_elem_set_href (x : nat) (h : string) (f : Forest) :
  lookup_elem x (set_href x h f) = option_map (with_href h) (lookup_elem x f).
Proof.
  induction f as [|e k IHk n IHn]; simpl; [reflexivity|].
  destruct (Nat.eqb (el_id e) x) eqn:E; simpl.
  - unfold with_href. destruct (drop_icon e); simpl; rewrite E; reflexivity.
  - rewrite E, IHk, IHn. destruct (lookup_elem x k); reflexivity.
Qed.

Lemma lookup_elem_flip_all (x : nat) (f : Forest) :
  lookup_elem x (flip_all f)
  = option_map (fun e => set_hidden (negb (hidden e)) e) (lookup_elem x f).
Proof.
  induction f as [|e k IHk n IHn]; simpl; [reflexivity|].
  destruct (Nat.eqb (el_id e) x); simpl; [reflexivity|].
  rewrite IHk, IHn. destruct (lookup_elem x k); reflexivity.
Qed.

(** Toggling containers changes nothing but [hidden] flags. *)
Lemma lookup_elem_toggle_parents (x y : nat) (f : Forest) :
  option_map (set_hidden false) (lookup_elem x (toggle_parents y f))
  = option_map (set_hidden false) (lookup_elem x f).
Proof.
  induction f as [|e k IHk n IHn]; simpl; [reflexivity|].
  destruct (Nat.eqb (el_id e) y || has_id y k); simpl.
  - destruct (Nat.eqb (el_id e) x); simpl; [reflexivity|].
    rewrite lookup_elem_flip_all. destruct (lookup_elem x k); simpl; [reflexivity|].
    exact IHn.
  - destruct (Nat.eqb (el_id e) x); simpl; [reflexivity|].
    destruct (lookup_elem x k); simpl; [reflexivity|]. exact IHn.
Qed.

Lemma lookup_all_after_click (x y : nat) (h : string) (d : list Forest) :
  option_map (set_hidden false)
    (lookup_all x (map (toggle_parents y) (map (set_href x h) d)))
  = option_map (fun e => set_hidden false (with_href h e)) (lookup_all x d).
Proof.
  induction d as [|f d IH]; simpl; [reflexivity|].
  pose proof (lookup_elem_toggle_parents x y (set_href x h f)) as Ht.
  rewrite lookup_elem_set_href in Ht.
  destruct (lookup_elem x f) as [e|]; simpl in *.
  - destruct (lookup_elem x (toggle_parents y (set_href x h f))); simpl in *;
      [assumption | discriminate].
  - destruct (lookup_elem x (toggle_parents y (set_href x h f))); simpl in *;
      [discriminate | exact IH].
Qed.

(** After a click the element is still there, under the same name, and its
    icon shows the flipped [href]. *)
Lemma clicked_elem_after (x : nat) (d : list Forest) (el : Elem) (ic : DropIcon) :
  lookup_all x d = Some el -> drop_icon el = Some ic ->
  exists el',
    lookup_all x (map (toggle_parents x)
                      (map (set_href x (flip_href (href ic))) d)) = Some el'
    /\ data_name el' = data_name el
    /\ drop_icon el' = Some (mkIcon (flip_href (href ic)) (handlers ic)).
Proof.
  intros Hl Hi.
  pose proof (lookup_all_after_click x x (flip_href (href ic)) d) as H.
  rewrite Hl in H. cbn [option_map] in H.
  destruct (lookup_all x (map _ _)) as [el'|]; [|discriminate].
  exists el'. split; [reflexivity|].
  cbn [option_map] in H. apply (inj Some) in H. rename H into Heq. unfold with_href in Heq. rewrite Hi in Heq. split.
  - exact (f_equal data_name Heq).
  - exact (f_equal drop_icon Heq).
Qed.

Lemma get_array_write_back (o : option (list JsVal)) (st : Storage) :
  get_array storage_key (write_back o st)
  = match o with
    | Some a => parse_stringify a
    | None => get_array storage_key st
    end.
Proof.
  destruct o as [a|]; simpl; [|reflexivity].
  unfold get_array. rewrite lookup_insert_eq. reflexivity.
Qed.

Lemma parse_stringify_stable (l : list JsVal) :
  Forall json_stable l -> parse_stringify l = l.
Proof.
  unfold parse_stringify. induction 1 as [|v l Hv _ IH]; simpl; [reflexivity|].
  rewrite Hv, IH. reflexivity.
Qed.

Lemma parse_stringify_all_stable (l : list JsVal) :
  Forall json_stable (parse_stringify l).
Proof.
  unfold parse_stringify. induction l; simpl; constructor;
    [apply json_value_idem | assumption].
Qed.

Lemma expansion_state_stable (v : View) : Forall json_stable (expansion_state v).
Proof. apply parse_stringify_all_stable. Qed.

Lemma json_stable_not_nan (v : JsVal) : json_stable v -> v <> JNum "NaN".
Proof. intros H ->. discriminate H. Qed.

Lemma splice_indexOf_snoc (l : list JsVal) (v : JsVal) :
  v <> JNum "NaN" -> v ∉ l -> splice_indexOf (l ++ [v]) v = l.
Proof.
  intros Hv Hn. unfold splice_indexOf.
  induction l as [|a l IH]; simpl.
  - rewrite strict_eq_true by assumption.
    rewrite bool_decide_eq_true_2 by reflexivity. reflexivity.
  - rewrite strict_eq_true by assumption.
    rewrite not_elem_of_cons in Hn. destruct Hn as [Hne Hn].
    rewrite bool_decide_eq_false_2 by congruence.
    specialize (IH Hn).
    destruct (indexOf (l ++ [v]) v) as [i|] eqn:Ei; simpl in *.
    + rewrite IH. reflexivity.
    + destruct (l ++ [v])%list eqn:El; [destruct l; discriminate|].
      rewrite IH. reflexivity.
Qed.

Lemma Forall_sublist_of (P : JsVal -> Prop) (l k : list JsVal) :
  l `sublist_of` k -> Forall P k -> Forall P l.
Proof.
  induction 1 as [|a l k _ IH|a l k _ IH]; intros Hk;
    [constructor | inversion Hk; subst; constructor; auto
    | inversion Hk; subst; auto].
Qed.

(** The stored array after one run of the handler. *)
Lemma on_click_state (x : nat) (v v' : View) :
  ListSidebar.on_click x v = Some v' ->
  exists el ic,
    lookup_all x (dom v) = Some el /\ drop_icon el = Some ic
    /\ dom v' = map (toggle_parents x)
                    (map (set_href x (flip_href (href ic))) (dom v))
    /\ local_storage v'
       = write_back (saved_array (href ic) (jq_data (data_name el))
                                 (expansion_state v)) (local_storage v).
Proof.
  rewrite on_click_unfold.
  destruct (lookup_all x (dom v)) as [el|] eqn:El; [|discriminate].
  destruct (drop_icon el) as [ic|] eqn:Ei; [|discriminate].
  intros [= <-]. exists el, ic. auto.
Qed.

(** What the next page load reads after a click, for a title that JSON
    stores as it is. *)
Lemma state_after_click (h : string) (name : JsVal) (v : View) :
  json_stable name ->
  get_array storage_key
    (write_back (saved_array h name (expansion_state v)) (local_storage v))
  = from_option id (expansion_state v) (saved_array h name (expansion_state v)).
Proof.
  intros Hs. rewrite get_array_write_back.
  pose proof (expansion_state_stable v) as Hst.
  unfold saved_array.
  destruct (bool_decide (h = "#es-line-down")), (includes _ _); simpl;
    try reflexivity.
  - apply parse_stringify_stable. apply Forall_app. split; [assumption|].
    constructor; [assumption | constructor].
  - apply parse_stringify_stable.
    eapply Forall_sublist_of; [apply splice_indexOf_sublist | assumption].
Qed.

(** ** The handler for every target *)

Lemma on_use_state (x : nat) (v v' : View) :
  ListSidebar.on_use x v = Some v' ->
  exists el ic,
    lookup_all x (dom v) = Some el /\ drop_icon el = Some ic
    /\ dom v' = map (toggle_parents x) (dom v)
    /\ local_storage v'
       = write_back (saved_on_use (jq_data (data_name el)) (expansion_state v))
                    (local_storage v).
Proof.
  unfold ListSidebar.on_use.
  destruct (lookup_all x (dom v)) as [el|] eqn:El; [|discriminate].
  destruct (drop_icon el) as [ic|] eqn:Ei; [|discriminate].
  unfold saved_on_use, expansion_state, storage_key.
  destruct (includes _ _) eqn:E; simpl; intros [= <-]; exists el, ic; rewrite E.
  all: repeat split; first [assumption | reflexivity].
Qed.

Lemma handler_same_function : FormSidebar.handler = ListSidebar.handler.
Proof. reflexivity. Qed.

Lemma handler_not_use (t : Target) (x : nat) (v : View) :
  is_use t = false -> ListSidebar.handler t x v = ListSidebar.on_click x v.
Proof. destruct t; [reflexivity | reflexivity | discriminate]. Qed.

(** One run of the handler, whatever the click landed on. *)
Lemma handler_state (t : Target) (x : nat) (v v' : View) :
  ListSidebar.handler t x v = Some v' ->
  exists el ic,
    lookup_all x (dom v) = Some el /\ drop_icon el = Some ic
    /\ dom v' = map (toggle_parents x)
                    (if is_use t then dom v
                     else map (set_href x (flip_href (href ic))) (dom v))
    /\ local_storage v'
       = write_back (saved_by t (href ic) (jq_data (data_name el))
                              (expansion_state v)) (local_storage v).
Proof.
  destruct t; simpl; [apply on_click_state | apply on_click_state | apply on_use_state].
Qed.

Lemma state_after_handler (t : Target) (h : string) (name : JsVal) (v : View) :
  json_stable name ->
  get_array storage_key
    (write_back (saved_by t h name (expansion_state v)) (local_storage v))
  = from_option id (expansion_state v) (saved_by t h name (expansion_state v)).
Proof.
  intros Hs. destruct t; simpl; try (apply state_after_click; assumption).
  rewrite get_array_write_back. unfold saved_on_use.
  destruct (includes _ _); simpl; [reflexivity|].
  apply parse_stringify_stable. apply Forall_app. split.
  - apply expansion_state_stable.
  - constructor; [assumption | constructor].
Qed.

(** ** C3: toggling twice *)




(** ** C9: no duplicates in the stored array *)

(** C9 on the code: jQuery reads the [data-name] "Infinity" back as the
    number, JSON writes that number as null, and [includes] looks for the
    number again.  Starting from nothing stored, the first click on the
    toggle stores [null], the second leaves it, and the third, on an array
    without duplicates, stores [null, null]. *)
Theorem third_click_duplicates_null :
  let v0 := loaded_view [sample_page "Infinity" ""; sample_page "Y" "Infinity"] [] in
  exists v1 v2 v3,
    ListSidebar.on_click 0 v0 = Some v1
    /\ ListSidebar.on_click 0 v1 = Some v2
    /\ ListSidebar.on_click 0 v2 = Some v3
    /\ FormSidebar.on_click 0 v2 = Some v3
    /\ expansion_state v2 = [JNull]
    /\ NoDup (expansion_state v2)
    /\ expansion_state v3 = [JNull; JNull]
    /\ ~ NoDup (expansion_state v3).
Proof.
  intros v0.
  eexists _, _, _.
  split; [vm_compute; reflexivity|].
  split; [vm_compute; reflexivity|].
  split; [vm_compute; reflexivity|].
  split; [vm_compute; reflexivity|].
  split; [vm_compute; reflexivity|].
  split; [vm_compute; apply NoDup_singleton|].
  split; [vm_compute; reflexivity|].
  vm_compute. intros H. apply NoDup_cons in H as [Hn _]. apply Hn. constructor.
Qed.

(** ** C7: the storage key and what is stored under it *)




(** ** Structure of the tree under the DOM operations *)

Lemma template_jq_data (s : string) : template (jq_data s) = s.
Proof.
  unfold jq_data. repeat case_bool_decide; subst; try reflexivity.
  destruct (canonical_number s); reflexivity.
Qed.

Lemma fapp_nil_r (f : Forest) : fapp f FNil = f.
Proof. induction f as [|e k _ n IH]; simpl; [reflexivity | rewrite IH; reflexivity]. Qed.

Lemma nodes_fapp (up : option string) (f g : Forest) :
  nodes up (fapp f g) = (nodes up f ++ nodes up g)%list.
Proof.
  induction f as [|e k _ n IH]; simpl; [reflexivity|].
  rewrite IH, app_assoc. reflexivity.
Qed.

Lemma nodes_add_icon_under (up : option string) (b : bool) (key : string)
    (ic : DropIcon) (f : Forest) :
  nodes up (add_icon_under b key ic f) = nodes up f.
Proof.
  revert up b. induction f as [|e k IHk n IHn]; intros up b; simpl; [reflexivity|].
  destruct (b || named key e); simpl; rewrite IHk, IHn; reflexivity.
Qed.

Lemma nodes_hide_at (up : option string) (ids : list nat) (f : Forest) :
  nodes up (hide_at ids f) = nodes up f.
Proof.
  revert up. induction f as [|e k IHk n IHn]; intros up; simpl; [reflexivity|].
  destruct (mem (el_id e) ids); simpl; rewrite IHk, IHn; reflexivity.
Qed.

Lemma nodes_bind_under (up : option string) (b : bool) (roots : list nat)
    (f : Forest) :
  nodes up (bind_under b roots f) = nodes up f.
Proof.
  revert up b. induction f as [|e k IHk n IHn]; intros up b; simpl; [reflexivity|].
  assert (Ha : forall e', el_id (add_handler e') = el_id e'
                          /\ data_name (add_handler e') = data_name e').
  { intros e'. unfold add_handler. destruct (drop_icon e'); auto. }
  destruct (b || mem (el_id e) roots); simpl; rewrite IHk, IHn;
    [destruct (Ha e) as [-> ->]|]; reflexivity.
Qed.

Lemma has_id_nodes (i : nat) (up : option string) (f : Forest) :
  has_id i f = true <-> i ∈ map node_id (nodes up f).
Proof.
  revert up. induction f as [|e k IHk n IHn]; intros up; simpl.
  - split; [discriminate | intros H; inversion H].
  - change (node_id (el_id e, data_name e, up)) with (el_id e).
    rewrite !orb_true_iff, map_app, elem_of_cons, elem_of_app.
    rewrite (IHk (Some (data_name e))), (IHn up), Nat.eqb_eq.
    intuition congruence.
Qed.

Lemma find_named_nodes (key : string) (up : option string) (f : Forest) :
  find_named key f
  = map node_id (List.filter (fun t => bool_decide (node_name t = key)) (nodes up f)).
Proof.
  revert up. induction f as [|e k IHk n IHn]; intros up; simpl; [reflexivity|].
  unfold named. change (node_name (el_id e, data_name e, up)) with (data_name e).
  destruct (bool_decide (data_name e = key)); simpl;
    rewrite List.filter_app, map_app, <- (IHk (Some (data_name e))), <- (IHn up);
    reflexivity.
Qed.

(** An element that is not in the tree cannot be detached from it. *)
Lemma detach_absent (i : nat) (f : Forest) :
  has_id i f = false -> detach [i] f = (f, FNil).
Proof.
  induction f as [|e k IHk n IHn]; simpl; [reflexivity|].
  rewrite !orb_false_iff. intros [[He Hk] Hn].
  rewrite (IHk Hk), (IHn Hn). simpl.
  rewrite He. reflexivity.
Qed.

Lemma insert_at_absent (t : nat) (frag f : Forest) :
  has_id t f = false -> insert_at t frag f = f.
Proof.
  induction f as [|e k IHk n IHn]; simpl; [reflexivity|].
  rewrite !orb_false_iff. intros [[He Hk] Hn].
  rewrite He, (IHk Hk), (IHn Hn). reflexivity.
Qed.

Lemma NoDup_ids_node (up : option string) (e : Elem) (k n : Forest) :
  NoDup (map node_id (nodes up (FNode e k n))) ->
  has_id (el_id e) k = false /\ has_id (el_id e) n = false
  /\ NoDup (map node_id (nodes (Some (data_name e)) k))
  /\ NoDup (map node_id (nodes up n))
  /\ (forall i, has_id i k = true -> has_id i n = true -> False).
Proof.
  simpl. rewrite map_app. change (node_id (el_id e, data_name e, up)) with (el_id e).
  rewrite NoDup_cons, NoDup_app, elem_of_app.
  intros (Hhd & Hk & Hdis & Hn).
  repeat split; try assumption.
  - destruct (has_id (el_id e) k) eqn:E; [|reflexivity].
    apply (has_id_nodes _ (Some (data_name e))) in E. tauto.
  - destruct (has_id (el_id e) n) eqn:E; [|reflexivity].
    apply (has_id_nodes _ up) in E. tauto.
  - intros i Hik Hin.
    apply (has_id_nodes _ (Some (data_name e))) in Hik.
    apply (has_id_nodes _ up) in Hin. exact (Hdis i Hik Hin).
Qed.

(** Detaching the one element with identity [i]: the fragment is that
    element with its subtree, everything else stays where it is. *)
Lemma detach_one (i : nat) (up : option string) (f : Forest) :
  NoDup (map node_id (nodes up f)) -> has_id i f = true ->
  exists e k rest u,
    detach [i] f = (rest, FNode e k FNil) /\ el_id e = i
    /\ nodes up f ≡ₚ (i, data_name e, u) :: nodes (Some (data_name e)) k
                      ++ nodes up rest.
Proof.
  revert up. induction f as [|e k IHk n IHn]; intros up Hnd Hi; [discriminate|].
  destruct (NoDup_ids_node up e k n Hnd) as (Hek & Hen & Hndk & Hndn & Hdis).
  simpl in Hi. simpl detach. unfold mem. simpl existsb. rewrite orb_false_r.
  destruct (Nat.eqb (el_id e) i) eqn:Ee.
  - apply Nat.eqb_eq in Ee. subst i.
    rewrite (detach_absent _ _ Hek), (detach_absent _ _ Hen). simpl.
    exists e, k, n, up. repeat split. reflexivity.
  - simpl in Hi. destruct (has_id i k) eqn:Eik.
    + assert (Ein : has_id i n = false).
      { destruct (has_id i n) eqn:E; [|reflexivity]. destruct (Hdis i Eik E). }
      destruct (IHk (Some (data_name e)) Hndk eq_refl)
        as (e' & k2 & k' & u & Hd & Hid & Hp).
      rewrite Hd, (detach_absent _ _ Ein). simpl.
      exists e', k2, (FNode e k' n), u. repeat split; [assumption|].
      simpl. rewrite Hp. solve_Permutation.
    + simpl in Hi.
      destruct (IHn up Hndn Hi) as (e' & k2 & n' & u & Hd & Hid & Hp).
      rewrite Hd, (detach_absent _ _ Eik). simpl.
      exists e', k2, (FNode e k n'), u. repeat split; [assumption|].
      simpl. rewrite Hp. solve_Permutation.
Qed.

(** Appending a fragment to the nested container of the one element with
    identity [t]. *)
Lemma insert_at_one (t : nat) (frag : Forest) (up : option string) (f : Forest) :
  NoDup (map node_id (nodes up f)) -> has_id t f = true ->
  exists q u,
    (t, q, u) ∈ nodes up f
    /\ nodes up (insert_at t frag f) ≡ₚ nodes up f ++ nodes (Some q) frag.
Proof.
  revert up. induction f as [|e k IHk n IHn]; intros up Hnd Ht; [discriminate|].
  destruct (NoDup_ids_node up e k n Hnd) as (Hek & Hen & Hndk & Hndn & Hdis).
  simpl in Ht. simpl insert_at.
  destruct (Nat.eqb (el_id e) t) eqn:Ee.
  - apply Nat.eqb_eq in Ee. subst t.
    rewrite (insert_at_absent _ _ _ Hen).
    exists (data_name e), up. split; [simpl; left|].
    simpl. rewrite nodes_fapp. solve_Permutation.
  - simpl in Ht. destruct (has_id t k) eqn:Etk.
    + assert (Etn : has_id t n = false).
      { destruct (has_id t n) eqn:E; [|reflexivity]. destruct (Hdis t Etk E). }
      destruct (IHk (Some (data_name e)) Hndk eq_refl) as (q & u & Hin & Hp).
      rewrite (insert_at_absent _ _ _ Etn).
      exists q, u. split.
      * simpl. right. apply elem_of_app. left. assumption.
      * simpl. rewrite Hp. solve_Permutation.
    + simpl in Ht.
      destruct (IHn up Hndn Ht) as (q & u & Hin & Hp).
      rewrite (insert_at_absent _ _ _ Etk).
      exists q, u. split.
      * simpl. right. apply elem_of_app. right. assumption.
      * simpl. rewrite Hp. solve_Permutation.
Qed.

(** ** Lists of nodes *)

Lemma filter_Permutation_list {A : Type} (P : A -> bool) (l k : list A) :
  l ≡ₚ k -> List.filter P l ≡ₚ List.filter P k.
Proof.
  induction 1 as [|x l k _ IH|x y l|l k m _ IH1 _ IH2]; simpl.
  - reflexivity.
  - destruct (P x); [constructor|]; assumption.
  - destruct (P x), (P y); try reflexivity. apply perm_swap.
  - etransitivity; eassumption.
Qed.

Lemma filter_name_absent (key : string) (l : list (nat * string * option string)) :
  key ∉ map node_name l ->
  List.filter (fun t => bool_decide (node_name t = key)) l = [].
Proof.
  induction l as [|t l IH]; simpl; [reflexivity|].
  rewrite not_elem_of_cons. intros [Hne Hn].
  rewrite bool_decide_eq_false_2 by congruence. auto.
Qed.

Lemma filter_name_unique (t : nat * string * option string)
    (l : list (nat * string * option string)) :
  NoDup (map node_name l) -> t ∈ l ->
  List.filter (fun x => bool_decide (node_name x = node_name t)) l = [t].
Proof.
  induction l as [|a l IH]; simpl; intros Hnd Hin; [inversion Hin|].
  apply NoDup_cons in Hnd as [Ha Hnd].
  apply elem_of_cons in Hin as [->|Hin].
  - rewrite bool_decide_eq_true_2 by reflexivity.
    rewrite filter_name_absent by assumption. reflexivity.
  - rewrite bool_decide_eq_false_2; [auto|].
    intros E. apply Ha. rewrite E. apply list_elem_of_In, in_map, list_elem_of_In.
    assumption.
Qed.

(** In a tree whose nodes are those of [l], with distinct names, looking a
    name up yields the one element that carries it. *)
Lemma find_named_unique (f : Forest) (l : list (nat * string * option string))
    (t : nat * string * option string) :
  nodes None f ≡ₚ l -> NoDup (map node_name l) -> t ∈ l ->
  find_named (node_name t) f = [node_id t].
Proof.
  intros Hp Hnd Hin. rewrite (find_named_nodes _ None).
  apply (filter_Permutation_list
           (fun x => bool_decide (node_name x = node_name t))) in Hp.
  rewrite (filter_name_unique t l Hnd Hin) in Hp.
  apply Permutation_singleton_r in Hp. rewrite Hp. reflexivity.
Qed.

Lemma find_named_absent (f : Forest) (l : list (nat * string * option string))
    (key : string) :
  nodes None f ≡ₚ l -> key ∉ map node_name l -> find_named key f = [].
Proof.
  intros Hp Hn. rewrite (find_named_nodes _ None).
  apply (filter_Permutation_list
           (fun x => bool_decide (node_name x = key))) in Hp.
  rewrite (filter_name_absent key l Hn) in Hp.
  apply Permutation_nil_r in Hp. rewrite Hp. reflexivity.
Qed.

(** With distinct identities, a node is determined by its identity. *)
Lemma node_by_id (l : list (nat * string * option string))
    (a b : nat * string * option string) :
  NoDup (map node_id l) -> a ∈ l -> b ∈ l -> node_id a = node_id b -> a = b.
Proof.
  induction l as [|c l IH]; simpl; intros Hnd Ha Hb E; [inversion Ha|].
  apply NoDup_cons in Hnd as [Hc Hnd].
  assert (Hm : forall x, x ∈ l -> node_id x ∈ map node_id l).
  { intros x Hx. apply list_elem_of_In, in_map, list_elem_of_In. assumption. }
  apply elem_of_cons in Ha as [->|Ha]; apply elem_of_cons in Hb as [->|Hb].
  - reflexivity.
  - exfalso. apply Hc. rewrite E. auto.
  - exfalso. apply Hc. rewrite <- E. auto.
  - auto.
Qed.

(** Everything below the node named [a] descends from [a], when every
    nesting in the tree follows a parent reference. *)
Lemma subtree_descends (is_set : string -> bool) (links : list (string * string))
    (a : string) (k : Forest) :
  (forall t q, t ∈ nodes (Some a) k -> node_up t = Some q ->
               ancestor is_set links (node_name t) q) ->
  forall t, t ∈ nodes (Some a) k -> ancestor is_set links (node_name t) a.
Proof.
  revert a. induction k as [|e k IHk n IHn]; intros a Hlinks t Ht;
    [inversion Ht|].
  simpl in Ht, Hlinks.
  assert (Hea : ancestor is_set links (data_name e) a).
  { apply (Hlinks (el_id e, data_name e, Some a)); [left | reflexivity]. }
  apply elem_of_cons in Ht as [->|Ht]; [exact Hea|].
  apply elem_of_app in Ht as [Ht|Ht].
  - eapply ancestor_trans; [|exact Hea].
    apply IHk; [|assumption].
    intros t' q Ht' Hq. apply Hlinks; [|assumption].
    right. apply elem_of_app. left. assumption.
  - apply IHn; [|assumption].
    intros t' q Ht' Hq. apply Hlinks; [|assumption].
    right. apply elem_of_app. right. assumption.
Qed.

(** ** The re-parenting loop on one menu *)

Section Reparent.

Variable els : list Elem.

Hypothesis els_ids : NoDup (map el_id els).
Hypothesis els_names : NoDup (map data_name els).
Hypothesis els_acyclic : acyclic parent_set (elem_links els).

Local Abbreviation layout := (layout_of (map data_name els)).

Lemma layout_ids (done todo : list Elem) :
  map node_id (layout done todo) = map el_id (done ++ todo)%list.
Proof.
  unfold layout_of. rewrite !map_app, !map_map. reflexivity.
Qed.

Lemma layout_names (done todo : list Elem) :
  map node_name (layout done todo) = map data_name (done ++ todo)%list.
Proof.
  unfold layout_of. rewrite !map_app, !map_map. reflexivity.
Qed.

Lemma layout_up (done todo : list Elem) (t : nat * string * option string)
    (q : string) :
  els = (done ++ todo)%list ->
  t ∈ layout done todo -> node_up t = Some q ->
  (node_name t, q) ∈ elem_links els /\ parent_set q = true
  /\ q ∈ map data_name els.
Proof.
  intros Hels Ht Hq. unfold layout_of in Ht.
  apply elem_of_app in Ht as [Ht|Ht].
  - apply list_elem_of_In, in_map_iff in Ht as (e & <- & He).
    unfold placed, node_up in Hq. simpl in Hq.
    destruct (parent_set (data_parent e)) eqn:Ep; [|discriminate].
    simpl in Hq. case_bool_decide as Hin; [|discriminate].
    injection Hq as <-. repeat split; try assumption.
    unfold elem_links. apply list_elem_of_In, in_map_iff.
    exists e. split; [reflexivity|]. rewrite Hels. apply in_or_app. left. assumption.
  - apply list_elem_of_In, in_map_iff in Ht as (e & <- & He). discriminate Hq.
Qed.

Lemma layout_move (done todo : list Elem) (e : Elem)
    (l : list (nat * string * option string)) :
  unplaced e :: l ≡ₚ layout done (e :: todo) ->
  placed (map data_name els) e :: l ≡ₚ layout (done ++ [e]) todo.
Proof.
  unfold layout_of. simpl. intros H.
  apply Permutation_cons_app_inv in H.
  rewrite H, map_app. simpl. solve_Permutation.
Qed.

(** One round of the loop: the current element goes below its parent if the
    parent reference is set and names an element, and stays otherwise. *)
Lemma each_body_step (done todo : list Elem) (e : Elem) (f : Forest) (fresh : nat) :
  els = (done ++ e :: todo)%list ->
  nodes None f ≡ₚ layout done (e :: todo) ->
  exists f',
    each_core e ([f], fresh) = Some ([f'], fresh)
    /\ nodes None f' ≡ₚ layout (done ++ [e]) todo.
Proof.
  intros Hels Hp.
  assert (HidL : NoDup (map node_id (layout done (e :: todo)))).
  { rewrite layout_ids, <- Hels. exact els_ids. }
  assert (HnmL : NoDup (map node_name (layout done (e :: todo)))).
  { rewrite layout_names, <- Hels. exact els_names. }
  assert (HeL : unplaced e ∈ layout done (e :: todo)).
  { unfold layout_of. apply elem_of_app. right. left. }
  unfold each_core. rewrite !template_jq_data.
  fold (parent_set (data_parent e)).
  destruct (parent_set (data_parent e)) eqn:Eps.
  2:{ exists f. split; [reflexivity|]. rewrite Hp.
      unfold layout_of. rewrite map_app. simpl. unfold placed. rewrite Eps. simpl.
      fold (unplaced e). rewrite <- app_assoc. reflexivity. }
  unfold find_all. simpl flat_map. rewrite !app_nil_r.
  rewrite (find_named_unique f _ (unplaced e) Hp HnmL HeL
           : find_named (data_name e) f = [el_id e]).
  (* the icon step leaves the nodes as they are *)
  set (secs1 := if existsb _ _ then _ else _).
  assert (Hg : exists g, secs1 = [g] /\ nodes None g = nodes None f).
  { subst secs1. destruct (existsb _ _).
    - exists f. auto.
    - eexists. split; [reflexivity|]. apply nodes_add_icon_under. }
  destruct Hg as (g & -> & Hng).
  destruct (decide (data_parent e ∈ map data_name els)) as [Hin|Hnin].
  2:{ rewrite (find_named_absent f _ (data_parent e) Hp).
      2:{ rewrite layout_names, <- Hels. assumption. }
      simpl. eexists. split; [reflexivity|].
      rewrite nodes_hide_at, Hng, Hp.
      unfold layout_of. rewrite map_app. simpl. unfold placed. rewrite Eps.
      rewrite bool_decide_eq_false_2 by assumption. simpl.
      fold (unplaced e). rewrite <- app_assoc. reflexivity. }
  (* the parent is an element of the menu *)
  assert (Htq : exists tq, tq ∈ layout done (e :: todo)
                           /\ node_name tq = data_parent e).
  { rewrite Hels, <- layout_names in Hin.
    apply list_elem_of_In, in_map_iff in Hin as (tq & Hn & Hq).
    exists tq. split; [apply list_elem_of_In|]; assumption. }
  destruct Htq as (tq & HtqL & Hnq).
  assert (Hfq : find_named (data_parent e) f = [node_id tq]).
  { rewrite <- Hnq. exact (find_named_unique f _ tq Hp HnmL HtqL). }
  rewrite Hfq. clear Hfq.
  set (i := el_id e). set (j := node_id tq).
  assert (Hndg : NoDup (map node_id (nodes None g))).
  { rewrite Hng, Hp. exact HidL. }
  assert (Hig : has_id i g = true).
  { apply (has_id_nodes _ None). rewrite Hng, Hp.
    apply list_elem_of_In. change i with (node_id (unplaced e)).
    apply in_map, list_elem_of_In. exact HeL. }
  destruct (detach_one i None g Hndg Hig) as (e' & k & rest & u & Hd & Hid & Hpg).
  rewrite Hng, Hp in Hpg.
  assert (He' : (i, data_name e', u) = unplaced e).
  { apply (node_by_id (layout done (e :: todo))); try assumption; [|reflexivity].
    rewrite Hpg. left. }
  injection He' as Hn' ->. rewrite Hn' in Hpg.
  change (i, data_name e, None) with (unplaced e) in Hpg.
  (* the parent is still in the tree *)
  assert (Hanc : ancestor parent_set (elem_links els) (data_name e) (data_parent e)).
  { apply ancestor_parent; [|assumption].
    unfold elem_links. apply list_elem_of_In, in_map_iff. exists e.
    split; [reflexivity|]. rewrite Hels. apply in_or_app. right. left. reflexivity. }
  assert (Hjr : tq ∈ nodes None rest).
  { pose proof HtqL as H. rewrite Hpg in H.
    apply elem_of_cons in H as [H|H].
    - exfalso. apply (els_acyclic (data_name e)).
      rewrite H in Hnq. simpl in Hnq. rewrite Hnq at 2. exact Hanc.
    - apply elem_of_app in H as [H|H]; [|assumption].
      exfalso. apply (els_acyclic (data_name e)).
      eapply ancestor_trans; [exact Hanc|]. rewrite <- Hnq.
      apply (subtree_descends _ _ _ k); [|assumption].
      intros t q Ht Hq.
      destruct (layout_up done (e :: todo) t q Hels) as (Hl & Hs & _);
        [rewrite Hpg; right; apply elem_of_app; left; assumption | assumption |].
      apply ancestor_parent; assumption. }
  assert (Hndr : NoDup (map node_id (nodes None rest))).
  { rewrite Hpg in HidL. simpl in HidL.
    apply NoDup_cons in HidL as [_ HidL]. rewrite map_app in HidL.
    apply NoDup_app in HidL as (_ & _ & HidL). exact HidL. }
  assert (Hjrest : has_id j rest = true).
  { apply (has_id_nodes _ None). apply list_elem_of_In, in_map, list_elem_of_In.
    exact Hjr. }
  destruct (insert_at_one j (FNode e' k FNil) None rest Hndr Hjrest)
    as (q & uq & Hq & Hpi).
  assert (Hqq : (j, q, uq) = tq).
  { apply (node_by_id (layout done (e :: todo))); try assumption; [|reflexivity].
    rewrite Hpg. right. apply elem_of_app. right. assumption. }
  assert (Eq : q = data_parent e) by (rewrite <- Hnq, <- Hqq; reflexivity).
  subst q.
  (* run the move *)
  simpl appendTo. unfold detach_all. simpl. rewrite Hd. simpl.
  rewrite Hjrest. simpl.
  eexists. split; [reflexivity|].
  rewrite nodes_hide_at, Hpi. simpl. rewrite app_nil_r, Hn'.
  rewrite <- (layout_move done todo e
                (nodes (Some (data_name e)) k ++ nodes None rest)%list)
    by (symmetry; exact Hpg).
  unfold placed. rewrite Eps, bool_decide_eq_true_2 by assumption. simpl.
  fold i. rewrite Hid. solve_Permutation.
Qed.

(** The whole loop. *)
Lemma each_places (todo : list Elem) :
  forall (done : list Elem) (f : Forest) (fresh : nat),
    els = (done ++ todo)%list ->
    nodes None f ≡ₚ layout done todo ->
    exists f',
      each each_core todo ([f], fresh) = Some ([f'], fresh)
      /\ nodes None f' ≡ₚ map (placed (map data_name els)) els.
Proof.
  induction todo as [|e todo IH]; intros done f fresh Hels Hp.
  - exists f. split; [reflexivity|].
    rewrite Hp. unfold layout_of. simpl. rewrite app_nil_r in Hels |- *.
    rewrite <- Hels. reflexivity.
  - destruct (each_body_step done todo e f fresh Hels Hp) as (f1 & Hb & Hp1).
    destruct (IH (done ++ [e])%list f1 fresh) as (f' & He & Hp').
    + rewrite <- app_assoc. exact Hels.
    + exact Hp1.
    + exists f'. split; [|exact Hp']. cbn [each]. rewrite Hb. exact He.
Qed.

End Reparent.

(** ** The two loops and their core *)

Lemma plain_no_backslash (s : string) (esc : bool) :
  plain s = true -> ends_escaped esc s = match s with EmptyString => esc | _ => false end.
Proof.
  revert esc. induction s as [|c r IH]; intros esc; simpl; [reflexivity|].
  intros H. apply andb_true_iff in H as [Hc Hr].
  assert (Hb : (nat_of_ascii c =? 92)%nat = false).
  { unfold plain_char in Hc. apply andb_true_iff in Hc as [_ Hc].
    apply negb_true_iff in Hc. exact Hc. }
  rewrite Hb. destruct esc; rewrite (IH _ Hr); destruct r; reflexivity.
Qed.

Lemma plain_selector_ok (s : string) : plain s = true -> selector_error s = false.
Proof.
  intros H. unfold selector_error. rewrite (plain_no_backslash s false H).
  destruct s; [apply andb_false_r | apply andb_false_r].
Qed.

Lemma data_modelled_plain (s : string) : data_modelled s = true -> plain s = true.
Proof.
  unfold data_modelled. intros H.
  apply andb_true_iff in H as [H _]. apply andb_true_iff in H as [H _]. exact H.
Qed.

Lemma list_body_unfold (e : Elem) (st : list Forest * nat) :
  ListSidebar.each_body e st
  = if selector_error (data_name e) then None
    else if parent_set (data_parent e) && selector_error (data_parent e) then None
    else each_core e st.
Proof.
  destruct st as [secs fresh].
  unfold ListSidebar.each_body, each_core, jq_find, parent_set.
  rewrite !template_jq_data.
  destruct (selector_error (data_name e)); [reflexivity|].
  destruct (truthy (jq_data (data_parent e))); [|reflexivity].
  destruct (selector_error (data_parent e)); reflexivity.
Qed.

Lemma form_body_unfold (e : Elem) (st : list Forest * nat) :
  FormSidebar.each_body e st
  = if parent_set (data_parent e)
       && (selector_error (data_name e) || selector_error (data_parent e))
    then None
    else each_core e st.
Proof.
  destruct st as [secs fresh].
  unfold FormSidebar.each_body, each_core, jq_find, parent_set.
  rewrite !template_jq_data.
  destruct (truthy (jq_data (data_parent e))); [|reflexivity].
  destruct (selector_error (data_name e)); [reflexivity|].
  destruct (selector_error (data_parent e)); reflexivity.
Qed.

(** Where the list sidebar's loop body returns, the form sidebar's returns
    the same, and both are the core. *)
Lemma list_body_form (e : Elem) (st st' : list Forest * nat) :
  ListSidebar.each_body e st = Some st' -> FormSidebar.each_body e st = Some st'.
Proof.
  rewrite list_body_unfold, form_body_unfold.
  destruct (selector_error (data_name e)); [discriminate|].
  destruct (parent_set (data_parent e) && selector_error (data_parent e)) eqn:E;
    [discriminate|].
  simpl. rewrite E. auto.
Qed.

Lemma form_body_core (e : Elem) (st st' : list Forest * nat) :
  FormSidebar.each_body e st = Some st' -> each_core e st = Some st'.
Proof.
  rewrite form_body_unfold. destruct (_ && _); [discriminate | auto].
Qed.

Lemma list_body_core (e : Elem) (st st' : list Forest * nat) :
  ListSidebar.each_body e st = Some st' -> each_core e st = Some st'.
Proof. intros H. apply form_body_core, list_body_form, H. Qed.

Lemma body_core_list (e : Elem) (st : list Forest * nat) :
  keys_ok e -> ListSidebar.each_body e st = each_core e st.
Proof.
  intros [Hn Hq]. rewrite list_body_unfold, Hn, Hq, andb_false_r. reflexivity.
Qed.

Lemma body_core_form (e : Elem) (st : list Forest * nat) :
  keys_ok e -> FormSidebar.each_body e st = each_core e st.
Proof.
  intros [Hn Hq]. rewrite form_body_unfold, Hn, Hq, andb_false_r. reflexivity.
Qed.

Lemma each_impl {A : Type} (b1 b2 : Elem -> A -> option A) (l : list Elem) :
  (forall e x y, b1 e x = Some y -> b2 e x = Some y) ->
  forall a r, each b1 l a = Some r -> each b2 l a = Some r.
Proof.
  intros Hb. induction l as [|e l IH]; intros a r; simpl; [auto|].
  destruct (b1 e a) as [a'|] eqn:E; [|discriminate].
  rewrite (Hb _ _ _ E). apply IH.
Qed.

Lemma each_ext_in {A : Type} (b1 b2 : Elem -> A -> option A) (l : list Elem) :
  Forall (fun e => forall x, b1 e x = b2 e x) l ->
  forall a, each b1 l a = each b2 l a.
Proof.
  induction 1 as [|e l He _ IH]; intros a; simpl; [reflexivity|].
  rewrite He. destruct (b2 e a); auto.
Qed.

(** A build of either sidebar that returns is a run of the core. *)
Lemma list_build_core (pages : list PageItem) (s s' : Sidebar) :
  ListSidebar.make_sidebar_menu pages s = Some s' -> build_core pages s = Some s'.
Proof.
  unfold ListSidebar.make_sidebar_menu, build_core.
  destruct (forallb renders pages); [|discriminate].
  destruct (each ListSidebar.each_body _ _) as [[secs fresh]|] eqn:He; [|discriminate].
  rewrite (each_impl _ _ _ list_body_core _ _ He). auto.
Qed.

Lemma form_build_core (pages : list PageItem) (s s' : Sidebar) :
  FormSidebar.make_sidebar_menu pages s = Some s' ->
  exists r, build_core pages s = Some r
            /\ sections r = sections s' /\ next_id r = next_id s'.
Proof.
  unfold FormSidebar.make_sidebar_menu, build_core.
  destruct (forallb renders pages); [|discriminate].
  destruct (each FormSidebar.each_body _ _) as [[secs fresh]|] eqn:He; [|discriminate].
  rewrite (each_impl _ _ _ form_body_core _ _ He).
  intros [= <-]. eexists. split; [reflexivity|]. split; reflexivity.
Qed.

Lemma list_build_form (pages : list PageItem) (s s' : Sidebar) :
  ListSidebar.make_sidebar_menu pages s = Some s' ->
  exists r, FormSidebar.make_sidebar_menu pages s = Some r
            /\ sections r = sections s' /\ next_id r = next_id s'.
Proof.
  unfold ListSidebar.make_sidebar_menu, FormSidebar.make_sidebar_menu.
  destruct (forallb renders pages); [|discriminate].
  destruct (each ListSidebar.each_body _ _) as [[secs fresh]|] eqn:He; [|discriminate].
  rewrite (each_impl _ _ _ list_body_form _ _ He).
  intros [= <-]. eexists. split; [reflexivity|]. split; reflexivity.
Qed.

(** With the template returning and every selector accepted, both builds
    are the core. *)
Lemma build_core_list (pages : list PageItem) (s : Sidebar) :
  forallb renders pages = true ->
  Forall keys_ok (label_items (sections (append_menu pages s))) ->
  ListSidebar.make_sidebar_menu pages s = build_core pages s.
Proof.
  intros Hr Hk. unfold ListSidebar.make_sidebar_menu, build_core. rewrite Hr.
  rewrite (each_ext_in ListSidebar.each_body each_core); [reflexivity|].
  eapply Forall_impl; [exact Hk|]. intros e He x. apply body_core_list, He.
Qed.

Lemma build_core_form (pages : list PageItem) (s : Sidebar) :
  forallb renders pages = true ->
  Forall keys_ok (label_items (sections (append_menu pages s))) ->
  option_map (fun r => (sections r, next_id r)) (FormSidebar.make_sidebar_menu pages s)
  = option_map (fun r => (sections r, next_id r)) (build_core pages s).
Proof.
  intros Hr Hk. unfold FormSidebar.make_sidebar_menu, build_core. rewrite Hr.
  rewrite (each_ext_in FormSidebar.each_body each_core).
  - destruct (each each_core _ _) as [[secs fresh]|]; reflexivity.
  - eapply Forall_impl; [exact Hk|]. intros e He x. apply body_core_form, He.
Qed.

Lemma modelled_renders (pages : list PageItem) :
  forallb page_modelled pages = true -> forallb renders pages = true.
Proof.
  rewrite !forallb_forall. intros H p Hp. specialize (H p Hp).
  unfold page_modelled in H. repeat (apply andb_true_iff in H as [H _]). exact H.
Qed.

Lemma page_modelled_texts (p : PageItem) :
  page_modelled p = true ->
  data_modelled (name_text p) = true /\ data_modelled (parent_text p) = true.
Proof.
  unfold page_modelled. intros H.
  repeat (apply andb_true_iff in H as [H ?]). auto.
Qed.

(** ** The rendered menu *)

Lemma tops_render_flat (i : nat) (pages : list PageItem) :
  tops (render_flat i pages) = rendered i pages.
Proof.
  revert i. induction pages as [|p ps IH]; intros i; simpl;
    [reflexivity | rewrite IH; reflexivity].
Qed.

Lemma nodes_render_flat (i : nat) (pages : list PageItem) :
  nodes None (render_flat i pages) = map unplaced (rendered i pages).
Proof.
  revert i. induction pages as [|p ps IH]; intros i; simpl;
    [reflexivity | rewrite IH; reflexivity].
Qed.

Lemma rendered_ids (i : nat) (pages : list PageItem) :
  map el_id (rendered i pages) = seq i (length pages).
Proof.
  revert i. induction pages as [|p ps IH]; intros i; simpl;
    [reflexivity | rewrite IH; reflexivity].
Qed.

Lemma rendered_names (i : nat) (pages : list PageItem) :
  map data_name (rendered i pages) = map name_text pages.
Proof.
  revert i. induction pages as [|p ps IH]; intros i; simpl;
    [reflexivity | rewrite IH; reflexivity].
Qed.

Lemma rendered_links (i : nat) (pages : list PageItem) :
  elem_links (rendered i pages) = page_links pages.
Proof.
  revert i. induction pages as [|p ps IH]; intros i; simpl;
    [reflexivity | rewrite IH; reflexivity].
Qed.

Lemma rendered_placed (names : list string) (i : nat) (pages : list PageItem)
    (p : PageItem) :
  p ∈ pages ->
  exists j, (j, name_text p,
             if parent_set (parent_text p) && bool_decide (parent_text p ∈ names)
             then Some (parent_text p) else None)
            ∈ map (placed names) (rendered i pages).
Proof.
  revert i. induction pages as [|a ps IH]; intros i Hin; [inversion Hin|].
  apply elem_of_cons in Hin as [->|Hin].
  - exists i. left.
  - destruct (IH (S i) Hin) as (j & Hj). exists j. right. exact Hj.
Qed.

Lemma elems_names (up : option string) (f : Forest) :
  map data_name (elems f) = map node_name (nodes up f).
Proof.
  revert up. induction f as [|e k IHk n IHn]; intros up; simpl; [reflexivity|].
  rewrite !map_app, (IHk (Some (data_name e))), (IHn up). reflexivity.
Qed.

(** The core of the builder on a sidebar without sections: for distinct
    names and parent references that do not run in a circle it returns, and
    the one section holds every rendered element, each below the element its
    parent reference names. *)
Lemma core_layout (pages : list PageItem) (b i : nat) :
  NoDup (map name_text pages) ->
  acyclic parent_set (page_links pages) ->
  exists f,
    build_core pages (mkSidebar [] b i)
    = Some (mkSidebar [f] (S b) (i + length pages))
    /\ nodes None f ≡ₚ map (placed (map name_text pages)) (rendered i pages).
Proof.
  intros Hnd Hac.
  unfold build_core, append_menu, label_items. simpl.
  rewrite app_nil_r, tops_render_flat.
  destruct (each_places (rendered i pages)) with
    (todo := rendered i pages) (done := @nil Elem)
    (f := render_flat i pages) (fresh := i + length pages)
    as (f' & He & Hp).
  - rewrite rendered_ids. apply NoDup_ListNoDup, List.seq_NoDup.
  - rewrite rendered_names. exact Hnd.
  - rewrite rendered_links. exact Hac.
  - reflexivity.
  - rewrite nodes_render_flat. reflexivity.
  - rewrite He. eexists. split; [reflexivity|].
    rewrite nodes_bind_under, Hp, rendered_names. reflexivity.
Qed.

Lemma modelled_keys_ok (pages : list PageItem) (i : nat) :
  forallb page_modelled pages = true -> Forall keys_ok (rendered i pages).
Proof.
  revert i. induction pages as [|p ps IH]; intros i; simpl; [constructor|].
  intros H. apply andb_true_iff in H as [Hp Hps].
  constructor; [|apply IH, Hps].
  destruct (page_modelled_texts p Hp) as [Hn Hq].
  split; apply plain_selector_ok, data_modelled_plain; assumption.
Qed.

Lemma modelled_label_items (pages : list PageItem) (b i : nat) :
  forallb page_modelled pages = true ->
  Forall keys_ok (label_items (sections (append_menu pages (mkSidebar [] b i)))).
Proof.
  intros H. unfold append_menu, label_items. simpl.
  rewrite app_nil_r, tops_render_flat. apply modelled_keys_ok, H.
Qed.

(** The list sidebar's builder on a sidebar without sections, for pages of
    the model with distinct names and no circular parent references. *)
Lemma build_layout (pages : list PageItem) (b i : nat) :
  forallb page_modelled pages = true ->
  NoDup (map name_text pages) ->
  acyclic parent_set (page_links pages) ->
  exists f,
    ListSidebar.make_sidebar_menu pages (mkSidebar [] b i)
    = Some (mkSidebar [f] (S b) (i + length pages))
    /\ nodes None f ≡ₚ map (placed (map name_text pages)) (rendered i pages).
Proof.
  intros Hm Hnd Hac.
  rewrite (build_core_list pages _ (modelled_renders _ Hm)
             (modelled_label_items pages b i Hm)).
  apply core_layout; assumption.
Qed.

Lemma modelled_builds (pages : list PageItem) (b i : nat) :
  forallb page_modelled pages = true ->
  ListSidebar.make_sidebar_menu pages (mkSidebar [] b i)
  = build_core pages (mkSidebar [] b i)
  /\ option_map sections (FormSidebar.make_sidebar_menu pages (mkSidebar [] b i))
     = option_map sections (build_core pages (mkSidebar [] b i)).
Proof.
  intros Hm.
  pose proof (modelled_renders _ Hm) as Hr.
  pose proof (modelled_label_items pages b i Hm) as Hk.
  split; [apply build_core_list; assumption|].
  pose proof (build_core_form pages _ Hr Hk) as H.
  destruct (FormSidebar.make_sidebar_menu pages _),
           (build_core pages _); simpl in *; congruence.
Qed.

(** Parent references that strictly decrease a rank cannot run in a circle. *)
Lemma acyclic_by_rank (is_set : string -> bool) (links : list (string * string))
    (rank : string -> nat) :
  (forall n q, (n, q) ∈ links -> is_set q = true -> rank q < rank n) ->
  acyclic is_set links.
Proof.
  intros Hr.
  assert (H : forall a b, ancestor is_set links a b -> rank b < rank a).
  { induction 1 as [n q Hin Hs|a b c _ IH1 _ IH2]; [auto | lia]. }
  intros n Hn. apply H in Hn. lia.
Qed.

(** ** C1: every item once, below its parent *)

(** C1 on the code: the titles "0" and "B" are distinct, the parent
    reference "0" of "B" is the title of the other item and nothing runs in
    a circle, but jQuery reads [data-parent="0"] back as the number 0, the
    test [if (itemparent)] fails and "B" stays in the section instead of
    going below "0". *)
Theorem parent_zero_stays_at_top :
  let pages := [sample_page "0" ""; sample_page "B" "0"] in
  NoDup (map name_text pages)
  /\ well_formed_parents pages
  /\ acyclic parent_nonempty (page_links pages)
  /\ exists s f,
       ListSidebar.make_sidebar_menu pages empty_sidebar = Some s
       /\ sections s = [f]
       /\ at_top f "B"
       /\ ~ nested_under f "B" "0".
Proof.
  intros pages. split; [|split; [|split]].
  - apply (bool_decide_unpack _). vm_compute. exact I.
  - intros p Hp. apply elem_of_cons in Hp as [->|Hp]; [left; reflexivity|].
    apply list_elem_of_singleton in Hp as ->. right.
    exists (sample_page "0" ""). split; [left | split; [discriminate | reflexivity]].
  - apply (acyclic_by_rank _ _ (fun s => if bool_decide (s = "0") then 0 else 1)).
    intros n q Hin Hq. vm_compute in Hin.
    apply elem_of_cons in Hin as [Hin|Hin]; [injection Hin as -> ->; discriminate Hq|].
    apply list_elem_of_singleton in Hin. injection Hin as -> ->.
    vm_compute. lia.
  - eexists _, _. split; [vm_compute; reflexivity|]. split; [reflexivity|]. split.
    + exists 1. vm_compute. right. left.
    + intros (i & Hi). vm_compute in Hi.
      apply elem_of_cons in Hi as [Hi|Hi]; [discriminate Hi|].
      apply list_elem_of_singleton in Hi. discriminate Hi.
Qed.

Lemma placed_names (names : list string) (l : list Elem) :
  map node_name (map (placed names) l) = map data_name l.
Proof. rewrite map_map. reflexivity. Qed.

(** ** C5: an item whose parent is not in the menu *)




(** ** C8: a missing title *)

(** C8: there is a menu with an item whose title is missing for which the
    build throws when the missing title is used as a selector key.  The
    template writes the missing title and the missing parent reference both
    as "undefined" (a [custom_link] keeps [slug] away from the title); the
    selector [[data-name="undefined"]] then finds the item as its own
    parent, and appending the item to its own nested container throws, in
    both sidebars. *)
Theorem missing_title_can_throw :
  exists pages p,
    p ∈ pages /\ title p = JUndefined
    /\ forallb renders pages = true
    /\ jq_find (name_text p) [render_flat 0 pages] = Some [0]
    /\ ListSidebar.make_sidebar_menu pages empty_sidebar = None
    /\ FormSidebar.make_sidebar_menu pages empty_sidebar = None.
Proof.
  exists [mkPage JUndefined JUndefined (JNum "1") JUndefined JUndefined
                 (JStr "home") JUndefined],
         (mkPage JUndefined JUndefined (JNum "1") JUndefined JUndefined
                 (JStr "home") JUndefined).
  split; [left|]. split; [reflexivity|].
  repeat split; vm_compute; reflexivity.
Qed.

(** ** C2: the build hides every nested container *)

Lemma all_hidden_fapp (f g : Forest) :
  all_hidden (fapp f g) = all_hidden f && all_hidden g.
Proof.
  induction f as [|e k _ n IH]; simpl; [reflexivity|].
  rewrite IH, !andb_assoc. reflexivity.
Qed.

Lemma all_hidden_add_icon_under (b : bool) (key : string) (ic : DropIcon)
    (f : Forest) :
  all_hidden (add_icon_under b key ic f) = all_hidden f.
Proof.
  revert b. induction f as [|e k IHk n IHn]; intros b; simpl; [reflexivity|].
  rewrite IHk, IHn. destruct (b || named key e); reflexivity.
Qed.

Lemma all_hidden_bind_under (b : bool) (roots : list nat) (f : Forest) :
  all_hidden (bind_under b roots f) = all_hidden f.
Proof.
  revert b. induction f as [|e k IHk n IHn]; intros b; simpl; [reflexivity|].
  rewrite IHk, IHn. destruct (b || mem (el_id e) roots); [|reflexivity].
  unfold add_handler. destruct (drop_icon e); reflexivity.
Qed.

Lemma all_hidden_hide_at (ids : list nat) (f : Forest) :
  all_hidden f = true -> all_hidden (hide_at ids f) = true.
Proof.
  induction f as [|e k IHk n IHn]; simpl; [reflexivity|].
  rewrite !andb_true_iff. intros [[He Hk] Hn].
  rewrite (IHk Hk), (IHn Hn). destruct (mem (el_id e) ids); simpl; auto.
Qed.

Lemma all_hidden_detach (ids : list nat) (f : Forest) :
  all_hidden f = true ->
  all_hidden (fst (detach ids f)) = true /\ all_hidden (snd (detach ids f)) = true.
Proof.
  induction f as [|e k IHk n IHn]; simpl; [auto|].
  rewrite !andb_true_iff. intros [[He Hk] Hn].
  destruct (IHk Hk) as [Hk1 Hk2]. destruct (IHn Hn) as [Hn1 Hn2].
  destruct (detach ids k) as [k' fk], (detach ids n) as [n' fn]. simpl in *.
  destruct (mem (el_id e) ids); simpl;
    rewrite ?all_hidden_fapp, ?He, ?Hk1, ?Hk2, ?Hn1, ?Hn2; auto.
Qed.

Lemma all_hidden_insert_at (t : nat) (frag f : Forest) :
  all_hidden frag = true -> all_hidden f = true ->
  all_hidden (insert_at t frag f) = true.
Proof.
  intros Hfrag. induction f as [|e k IHk n IHn]; simpl; [reflexivity|].
  rewrite !andb_true_iff. intros [[He Hk] Hn].
  destruct (Nat.eqb (el_id e) t); simpl;
    rewrite ?all_hidden_fapp, ?He, ?Hk, ?Hfrag, ?(IHk Hk), ?(IHn Hn); auto.
Qed.

Lemma all_hidden_copies (ids : list nat) (f : Forest) :
  all_hidden f = true -> all_hidden (copies ids f) = true.
Proof.
  induction f as [|e k IHk n IHn]; simpl; [reflexivity|].
  rewrite !andb_true_iff. intros [[He Hk] Hn].
  rewrite !all_hidden_fapp, (IHk Hk), (IHn Hn).
  destruct (mem (el_id e) ids); simpl; rewrite ?He, ?Hk; reflexivity.
Qed.

Lemma all_hidden_renumber (i : nat) (f : Forest) :
  all_hidden (fst (renumber i f)) = all_hidden f.
Proof.
  revert i. induction f as [|e k IHk n IHn]; intros i; simpl; [reflexivity|].
  specialize (IHk (S i)). destruct (renumber (S i) k) as [k' i1].
  specialize (IHn i1). destruct (renumber i1 n) as [n' i2].
  simpl in *. rewrite IHk, IHn. reflexivity.
Qed.

Lemma all_hidden_sections_map (g : Forest -> Forest) (secs : list Forest) :
  (forall f, all_hidden f = true -> all_hidden (g f) = true) ->
  forallb all_hidden secs = true -> forallb all_hidden (map g secs) = true.
Proof.
  intros Hg. induction secs as [|f secs IH]; simpl; [reflexivity|].
  rewrite !andb_true_iff. intros [Hf Hs]. auto.
Qed.

Lemma all_hidden_detach_all (ids : list nat) (secs : list Forest) :
  forallb all_hidden secs = true ->
  forallb all_hidden (fst (detach_all ids secs)) = true
  /\ all_hidden (snd (detach_all ids secs)) = true.
Proof.
  unfold detach_all. simpl. induction secs as [|f secs IH]; simpl; [auto|].
  rewrite !andb_true_iff. intros [Hf Hs].
  destruct (IH Hs) as [H1 H2]. destruct (all_hidden_detach ids f Hf) as [H3 H4].
  rewrite all_hidden_fapp, H1, H2, H3, H4. auto.
Qed.

Lemma all_hidden_copies_all (ids : list nat) (secs : list Forest) :
  forallb all_hidden secs = true -> all_hidden (copies_all ids secs) = true.
Proof.
  unfold copies_all. induction secs as [|f secs IH]; simpl; [reflexivity|].
  rewrite !andb_true_iff. intros [Hf Hs].
  rewrite all_hidden_fapp, (all_hidden_copies ids f Hf), (IH Hs). reflexivity.
Qed.

Lemma all_hidden_appendTo (sources targets : list nat) :
  forall (secs : list Forest) (fresh : nat) (secs' : list Forest) (fresh' : nat),
    forallb all_hidden secs = true ->
    appendTo sources targets secs fresh = Some (secs', fresh') ->
    forallb all_hidden secs' = true.
Proof.
  induction targets as [|t ts IH]; intros secs fresh secs' fresh' Hs Ha.
  - simpl in Ha. injection Ha as <- <-. exact Hs.
  - destruct ts as [|t2 ts].
    + cbn [appendTo] in Ha.
      destruct (all_hidden_detach_all sources secs Hs) as [H1 H2].
      destruct (detach_all sources secs) as [rest frag]. cbn [fst snd] in H1, H2.
      destruct frag as [|e k n]; [injection Ha as <- <-; exact Hs|].
      destruct (existsb (has_id t) rest); [|discriminate].
      injection Ha as <- <-.
      apply all_hidden_sections_map; [|exact H1].
      intros f Hf. apply all_hidden_insert_at; assumption.
    + cbn [appendTo] in Ha.
      pose proof (all_hidden_renumber fresh (copies_all sources secs)) as Hr.
      rewrite (all_hidden_copies_all sources secs Hs) in Hr.
      destruct (renumber fresh (copies_all sources secs)) as [clones fresh1].
      simpl in Hr.
      apply (IH _ _ _ _ (all_hidden_sections_map (insert_at t clones) secs
                           (fun f Hf => all_hidden_insert_at t clones f Hr Hf) Hs) Ha).
Qed.

Lemma all_hidden_render_flat (i : nat) (pages : list PageItem) :
  all_hidden (render_flat i pages) = true.
Proof.
  revert i. induction pages as [|p ps IH]; intros i; simpl; auto.
Qed.

Lemma all_hidden_each_body (e : Elem) (secs secs' : list Forest) (fresh fresh' : nat) :
  forallb all_hidden secs = true ->
  each_core e (secs, fresh) = Some (secs', fresh') ->
  forallb all_hidden secs' = true.
Proof.
  intros Hs. unfold each_core.
  destruct (truthy (jq_data (data_parent e))); [|intros [= <- <-]; exact Hs].
  set (secs1 := if existsb _ secs then secs else _).
  assert (H1 : forallb all_hidden secs1 = true).
  { subst secs1. destruct (existsb _ secs); [exact Hs|].
    apply all_hidden_sections_map; [|exact Hs].
    intros f Hf. rewrite all_hidden_add_icon_under. exact Hf. }
  destruct (appendTo _ _ secs1 fresh) as [[secs2 fresh2]|] eqn:Ea; [|discriminate].
  intros [= <- <-].
  apply all_hidden_sections_map; [apply all_hidden_hide_at|].
  exact (all_hidden_appendTo _ _ _ _ _ _ H1 Ea).
Qed.

Lemma all_hidden_each (l : list Elem) :
  forall (secs secs' : list Forest) (fresh fresh' : nat),
    forallb all_hidden secs = true ->
    each each_core l (secs, fresh) = Some (secs', fresh') ->
    forallb all_hidden secs' = true.
Proof.
  induction l as [|e l IH]; intros secs secs' fresh fresh' Hs He.
  - injection He as <- <-. exact Hs.
  - cbn [each] in He.
    destruct (each_core e (secs, fresh)) as [[secs1 fresh1]|] eqn:Eb;
      [|discriminate].
    exact (IH _ _ _ _ (all_hidden_each_body _ _ _ _ _ Hs Eb) He).
Qed.

(** Whatever is stored, a build on a sidebar whose nested containers are
    hidden returns a sidebar whose nested containers are all hidden. *)
Lemma build_hides_everything (pages : list PageItem) (s s' : Sidebar) :
  forallb all_hidden (sections s) = true ->
  ListSidebar.make_sidebar_menu pages s = Some s' ->
  forallb all_hidden (sections s') = true.
Proof.
  intros Hs Hb. apply list_build_core in Hb. revert Hb. unfold build_core.
  destruct (each _ _ _) as [[secs fresh]|] eqn:He; [|discriminate].
  intros [= <-]. simpl.
  apply all_hidden_sections_map;
    [intros f Hf; rewrite all_hidden_bind_under; exact Hf|].
  apply (all_hidden_each _ _ _ _ _) with (2 := He).
  unfold append_menu. simpl. rewrite forallb_app, Hs. simpl.
  rewrite all_hidden_render_flat. reflexivity.
Qed.

(** C2 on the code: with "X" stored as expanded, the menu built for "X" and
    its child "Y" has the nested container of "X" hidden all the same; the
    build never looks at the stored state. *)
Theorem stored_expansion_ignored (arr : list JsVal) :
  let v := loaded_view [sample_page "X" ""; sample_page "Y" "X"] (JStr "X" :: arr) in
  JStr "X" ∈ expansion_state v
  /\ nested_under (default FNil (head (dom v))) "Y" "X"
  /\ option_map hidden (lookup_all 0 (dom v)) = Some true
  /\ forallb all_hidden (dom v) = true.
Proof.
  intros v. split; [|split; [|split]].
  - unfold v, expansion_state, loaded_view, get_array. simpl.
    rewrite lookup_insert_eq. simpl. left.
  - exists 1. vm_compute. right. left.
  - reflexivity.
  - reflexivity.
Qed.

(** ** C4: what a click toggles *)

(** C4 on the code: in the menu A > B > C a click on the toggle of B flips
    the nested containers of A and of C together with that of B. *)
Theorem click_toggles_whole_tree :
  let v := loaded_view [sample_page "A" ""; sample_page "B" "A"; sample_page "C" "B"] [] in
  exists v',
    ListSidebar.on_click 1 v = Some v'
    /\ map (fun x => option_map hidden (lookup_all x (dom v))) [0; 1; 2]
       = [Some true; Some true; Some true]
    /\ map (fun x => option_map hidden (lookup_all x (dom v'))) [0; 1; 2]
       = [Some false; Some false; Some false]
    /\ expansion_state v' = [JStr "B"].
Proof.
  intros v. eexists. split; [vm_compute; reflexivity|].
  split; [|split]; vm_compute; reflexivity.
Qed.

(** ** C10: the two sidebars *)

Lemma each_ext {A : Type} (b1 b2 : Elem -> A -> option A) (l : list Elem) (a : A) :
  (forall e x, b1 e x = b2 e x) -> each b1 l a = each b2 l a.
Proof.
  intros Hb. revert a. induction l as [|e l IH]; intros a; simpl; [reflexivity|].
  rewrite Hb. destruct (b2 e a); auto.
Qed.

(** With the item's own selector accepted the two loop bodies are the
    same. *)
Lemma each_body_same (e : Elem) (st : list Forest * nat) :
  selector_error (data_name e) = false ->
  ListSidebar.each_body e st = FormSidebar.each_body e st.
Proof.
  intros Hn. rewrite list_body_unfold, form_body_unfold, Hn. reflexivity.
Qed.

Lemma label_items_append_menu (pages : list PageItem) (s : Sidebar) :
  label_items (sections (append_menu pages s))
  = (label_items (sections s) ++ rendered (next_id s) pages)%list.
Proof.
  unfold label_items, append_menu. simpl.
  rewrite flat_map_app. simpl. rewrite app_nil_r, tops_render_flat. reflexivity.
Qed.

Lemma rendered_plain_names (i : nat) (pages : list PageItem) :
  Forall (fun p => plain (name_text p) = true) pages ->
  Forall (fun e => plain (data_name e) = true) (rendered i pages).
Proof.
  intros H. revert i. induction H as [|p ps Hp _ IH]; intros i; simpl;
    constructor; [exact Hp | apply IH].
Qed.




(** ** C6: building twice *)

Lemma appendTo_length (sources targets : list nat) :
  forall (secs : list Forest) (fresh : nat) (secs' : list Forest) (fresh' : nat),
    appendTo sources targets secs fresh = Some (secs', fresh') ->
    length secs' = length secs.
Proof.
  induction targets as [|t ts IH]; intros secs fresh secs' fresh' Ha.
  - injection Ha as <- <-. reflexivity.
  - destruct ts as [|t2 ts].
    + cbn [appendTo] in Ha. unfold detach_all in Ha.
      destruct (fold_right _ _ _); [injection Ha as <- <-; reflexivity|].
      destruct (existsb _ _); [|discriminate].
      injection Ha as <- <-. rewrite !length_map. reflexivity.
    + cbn [appendTo] in Ha.
      destruct (renumber fresh (copies_all sources secs)) as [clones fresh1].
      apply IH in Ha. rewrite Ha, length_map. reflexivity.
Qed.

Lemma each_length (l : list Elem) :
  forall (secs secs' : list Forest) (fresh fresh' : nat),
    each each_core l (secs, fresh) = Some (secs', fresh') ->
    length secs' = length secs.
Proof.
  induction l as [|e l IH]; intros secs secs' fresh fresh' He.
  - injection He as <- <-. reflexivity.
  - cbn [each] in He.
    destruct (each_core e (secs, fresh)) as [[secs1 fresh1]|] eqn:Eb;
      [|discriminate].
    rewrite (IH _ _ _ _ He). clear He IH.
    unfold each_core in Eb.
    destruct (truthy _); [|injection Eb as <- <-; reflexivity].
    destruct (appendTo _ _ _ _) as [[secs2 fresh2]|] eqn:Ea; [|discriminate].
    injection Eb as <- <-. rewrite length_map.
    rewrite (appendTo_length _ _ _ _ _ _ Ea).
    destruct (existsb _ _); [reflexivity | apply length_map].
Qed.

Lemma build_adds_one_section (pages : list PageItem) (s s' : Sidebar) :
  ListSidebar.make_sidebar_menu pages s = Some s' ->
  length (sections s') = S (length (sections s)).
Proof.
  intros Hb. apply list_build_core in Hb. revert Hb. unfold build_core.
  destruct (each _ _ _) as [[secs fresh]|] eqn:He; [|discriminate].
  intros [= <-]. simpl. rewrite length_map, (each_length _ _ _ _ _ He).
  unfold append_menu. simpl. rewrite length_app. simpl. lia.
Qed.

Lemma each_flat (l : list Elem) (st : list Forest * nat) :
  Forall (fun e => selector_error (data_name e) = false
                   /\ parent_set (data_parent e) = false) l ->
  each ListSidebar.each_body l st = Some st.
Proof.
  induction 1 as [|e l [Hn Hq] _ IH]; simpl; [reflexivity|].
  rewrite list_body_unfold, Hn, Hq. simpl.
  unfold each_core. destruct st as [secs fresh].
  fold (parent_set (data_parent e)). rewrite Hq. exact IH.
Qed.

Lemma rendered_flat (i : nat) (pages : list PageItem) :
  forallb page_modelled pages = true ->
  (forall p, p ∈ pages -> parent_set (parent_text p) = false) ->
  Forall (fun e => selector_error (data_name e) = false
                   /\ parent_set (data_parent e) = false) (rendered i pages).
Proof.
  revert i. induction pages as [|p ps IH]; intros i Hm Hf; simpl; [constructor|].
  simpl in Hm. apply andb_true_iff in Hm as [Hp Hps]. constructor.
  - split.
    + apply plain_selector_ok, data_modelled_plain, (page_modelled_texts p Hp).
    + apply (Hf p). left.
  - apply IH; [exact Hps|]. intros q Hq. apply Hf. right. exact Hq.
Qed.

Lemma bind_under_render_flat (b : bool) (roots : list nat) (i : nat)
    (pages : list PageItem) :
  bind_under b roots (render_flat i pages) = render_flat i pages.
Proof.
  revert i. induction pages as [|p ps IH]; intros i; simpl; [reflexivity|].
  rewrite IH. destruct (b || mem i roots); reflexivity.
Qed.




(** The second run also reaches into the first menu: it finds "A" and "B"
    in both containers, leaves clones of both "B" nodes below the first "A"
    and moves both originals below the second "A", which gets no toggle. *)
Example second_build_reaches_first_menu :
  let pages := [sample_page "A" ""; sample_page "B" "A"] in
  let s1 := from_option id empty_sidebar
              (ListSidebar.make_sidebar_menu pages empty_sidebar) in
  let s2 := from_option id empty_sidebar (ListSidebar.make_sidebar_menu pages s1) in
  map (fun f => map (fun t => (node_name t, node_up t)) (nodes None f)) (sections s2)
  = [[("A", None); ("B", Some "A"); ("B", Some "A")];
     [("A", None); ("B", Some "A"); ("B", Some "A")]]
  /\ map (fun f => map (fun e => bool_decide (is_Some (drop_icon e))) (tops f))
         (sections s2)
     = [[true]; [false]].
Proof. split; vm_compute; reflexivity. Qed.

(** * Further properties *)

(** ** login.html: the countdown *)

(** X1: for a target that is not in the past, [getTimeRemainingWeek] splits
    the difference into days and a time of day: hours below 24, minutes and
    seconds below 60, nothing negative, and the four numbers add up to the
    whole seconds of the difference. *)
Theorem week_parts_decompose (diff : Z) :
  (0 <= diff)%Z ->
  let '(days, hours, minutes, seconds) := week_parts diff in
  (0 <= days /\ 0 <= hours < 24 /\ 0 <= minutes < 60 /\ 0 <= seconds < 60
   /\ ((days * 24 + hours) * 60 + minutes) * 60 + seconds = diff / 1000)%Z.
Proof.
  intros Hd. unfold week_parts.
  rewrite !Z.rem_mod_nonneg by lia.
  change (1000 * 60 * 60 * 24)%Z with 86400000%Z.
  change (1000 * 60 * 60)%Z with 3600000%Z.
  change (1000 * 60)%Z with 60000%Z.
  Z.to_euclidean_division_equations. lia.
Qed.

Lemma week_parts_decompose_witness :
  let '(days, hours, minutes, seconds) := week_parts 93784500 in
  (0 <= days /\ 0 <= hours < 24 /\ 0 <= minutes < 60 /\ 0 <= seconds < 60
   /\ ((days * 24 + hours) * 60 + minutes) * 60 + seconds = 93784500 / 1000)%Z.
Proof. apply (week_parts_decompose 93784500). lia. Defined.

Lemma div_minus_one (a b : Z) : (- b <= a < 0)%Z -> (a / b = -1)%Z.
Proof. intros H. Z.to_euclidean_division_equations. nia. Qed.

(** X2: in the last second of the day, when the target 23:59:59.000 has
    just passed, every part of [getTimeRemainingDay] is the floor of a small
    negative number and the text reads "-1h -1m -1s ". *)
Theorem day_countdown_last_second (diff : Z) :
  (-1000 < diff < 0)%Z ->
  getTimeRemainingDay diff = "-1h -1m -1s ".
Proof.
  intros Hd.
  assert (Hr : forall b, (1000 <= b)%Z -> Z.rem diff b = diff).
  { intros b Hb. rewrite <- (Z.opp_involutive diff) at 1.
    rewrite Z.rem_opp_l by lia. rewrite Z.rem_small by lia. lia. }
  unfold getTimeRemainingDay, day_parts.
  rewrite !Hr by lia.
  rewrite !div_minus_one by lia. reflexivity.
Qed.

Lemma day_countdown_last_second_witness :
  getTimeRemainingDay (-500) = "-1h -1m -1s ".
Proof. apply (day_countdown_last_second (-500)). lia. Defined.

(** X3: whatever the weekday, [getTimeRemainingWeek] moves the target date
    forward by one to seven days, never by none; on a Sunday ([getDay] 0) it
    is the Sunday a week later. *)
Theorem days_to_target_range (getDay : Z) :
  (0 <= getDay <= 6)%Z ->
  (1 <= days_to_target getDay <= 7)%Z
  /\ (days_to_target getDay = 7 <-> getDay = 0)%Z.
Proof.
  intros H. unfold days_to_target. rewrite Z.rem_small by lia. lia.
Qed.

Lemma days_to_target_range_witness :
  (1 <= days_to_target 0 <= 7)%Z /\ (days_to_target 0 = 7 <-> 0 = 0)%Z.
Proof. apply (days_to_target_range 0). lia. Defined.

(** ** translation_manager.js: the dictionary sent to the server *)

Lemma fold_assign_row_absent (rows : list TranslationRow)
    (d : gmap string (JsVal * JsVal)) (k : string) :
  (forall r, r ∈ rows -> template (language r) <> k) ->
  fold_left assign_row rows d !! k = d !! k.
Proof.
  revert d. induction rows as [|r rows IH]; intros d Hk; [reflexivity|].
  simpl. rewrite IH by (intros r' Hr'; apply Hk; right; exact Hr').
  unfold assign_row. case_bool_decide; [reflexivity|].
  apply lookup_insert_ne. apply Hk. left.
Qed.

(** X4: when several rows of the translation table name the same language,
    the dictionary sent to the server holds the last of them; a language of
    no row has no entry. *)
Theorem translation_dict_last_row_wins
    (before after : list TranslationRow) (row : TranslationRow) :
  template (language row) <> "__proto__" ->
  (forall r, r ∈ after -> template (language r) <> template (language row)) ->
  translation_dict (Some (before ++ row :: after)%list) !! template (language row)
  = Some (translation row, translate_woocommerce row).
Proof.
  intros Hp Hafter. unfold translation_dict. simpl.
  rewrite fold_left_app. simpl.
  rewrite fold_assign_row_absent by assumption.
  unfold assign_row. rewrite bool_decide_eq_false_2 by assumption.
  apply lookup_insert_eq.
Qed.

Lemma translation_dict_last_row_wins_witness :
  translation_dict
    (Some [mkRow (JStr "fr") (JStr "Bonjour") (JNum "0");
           mkRow (JStr "de") (JStr "Hallo") (JNum "1");
           mkRow (JStr "fr") (JStr "Salut") (JNum "1")]) !! "fr"
  = Some (JStr "Salut", JNum "1").
Proof.
  apply (translation_dict_last_row_wins
           [mkRow (JStr "fr") (JStr "Bonjour") (JNum "0");
            mkRow (JStr "de") (JStr "Hallo") (JNum "1")] []
           (mkRow (JStr "fr") (JStr "Salut") (JNum "1"))).
  - discriminate.
  - intros r Hr. inversion Hr.
Defined.

Lemma fold_assign_row_dom (rows : list TranslationRow)
    (d : gmap string (JsVal * JsVal)) (k : string) :
  is_Some (fold_left assign_row rows d !! k) ->
  is_Some (d !! k)
  \/ (k <> "__proto__" /\ exists r, r ∈ rows /\ template (language r) = k).
Proof.
  revert d. induction rows as [|r rows IH]; intros d H; [left; exact H|].
  simpl in H. apply IH in H as [H|(Hk & r' & Hr' & Hk')].
  - unfold assign_row in H. case_bool_decide as Hp; [left; exact H|].
    destruct (decide (template (language r) = k)) as [<-|Hne].
    + right. split; [assumption|]. exists r. split; [left | reflexivity].
    + rewrite lookup_insert_ne in H by assumption. left. exact H.
  - right. split; [assumption|]. exists r'. split; [right; exact Hr' | exact Hk'].
Qed.

Lemma fold_assign_row_present (rows : list TranslationRow)
    (d : gmap string (JsVal * JsVal)) (k : string) :
  is_Some (d !! k)
  \/ (k <> "__proto__" /\ exists r, r ∈ rows /\ template (language r) = k) ->
  is_Some (fold_left assign_row rows d !! k).
Proof.
  revert d. induction rows as [|r rows IH]; intros d H.
  - destruct H as [H|(_ & r & Hr & _)]; [exact H | inversion Hr].
  - simpl. apply IH.
    destruct H as [H|(Hk & r' & Hr' & Hk')].
    + left. unfold assign_row. case_bool_decide; [exact H|].
      destruct (decide (template (language r) = k)) as [<-|Hne].
      * rewrite lookup_insert_eq. eauto.
      * rewrite lookup_insert_ne by assumption. exact H.
    + apply elem_of_cons in Hr' as [->|Hr'].
      * left. unfold assign_row. rewrite Hk'.
        rewrite bool_decide_eq_false_2 by assumption.
        rewrite lookup_insert_eq. eauto.
      * right. split; [assumption|]. exists r'. auto.
Qed.

(** X5: the dictionary has an entry for exactly the languages of the rows
    (but never for "__proto__"); without rows, or without the
    [translation_data] argument, it is empty. *)
Theorem translation_dict_keys (translation_data : option (list TranslationRow))
    (k : string) :
  is_Some (translation_dict translation_data !! k)
  <-> k <> "__proto__"
      /\ exists r, r ∈ default [] translation_data /\ template (language r) = k.
Proof.
  unfold translation_dict. split.
  - intros H. apply fold_assign_row_dom in H as [H|H]; [|exact H].
    rewrite lookup_empty in H. destruct H as [? H]. discriminate H.
  - intros H. apply fold_assign_row_present. right. exact H.
Qed.

(** ** form_sidebar.js: the user actions *)

Lemma add_user_actions_fold (labels : list string) (uas : list UserActions) :
  fold_left (fun st l => add_user_action l st) labels uas
  = map (fun ua => mkUserActions
                     (match labels with [] => ua_hidden ua | _ => false end)
                     (ua_children ua ++ map ActionRow labels)) uas.
Proof.
  revert uas. induction labels as [|l labels IH]; intros uas; simpl.
  - rewrite <- (map_id uas) at 1. apply map_ext. intros [h c]. simpl.
    rewrite app_nil_r. reflexivity.
  - rewrite IH. unfold add_user_action. rewrite map_map. apply map_ext.
    intros [h c]. simpl. rewrite <- app_assoc. simpl.
    destruct labels; reflexivity.
Qed.

(** X6: after [clear_user_actions] and then any number of
    [add_user_action] calls, every [.user-actions] element holds its other
    children followed by exactly the added actions, in call order, and
    carries "hidden" exactly when no action was added. *)
Theorem user_actions_since_clear (labels : list string) (uas : list UserActions) :
  fold_left (fun st l => add_user_action l st) labels (clear_user_actions uas)
  = map (fun ua =>
           mkUserActions
             (bool_decide (labels = []))
             (List.filter (fun c => negb (is_action_row c)) (ua_children ua)
              ++ map ActionRow labels)) uas.
Proof.
  rewrite add_user_actions_fold. unfold clear_user_actions. rewrite map_map.
  apply map_ext. intros [h c]. simpl. destruct labels; reflexivity.
Qed.

(** ** list_sidebar.js: the "Filter by" button *)

Lemma last_snoc_str (l : list string) (d : string) : last (l ++ [d]) = Some d.
Proof. apply last_snoc. Qed.

Lemma set_last_snoc (l : list string) (d d' : string) :
  set_last d' (l ++ [d]) = (l ++ [d'])%list.
Proof. unfold set_last. rewrite rev_app_distr. simpl. rewrite rev_involutive. reflexivity. Qed.

(** X7: one run of the click handler of a "Filter by" button changes the
    display of the last [ul.sidebar-menu] only: "block" becomes "none",
    anything else becomes "block"; afterwards the clicked button is active
    exactly when that list is shown.  A second run brings back the display
    only if it was "block" or "none" to begin with. *)
Theorem collapsible_click_toggles (this : nat) (c : Collapsible)
    (others : list string) (d : string) :
  ul_display c = (others ++ [d])%list ->
  this < length (btn_active c) ->
  let c1 := collapsible_click this c in
  let c2 := collapsible_click this c1 in
  ul_display c1 = (others ++ [if bool_decide (d = "block") then "none" else "block"])%list
  /\ btn_active c1 !! this = Some (negb (bool_decide (d = "block")))
  /\ ul_display c2 = (others ++ [if bool_decide (d = "block") then "block" else "none"])%list
  /\ btn_active c2 !! this = Some (bool_decide (d = "block")).
Proof.
  intros Hu Hthis. destruct c as [btns uls]. simpl in Hu, Hthis. subst uls.
  assert (Hi : forall b, <[this := b]> btns !! this = Some b)
    by (intros b; apply list_lookup_insert_eq; assumption).
  cbv zeta. unfold collapsible_click, set_nth_bool. simpl.
  rewrite !last_snoc_str, !set_last_snoc.
  destruct (decide (d = "block")) as [->|Hd].
  - rewrite !(bool_decide_eq_true_2 (Some "block" = Some "block")) by reflexivity.
    rewrite (bool_decide_eq_true_2 ("block" = "block")) by reflexivity.
    simpl. rewrite last_snoc_str, set_last_snoc.
    rewrite (bool_decide_eq_false_2 (Some "none" = Some "block")) by discriminate.
    simpl. rewrite list_insert_insert_eq, ?set_last_snoc. auto.
  - rewrite !(bool_decide_eq_false_2 (Some d = Some "block")) by congruence.
    rewrite (bool_decide_eq_false_2 (d = "block")) by assumption.
    simpl. rewrite last_snoc_str, set_last_snoc.
    rewrite (bool_decide_eq_true_2 (Some "block" = Some "block")) by reflexivity.
    simpl. rewrite list_insert_insert_eq, ?set_last_snoc. auto.
Qed.

Lemma collapsible_click_toggles_witness :
  let c := mkCollapsible [false] ["block"; "flex"] in
  ul_display (collapsible_click 0 c) = ["block"; "block"]
  /\ ul_display (collapsible_click 0 (collapsible_click 0 c)) = ["block"; "none"].
Proof.
  intros c.
  destruct (collapsible_click_toggles 0 c ["block"] "flex") as (H1 & _ & H2 & _).
  - reflexivity.
  - simpl. lia.
  - split; [exact H1 | exact H2].
Defined.

(** X8: in a sidebar without any [ul.sidebar-menu] one run of the click
    handler only marks the button active, and further runs change
    nothing. *)
Theorem collapsible_click_without_list (this : nat) (c : Collapsible) :
  ul_display c = [] ->
  collapsible_click this c = mkCollapsible (<[this := true]> (btn_active c)) []
  /\ collapsible_click this (collapsible_click this c) = collapsible_click this c.
Proof.
  intros Hu.
  assert (H1 : collapsible_click this c
               = mkCollapsible (<[this := true]> (btn_active c)) []).
  { unfold collapsible_click. rewrite Hu. reflexivity. }
  split; [exact H1|]. rewrite H1. unfold collapsible_click, set_nth_bool. simpl.
  rewrite list_insert_insert_eq. reflexivity.
Qed.

Lemma collapsible_click_without_list_witness :
  collapsible_click 0 (mkCollapsible [false] []) = mkCollapsible [true] [].
Proof.
  apply (collapsible_click_without_list 0 (mkCollapsible [false] [])). reflexivity.
Defined.

(** ** list_sidebar.js: [setup_reports] *)

Lemma report_hrefs_app (l k : list Reports.DropdownItem) :
  report_hrefs (l ++ k) = (report_hrefs l ++ report_hrefs k)%list.
Proof. unfold report_hrefs. apply flat_map_app. Qed.

Lemma with_divider_snoc (links : list Reports.DropdownItem)
    (link : Reports.DropdownItem) :
  with_divider (links ++ [link])
  = match links with
    | [] => [Reports.Divider; link]
    | _ => (with_divider links ++ [link])%list
    end.
Proof. destruct links; reflexivity. Qed.

Lemma add_report_ok (doctype : string) (dropdown0 links : list Reports.DropdownItem)
    (st : Reports.State) (r : Reports.Report) :
  reports_state_ok dropdown0 links st ->
  exists st' links',
    Reports.add_report doctype true st r = Some st'
    /\ reports_state_ok dropdown0 links' st'
    /\ (forall rt, rt ∈ Reports.added st' <->
                   rt ∈ Reports.added st
                   \/ (Reports.for_doctype doctype r = true
                       /\ Reports.route_of r = rt)).
Proof.
  intros (Hdd & Hdiv & Hlinks & Hh & Hnd).
  unfold Reports.add_report.
  destruct (Reports.for_doctype doctype r) eqn:Ef.
  2:{ exists st, links. split; [reflexivity|]. split; [repeat split; assumption|].
      intros rt. split; [auto | intros [H|[H _]]; [exact H | discriminate H]]. }
  cbv zeta.
  destruct (decide (Reports.route_of r ∈ Reports.added st)) as [Hin|Hin].
  { rewrite (bool_decide_eq_true_2 _ Hin). simpl.
    exists st, links. split; [reflexivity|]. split; [repeat split; assumption|].
    intros rt. split; [auto | intros [H|[_ <-]]; assumption]. }
  rewrite (bool_decide_eq_false_2 _ Hin). simpl.
  set (link := Reports.ReportLink _ _).
  assert (Hok : forall st',
            Reports.added st' = (Reports.added st ++ [Reports.route_of r])%list ->
            Reports.divider st' = true ->
            Reports.dropdown st' = (dropdown0 ++ with_divider (links ++ [link]))%list ->
            reports_state_ok dropdown0 (links ++ [link]) st'
            /\ (forall rt, rt ∈ Reports.added st' <->
                   rt ∈ Reports.added st
                   \/ (true = true /\ Reports.route_of r = rt))).
  { intros st' Ha Hd Hdr. split.
    - repeat split.
      + exact Hdr.
      + rewrite Hd. rewrite bool_decide_eq_false_2; [reflexivity|].
        destruct links; discriminate.
      + apply Forall_app. split; [assumption|].
        constructor; [eexists _, _; reflexivity | constructor].
      + rewrite report_hrefs_app, Hh, Ha, map_app. reflexivity.
      + rewrite Ha. apply NoDup_app. repeat split; [assumption| |apply NoDup_singleton].
        intros x Hx Hx'. apply list_elem_of_singleton in Hx'. subst x. contradiction.
    - intros rt. rewrite Ha, elem_of_app, list_elem_of_singleton.
      intuition congruence. }
  destruct (Reports.divider st) eqn:Ed.
  - eexists _, (links ++ [link])%list. split; [reflexivity|].
    apply Hok; try reflexivity. simpl. rewrite Hdd, <- app_assoc, with_divider_snoc.
    destruct links; [|reflexivity].
    rewrite bool_decide_eq_true_2 in Hdiv by reflexivity. discriminate Hdiv.
  - eexists _, (links ++ [link])%list. split; [reflexivity|].
    apply Hok; try reflexivity. simpl. rewrite Hdd.
    destruct links as [|a links]; [rewrite app_nil_r; reflexivity|].
    rewrite bool_decide_eq_false_2 in Hdiv by discriminate. discriminate Hdiv.
Qed.

Lemma add_reports_ok (doctype : string) (dropdown0 : list Reports.DropdownItem)
    (reports : list Reports.Report) :
  forall (links : list Reports.DropdownItem) (st : Reports.State),
    reports_state_ok dropdown0 links st ->
    exists st' links',
      Reports.add_reports doctype true reports st = Some st'
      /\ reports_state_ok dropdown0 links' st'
      /\ (forall rt, rt ∈ Reports.added st' <->
                     rt ∈ Reports.added st
                     \/ exists r, r ∈ reports
                                  /\ Reports.for_doctype doctype r = true
                                  /\ Reports.route_of r = rt).
Proof.
  induction reports as [|r reports IH]; intros links st Hok.
  - exists st, links. split; [reflexivity|]. split; [assumption|].
    intros rt. split; [auto | intros [H|(r & Hr & _)]; [exact H | inversion Hr]].
  - destruct (add_report_ok doctype dropdown0 links st r Hok)
      as (st1 & links1 & E1 & Hok1 & Hm1).
    destruct (IH links1 st1 Hok1) as (st2 & links2 & E2 & Hok2 & Hm2).
    exists st2, links2. split; [simpl; rewrite E1; exact E2|].
    split; [assumption|].
    intros rt. rewrite Hm2, Hm1. split.
    + intros [[H|[Hf Hr]]|(r' & Hr' & Hf & Hrt)]; [auto| |].
      * right. exists r. split; [left | auto].
      * right. exists r'. split; [right; assumption | auto].
    + intros [H|(r' & Hr' & Hf & Hrt)]; [auto|].
      apply elem_of_cons in Hr' as [->|Hr']; [auto|].
      right. exists r'. auto.
Qed.

Lemma NoDup_map_hash (l : list string) :
  NoDup l -> NoDup (map (String.append "#") l).
Proof.
  induction 1 as [|x l Hx _ IH]; simpl; constructor; [|assumption].
  intros Hin. apply list_elem_of_In, in_map_iff in Hin as (y & Hy & Hin).
  change (String "#" y = String "#" x) in Hy. injection Hy as Hy. subst y.
  apply Hx, list_elem_of_In. exact Hin.
Qed.

(** The sort of the user's reports returns, with the same reports, if every
    title is a string. *)
Lemma insert_report_titled (collate : string -> string -> comparison)
    (a : Reports.Report) (before : list Reports.Report) :
  Reports.titled a = true ->
  exists l, Reports.insert_report collate a before = Some l /\ l ≡ₚ a :: before.
Proof.
  intros Ha. induction before as [|b rest IH]; simpl.
  - exists [a]. split; reflexivity.
  - unfold Reports.compare_titles. unfold Reports.titled in Ha.
    destruct (Reports.title a) as [| |t]; try discriminate Ha.
    destruct (collate t _).
    + eexists. split; reflexivity.
    + destruct IH as (l & -> & Hp). exists (b :: l). split; [reflexivity|].
      rewrite Hp. apply Permutation_swap.
    + eexists. split; reflexivity.
Qed.

Lemma sort_from_titled (collate : string -> string -> comparison)
    (reports : list Reports.Report) :
  forall before,
    forallb Reports.titled reports = true ->
    exists l, Reports.sort_from collate reports before = Some l
              /\ l ≡ₚ (before ++ reports)%list.
Proof.
  induction reports as [|a rest IH]; intros before Ht; simpl.
  - exists (rev before). split; [reflexivity|].
    rewrite app_nil_r. apply Permutation_sym, Permutation_rev.
  - simpl in Ht. apply andb_true_iff in Ht as [Ha Ht].
    destruct (insert_report_titled collate a before Ha) as (b' & -> & Hp).
    destruct (IH b' Ht) as (l & -> & Hl). exists l. split; [reflexivity|].
    rewrite Hl, Hp. simpl. apply Permutation_middle.
Qed.

Lemma sort_reports_titled (collate : string -> string -> comparison)
    (all_reports : list Reports.Report) :
  forallb Reports.titled all_reports = true ->
  exists l, Reports.sort_reports collate all_reports = Some l /\ l ≡ₚ all_reports.
Proof. apply (sort_from_titled collate all_reports []). Qed.

(** X9: if the sidebar object has a [get_divider] method and every report of
    the user has a string title, [setup_reports] returns normally and
    appends to the dropdown either nothing or one divider followed by links
    only; no two links share a target, and a route gets a link exactly when
    some report of the list view settings or of the user's reports is for
    this doctype (or for none) and has that route.  This holds in whichever
    order the locale sorts the titles. *)
Theorem setup_reports_links (collate : string -> string -> comparison)
    (doctype : string) (settings_reports : option (list Reports.Report))
    (all_reports : list Reports.Report)
    (dropdown0 : list Reports.DropdownItem) :
  forallb Reports.titled all_reports = true ->
  exists links,
    Reports.setup_reports collate doctype true settings_reports all_reports
      dropdown0
    = Some (dropdown0 ++ with_divider links)%list
    /\ Forall is_report_link links
    /\ NoDup (report_hrefs links)
    /\ (forall rt, ("#" ++ rt) ∈ report_hrefs links <->
          exists r, r ∈ (default [] settings_reports ++ all_reports)%list
                    /\ Reports.for_doctype doctype r = true
                    /\ Reports.route_of r = rt).
Proof.
  intros Ht.
  destruct (sort_reports_titled collate all_reports Ht) as (sorted & Es & Hs).
  unfold Reports.setup_reports. rewrite Es.
  assert (Hmem : forall r, r ∈ sorted <-> r ∈ all_reports).
  { intros r. rewrite Hs. reflexivity. }
  set (st0 := Reports.mkState [] false dropdown0).
  assert (H0 : reports_state_ok dropdown0 [] st0).
  { repeat split; simpl; [rewrite app_nil_r; reflexivity | constructor | constructor]. }
  destruct (add_reports_ok doctype dropdown0 (default [] settings_reports) [] st0 H0)
    as (st1 & links1 & E1 & Hok1 & Hm1).
  destruct (add_reports_ok doctype dropdown0 sorted links1 st1 Hok1)
    as (st2 & links2 & E2 & Hok2 & Hm2).
  assert (E1' : match settings_reports with
                | Some reports => Reports.add_reports doctype true reports st0
                | None => Some st0
                end = Some st1).
  { destruct settings_reports; [exact E1 | simpl in E1; exact E1]. }
  rewrite E1', E2. simpl.
  destruct Hok2 as (Hdd & _ & Hl & Hh & Hnd).
  exists links2. split; [rewrite Hdd; reflexivity|]. split; [assumption|].
  split; [rewrite Hh; apply NoDup_map_hash; assumption|].
  intros rt. rewrite Hh. split.
  - intros Hin. apply list_elem_of_In, in_map_iff in Hin as (y & Hy & Hin).
    change (String "#" y = String "#" rt) in Hy. injection Hy as Hy. subst y.
    apply list_elem_of_In, Hm2 in Hin.
    destruct Hin as [Hin|(r & Hr & Hf & Hrt)].
    + apply Hm1 in Hin as [Hin|(r & Hr & Hf & Hrt)]; [inversion Hin|].
      exists r. split; [apply elem_of_app; left; assumption | auto].
    + exists r. split; [apply elem_of_app; right; apply Hmem; assumption | auto].
  - intros (r & Hr & Hf & Hrt).
    apply list_elem_of_In, in_map, list_elem_of_In, Hm2.
    apply elem_of_app in Hr as [Hr|Hr].
    + left. apply Hm1. right. exists r. auto.
    + right. exists r. split; [apply Hmem; assumption | auto].
Qed.

Lemma setup_reports_links_witness :
  exists links,
    Reports.setup_reports String.compare "ToDo" true
      (Some [Reports.mkReport (Reports.FText "ToDo") (Reports.FText "Report Builder")
               Reports.FUndefined Reports.FUndefined (Reports.FText "Open")])
      [Reports.mkReport Reports.FUndefined (Reports.FText "Script Report")
         Reports.FUndefined (Reports.FText "Zeta") (Reports.FText "z");
       Reports.mkReport (Reports.FText "Task") Reports.FNull
         Reports.FUndefined (Reports.FText "Beta") (Reports.FText "b");
       Reports.mkReport Reports.FNull Reports.FNull
         Reports.FUndefined (Reports.FText "Alpha") (Reports.FText "a")]
      []
    = Some ([] ++ with_divider links)%list
    /\ Forall is_report_link links
    /\ NoDup (report_hrefs links)
    /\ (forall rt, ("#" ++ rt) ∈ report_hrefs links <->
          exists r,
            r ∈ (default []
                   (Some [Reports.mkReport (Reports.FText "ToDo")
                            (Reports.FText "Report Builder")
                            Reports.FUndefined Reports.FUndefined
                            (Reports.FText "Open")])
                 ++ [Reports.mkReport Reports.FUndefined (Reports.FText "Script Report")
                       Reports.FUndefined (Reports.FText "Zeta") (Reports.FText "z");
                     Reports.mkReport (Reports.FText "Task") Reports.FNull
                       Reports.FUndefined (Reports.FText "Beta") (Reports.FText "b");
                     Reports.mkReport Reports.FNull Reports.FNull
                       Reports.FUndefined (Reports.FText "Alpha")
                       (Reports.FText "a")])%list
            /\ Reports.for_doctype "ToDo" r = true
            /\ Reports.route_of r = rt).
Proof.
  apply (setup_reports_links String.compare "ToDo").
  vm_compute; reflexivity.
Defined.

(** The sorted dropdown of the example above: the report of the settings
    first, then the user's reports for this doctype by title. *)
Example setup_reports_sorted :
  Reports.setup_reports String.compare "ToDo" true
    (Some [Reports.mkReport (Reports.FText "ToDo") (Reports.FText "Report Builder")
             Reports.FUndefined Reports.FUndefined (Reports.FText "Open")])
    [Reports.mkReport Reports.FUndefined (Reports.FText "Script Report")
       Reports.FUndefined (Reports.FText "Zeta") (Reports.FText "z");
     Reports.mkReport (Reports.FText "Task") Reports.FNull
       Reports.FUndefined (Reports.FText "Beta") (Reports.FText "b");
     Reports.mkReport Reports.FNull Reports.FNull
       Reports.FUndefined (Reports.FText "Alpha") (Reports.FText "a")]
    []
  = Some [Reports.Divider;
          Reports.ReportLink "#List/ToDo/Report/Open" (Reports.FText "Open");
          Reports.ReportLink "#query-report/Alpha" (Reports.FText "Alpha");
          Reports.ReportLink "#query-report/Zeta" (Reports.FText "Zeta")].
Proof. vm_compute. reflexivity. Qed.

Lemma add_reports_without_get_divider (doctype : string)
    (reports : list Reports.Report) (dropdown0 : list Reports.DropdownItem) :
  Reports.add_reports doctype false reports (Reports.mkState [] false dropdown0)
  = if existsb (Reports.for_doctype doctype) reports then None
    else Some (Reports.mkState [] false dropdown0).
Proof.
  induction reports as [|r reports IH]; [reflexivity|].
  simpl. unfold Reports.add_report at 1. simpl.
  destruct (Reports.for_doctype doctype r); simpl; [|exact IH].
  reflexivity.
Qed.

Lemma existsb_Permutation {A : Type} (p : A -> bool) (l l' : list A) :
  l ≡ₚ l' -> existsb p l = existsb p l'.
Proof.
  induction 1 as [|x l l' _ IH|x y l|l l' l'' _ IH1 _ IH2]; simpl.
  - reflexivity.
  - rewrite IH. reflexivity.
  - destruct (p x), (p y); reflexivity.
  - congruence.
Qed.

(** X10: without a [get_divider] method (the class in this file defines
    none) [setup_reports] never adds anything to the dropdown: whenever it
    returns, the dropdown is as it was.  If every report of the user has a
    string title, it throws exactly when some report is for this doctype or
    for none. *)
Theorem setup_reports_without_get_divider
    (collate : string -> string -> comparison) (doctype : string)
    (settings_reports : option (list Reports.Report))
    (all_reports : list Reports.Report)
    (dropdown0 : list Reports.DropdownItem) :
  (forall d,
     Reports.setup_reports collate doctype false settings_reports all_reports
       dropdown0 = Some d -> d = dropdown0)
  /\ (forallb Reports.titled all_reports = true ->
      Reports.setup_reports collate doctype false settings_reports all_reports
        dropdown0
      = if existsb (Reports.for_doctype doctype)
                   (default [] settings_reports ++ all_reports)
        then None else Some dropdown0).
Proof.
  assert (Hset : match settings_reports with
                 | Some reports =>
                     Reports.add_reports doctype false reports
                       (Reports.mkState [] false dropdown0)
                 | None => Some (Reports.mkState [] false dropdown0)
                 end
                 = if existsb (Reports.for_doctype doctype) (default [] settings_reports)
                   then None else Some (Reports.mkState [] false dropdown0)).
  { destruct settings_reports as [reports|]; simpl; [|reflexivity].
    apply add_reports_without_get_divider. }
  unfold Reports.setup_reports. rewrite Hset, existsb_app. split.
  - intros d. destruct (existsb _ (default [] settings_reports)); [discriminate|].
    destruct (Reports.sort_reports collate all_reports) as [sorted|]; [|discriminate].
    rewrite add_reports_without_get_divider.
    destruct (existsb _ sorted); simpl; [discriminate|]. intros [= <-]. reflexivity.
  - intros Ht.
    destruct (sort_reports_titled collate all_reports Ht) as (sorted & -> & Hs).
    destruct (existsb _ (default [] settings_reports)); [reflexivity|].
    rewrite add_reports_without_get_divider, (existsb_Permutation _ _ _ Hs).
    destruct (existsb _ all_reports); reflexivity.
Qed.

Lemma setup_reports_without_get_divider_witness :
  (forall d,
     Reports.setup_reports String.compare "ToDo" false None
       [Reports.mkReport (Reports.FText "Task") Reports.FNull
          Reports.FUndefined (Reports.FText "Beta") (Reports.FText "b");
        Reports.mkReport (Reports.FText "Note") Reports.FNull
          Reports.FUndefined (Reports.FText "Alpha") (Reports.FText "a")]
       [Reports.OtherItem "saved"] = Some d -> d = [Reports.OtherItem "saved"])
  /\ Reports.setup_reports String.compare "ToDo" false None
       [Reports.mkReport (Reports.FText "Task") Reports.FNull
          Reports.FUndefined (Reports.FText "Beta") (Reports.FText "b");
        Reports.mkReport (Reports.FText "Note") Reports.FNull
          Reports.FUndefined (Reports.FText "Alpha") (Reports.FText "a")]
       [Reports.OtherItem "saved"]
     = Some [Reports.OtherItem "saved"].
Proof.
  destruct (setup_reports_without_get_divider String.compare "ToDo" None
              [Reports.mkReport (Reports.FText "Task") Reports.FNull
                 Reports.FUndefined (Reports.FText "Beta") (Reports.FText "b");
               Reports.mkReport (Reports.FText "Note") Reports.FNull
                 Reports.FUndefined (Reports.FText "Alpha") (Reports.FText "a")]
              [Reports.OtherItem "saved"]) as [H1 H2].
  split; [exact H1|]. apply H2. vm_compute; reflexivity.
Defined.

Lemma insert_report_untitled (collate : string -> string -> comparison)
    (a b : Reports.Report) (before : list Reports.Report) :
  Reports.titled a = false ->
  Reports.insert_report collate a (b :: before) = None.
Proof.
  intros Ha. simpl. unfold Reports.compare_titles. unfold Reports.titled in Ha.
  destruct (Reports.title a); [reflexivity | reflexivity | discriminate Ha].
Qed.

(** X19: with two or more reports of the user and no string title among
    them, [setup_reports] throws, with or without [get_divider] and whatever
    the list view settings hold: the comparator of the sort calls
    [localeCompare] on a title that is not a string. *)
Theorem setup_reports_untitled (collate : string -> string -> comparison)
    (doctype : string) (has_get_divider : bool)
    (settings_reports : option (list Reports.Report))
    (all_reports : list Reports.Report)
    (dropdown0 : list Reports.DropdownItem) :
  2 <= length all_reports ->
  forallb (fun r => negb (Reports.titled r)) all_reports = true ->
  Reports.setup_reports collate doctype has_get_divider settings_reports
    all_reports dropdown0 = None.
Proof.
  intros Hlen Hu. unfold Reports.setup_reports.
  assert (Hs : Reports.sort_reports collate all_reports = None).
  { destruct all_reports as [|a [|b rest]]; simpl in Hlen; try lia.
    simpl in Hu. apply andb_true_iff in Hu as [_ Hu].
    apply andb_true_iff in Hu as [Hb _]. apply negb_true_iff in Hb.
    unfold Reports.sort_reports.
    change (Reports.sort_from collate (a :: b :: rest) [])
      with (match Reports.insert_report collate b [a] with
            | Some before' => Reports.sort_from collate rest before'
            | None => None
            end).
    rewrite (insert_report_untitled collate b a [] Hb). reflexivity. }
  rewrite Hs. destruct (match settings_reports with
                        | Some reports => _
                        | None => _
                        end); reflexivity.
Qed.

Lemma setup_reports_untitled_witness :
  Reports.setup_reports String.compare "ToDo" true None
    [Reports.mkReport Reports.FUndefined Reports.FUndefined Reports.FUndefined
       Reports.FUndefined (Reports.FText "a");
     Reports.mkReport Reports.FUndefined Reports.FUndefined Reports.FUndefined
       Reports.FNull (Reports.FText "b")]
    []
  = None.
Proof.
  apply (setup_reports_untitled String.compare "ToDo" true None).
  - simpl. lia.
  - vm_compute; reflexivity.
Defined.

(** ** The click handler on the DOM *)

Lemma has_id_set_href (y x : nat) (h : string) (f : Forest) :
  has_id y (set_href x h f) = has_id y f.
Proof.
  induction f as [|e k IHk n IHn]; simpl; [reflexivity|].
  rewrite IHk, IHn. destruct (Nat.eqb (el_id e) x); [|reflexivity].
  destruct (drop_icon e); reflexivity.
Qed.

Lemma has_id_flip_all (y : nat) (f : Forest) : has_id y (flip_all f) = has_id y f.
Proof.
  induction f as [|e k IHk n IHn]; simpl; [reflexivity | rewrite IHk, IHn; reflexivity].
Qed.

Lemma flip_all_set_href (x : nat) (h : string) (f : Forest) :
  flip_all (set_href x h f) = set_href x h (flip_all f).
Proof.
  induction f as [|e k IHk n IHn]; simpl; [reflexivity|].
  rewrite IHk, IHn. f_equal.
  destruct (Nat.eqb (el_id e) x); [|reflexivity].
  destruct (drop_icon e); reflexivity.
Qed.

(** Setting the icon and toggling containers do not interfere. *)
Lemma toggle_parents_set_href (y x : nat) (h : string) (f : Forest) :
  toggle_parents y (set_href x h f) = set_href x h (toggle_parents y f).
Proof.
  induction f as [|e k IHk n IHn]; simpl; [reflexivity|].
  rewrite has_id_set_href, IHn.
  assert (Hid : el_id (if Nat.eqb (el_id e) x
                       then match drop_icon e with
                            | Some ic => set_drop_icon (Some (mkIcon h (handlers ic))) e
                            | None => e
                            end
                       else e) = el_id e).
  { destruct (Nat.eqb (el_id e) x); [|reflexivity]. destruct (drop_icon e); reflexivity. }
  rewrite Hid.
  destruct (Nat.eqb (el_id e) y || has_id y k); simpl; [|reflexivity].
  rewrite flip_all_set_href. f_equal.
  destruct (Nat.eqb (el_id e) x); [|reflexivity].
  destruct (drop_icon e); reflexivity.
Qed.

Lemma set_hidden_twice (e : Elem) :
  set_hidden (negb (negb (hidden e))) (set_hidden (negb (hidden e)) e) = e.
Proof. destruct e as [? ? ? ? ? ? ? ? ? ? ? h]. unfold set_hidden. simpl. rewrite negb_involutive. reflexivity. Qed.

Lemma flip_all_twice (f : Forest) : flip_all (flip_all f) = f.
Proof.
  induction f as [|e k IHk n IHn]; simpl; [reflexivity|].
  rewrite IHk, IHn, set_hidden_twice. reflexivity.
Qed.

(** Toggling the same containers twice leaves them as they were. *)
Lemma toggle_parents_twice (x : nat) (f : Forest) :
  toggle_parents x (toggle_parents x f) = f.
Proof.
  induction f as [|e k IHk n IHn]; simpl; [reflexivity|].
  destruct (Nat.eqb (el_id e) x || has_id x k) eqn:E; simpl.
  - rewrite has_id_flip_all, E, flip_all_twice, IHn, set_hidden_twice. reflexivity.
  - rewrite E, IHn. reflexivity.
Qed.

Lemma set_href_twice (x : nat) (h h' : string) (f : Forest) :
  set_href x h' (set_href x h f) = set_href x h' f.
Proof.
  induction f as [|e k IHk n IHn]; simpl; [reflexivity|].
  rewrite IHk, IHn. f_equal.
  destruct (Nat.eqb (el_id e) x) eqn:E; [|rewrite E; reflexivity].
  destruct (drop_icon e) eqn:Ei; simpl; rewrite E; [reflexivity | rewrite Ei; reflexivity].
Qed.

Lemma set_href_same (x : nat) (h : string) (f : Forest) :
  (forall e ic, e ∈ elems f -> el_id e = x -> drop_icon e = Some ic -> href ic = h) ->
  set_href x h f = f.
Proof.
  induction f as [|e k IHk n IHn]; simpl; intros H; [reflexivity|].
  rewrite IHk, IHn.
  - f_equal. destruct (Nat.eqb (el_id e) x) eqn:E; [|reflexivity].
    apply Nat.eqb_eq in E. destruct (drop_icon e) as [ic|] eqn:Ei; [|reflexivity].
    rewrite <- (H e ic); [|left|assumption|assumption].
    destruct e, ic. simpl in *. subst. reflexivity.
  - intros e' ic He'. apply H. right. apply elem_of_app. right. assumption.
  - intros e' ic He'. apply H. right. apply elem_of_app. left. assumption.
Qed.

Lemma lookup_elem_In (x : nat) (f : Forest) (el : Elem) :
  lookup_elem x f = Some el -> el ∈ elems f /\ el_id el = x.
Proof.
  induction f as [|e k IHk n IHn]; simpl; [discriminate|].
  destruct (Nat.eqb (el_id e) x) eqn:E.
  - intros [= <-]. split; [left | apply Nat.eqb_eq; assumption].
  - destruct (lookup_elem x k) as [r|].
    + intros [= <-]. destruct (IHk eq_refl) as [H1 H2]. split; [|assumption].
      right. apply elem_of_app. left. assumption.
    + intros H. destruct (IHn H) as [H1 H2]. split; [|assumption].
      right. apply elem_of_app. right. assumption.
Qed.

Lemma lookup_all_In (x : nat) (secs : list Forest) (el : Elem) :
  lookup_all x secs = Some el -> el ∈ flat_map elems secs /\ el_id el = x.
Proof.
  induction secs as [|f secs IH]; simpl; [discriminate|].
  destruct (lookup_elem x f) as [r|] eqn:E.
  - intros [= <-]. destruct (lookup_elem_In x f r E) as [H1 H2].
    split; [apply elem_of_app; left|]; assumption.
  - intros H. destruct (IH H) as [H1 H2].
    split; [apply elem_of_app; right|]; assumption.
Qed.

Lemma elem_by_id (l : list Elem) (a b : Elem) :
  NoDup (map el_id l) -> a ∈ l -> b ∈ l -> el_id a = el_id b -> a = b.
Proof.
  induction l as [|c l IH]; simpl; intros Hnd Ha Hb E; [inversion Ha|].
  apply NoDup_cons in Hnd as [Hc Hnd].
  assert (Hm : forall x, x ∈ l -> el_id x ∈ map el_id l).
  { intros x Hx. apply list_elem_of_In, in_map, list_elem_of_In. assumption. }
  apply elem_of_cons in Ha as [->|Ha]; apply elem_of_cons in Hb as [->|Hb].
  - reflexivity.
  - exfalso. apply Hc. rewrite E. auto.
  - exfalso. apply Hc. rewrite <- E. auto.
  - auto.
Qed.



Lemma lookup_all_toggle_parents (x y : nat) (d : list Forest) :
  option_map (set_hidden false) (lookup_all x (map (toggle_parents y) d))
  = option_map (set_hidden false) (lookup_all x d).
Proof.
  induction d as [|f d IH]; simpl; [reflexivity|].
  pose proof (lookup_elem_toggle_parents x y f) as Ht.
  destruct (lookup_elem x f) as [e|]; simpl in *.
  - destruct (lookup_elem x (toggle_parents y f)); simpl in *;
      [assumption | discriminate].
  - destruct (lookup_elem x (toggle_parents y f)); simpl in *;
      [discriminate | exact IH].
Qed.

(** The icon of the clicked toggle after one run of the handler: flipped,
    unless the click was on the [use] element. *)
Lemma handler_icon_after (t : Target) (x : nat) (v v1 : View) (el : Elem)
    (ic : DropIcon) :
  lookup_all x (dom v) = Some el -> drop_icon el = Some ic ->
  ListSidebar.handler t x v = Some v1 ->
  exists el1,
    lookup_all x (dom v1) = Some el1
    /\ drop_icon el1
       = Some (mkIcon (if is_use t then href ic else flip_href (href ic))
                      (handlers ic)).
Proof.
  intros Hl Hi E.
  apply handler_state in E as (el0 & ic0 & Hl0 & Hi0 & Hd & _).
  rewrite Hl in Hl0. injection Hl0 as <-.
  rewrite Hi in Hi0. injection Hi0 as <-.
  rewrite Hd. destruct (is_use t).
  - pose proof (lookup_all_toggle_parents x x (dom v)) as H.
    rewrite Hl in H. simpl in H.
    destruct (lookup_all x (map _ _)) as [el1|]; [|discriminate].
    exists el1. split; [reflexivity|].
    simpl in H. apply (inj Some) in H.
    apply (f_equal drop_icon) in H. simpl in H.
    destruct el1, el. simpl in *. rewrite H, Hi. destruct ic. reflexivity.
  - destruct (clicked_elem_after x (dom v) el ic Hl Hi) as (el' & Hl' & _ & Hi').
    exists el'. auto.
Qed.

(** X11: in a page whose elements have distinct identities, take a toggle
    whose icon shows one of the two [href]s the handler writes
    ("#es-line-down" or "#es-line-up") and click it twice, each time on any
    of its elements.  The hidden classes are as before.  If both clicks or
    neither landed on the [use] element the whole DOM is exactly as it was;
    if just one of them did, the icon stays flipped and nothing else has
    changed. *)
Theorem click_twice_restores_dom (t1 t2 : Target) (x : nat) (v v1 v2 : View)
    (el : Elem) (ic : DropIcon) :
  NoDup (map el_id (flat_map elems (dom v))) ->
  lookup_all x (dom v) = Some el -> drop_icon el = Some ic ->
  href ic = "#es-line-down" \/ href ic = "#es-line-up" ->
  ListSidebar.handler t1 x v = Some v1 ->
  ListSidebar.handler t2 x v1 = Some v2 ->
  dom v2 = if bool_decide (is_use t1 = is_use t2) then dom v
           else map (set_href x (flip_href (href ic))) (dom v).
Proof.
  intros Hnd Hl Hi Hh E1 E2.
  destruct (handler_icon_after t1 x v v1 el ic Hl Hi E1) as (el' & Hl' & Hi').
  apply handler_state in E1 as (el1 & ic1 & Hl1 & Hi1 & Hd1 & _).
  rewrite Hl in Hl1. injection Hl1 as <-.
  rewrite Hi in Hi1. injection Hi1 as <-.
  apply handler_state in E2 as (el2 & ic2 & Hl2 & Hi2 & Hd2 & _).
  rewrite Hl' in Hl2. injection Hl2 as <-.
  rewrite Hi' in Hi2. injection Hi2 as <-.
  simpl in Hd2. rewrite Hd2, Hd1. clear Hd1 Hd2 Hl' Hi'.
  assert (Hflip : flip_href (flip_href (href ic)) = href ic).
  { destruct Hh as [-> | ->]; reflexivity. }
  assert (Hsame : map (set_href x (href ic)) (dom v) = dom v).
  { rewrite <- (map_id (dom v)) at 2. apply map_ext_in. intros f Hf.
    apply set_href_same. intros e ic' He Hx Hic'.
    assert (Heq : e = el).
    { destruct (lookup_all_In x (dom v) el Hl) as [Hel Hid].
      apply (elem_by_id (flat_map elems (dom v))); try assumption; [|congruence].
      apply list_elem_of_In, in_flat_map. exists f. split; [exact Hf|].
      apply list_elem_of_In. exact He. }
    subst e. congruence. }
  destruct (is_use t1), (is_use t2); simpl.
  - rewrite map_map. rewrite <- (map_id (dom v)) at 2. apply map_ext.
    intros f. apply toggle_parents_twice.
  - rewrite !map_map. apply map_ext. intros f.
    rewrite toggle_parents_set_href, toggle_parents_twice. reflexivity.
  - rewrite !map_map. apply map_ext. intros f.
    rewrite toggle_parents_twice. reflexivity.
  - rewrite Hflip. rewrite <- Hsame at 2. rewrite !map_map. apply map_ext.
    intros f.
    rewrite toggle_parents_set_href, toggle_parents_twice, set_href_twice.
    reflexivity.
Qed.

Lemma click_twice_restores_dom_witness :
  let v := loaded_view [sample_page "A" ""; sample_page "B" "A"; sample_page "C" "B"] [] in
  let v1 := from_option id v (ListSidebar.handler OnSvg 1 v) in
  let v2 := from_option id v (ListSidebar.handler OnUse 1 v1) in
  dom v2 = map (set_href 1 "#es-line-up") (dom v).
Proof.
  intros v v1 v2.
  apply (click_twice_restores_dom OnSvg OnUse 1 v v1 v2
           (from_option id (sidebar_item_container 0 (sample_page "X" ""))
                        (lookup_all 1 (dom v)))
           (mkIcon "#es-line-down" 1)).
  - apply (bool_decide_unpack _). vm_compute. exact I.
  - vm_compute; reflexivity.
  - vm_compute; reflexivity.
  - left. reflexivity.
  - vm_compute; reflexivity.
  - vm_compute; reflexivity.
Defined.

(** ** Properties of every element, through the DOM operations *)

Section ForallElems.

Variable P : Elem -> bool.
Hypothesis P_set_hidden : forall b e, P (set_hidden b e) = P e.
Hypothesis P_set_id : forall i e, P (set_id i e) = P e.
Hypothesis P_icon : forall e, P (set_drop_icon (Some itemparentbtn) e) = true.

Lemma forall_elems_fapp (f g : Forest) :
  forall_elems P (fapp f g) = forall_elems P f && forall_elems P g.
Proof.
  induction f as [|e k _ n IH]; simpl; [reflexivity|].
  rewrite IH, !andb_assoc. reflexivity.
Qed.

Lemma forall_elems_add_icon_under (b : bool) (key : string) (f : Forest) :
  forall_elems P f = true ->
  forall_elems P (add_icon_under b key itemparentbtn f) = true.
Proof.
  revert b. induction f as [|e k IHk n IHn]; intros b; simpl; [reflexivity|].
  rewrite !andb_true_iff. intros [[He Hk] Hn].
  rewrite IHk, IHn by assumption.
  destruct (b || named key e); [rewrite P_icon | rewrite He]; auto.
Qed.

Lemma forall_elems_hide_at (ids : list nat) (f : Forest) :
  forall_elems P (hide_at ids f) = forall_elems P f.
Proof.
  induction f as [|e k IHk n IHn]; simpl; [reflexivity|].
  rewrite IHk, IHn. destruct (mem (el_id e) ids); [rewrite P_set_hidden|]; reflexivity.
Qed.

Lemma forall_elems_detach (ids : list nat) (f : Forest) :
  forall_elems P f = true ->
  forall_elems P (fst (detach ids f)) = true
  /\ forall_elems P (snd (detach ids f)) = true.
Proof.
  induction f as [|e k IHk n IHn]; simpl; [auto|].
  rewrite !andb_true_iff. intros [[He Hk] Hn].
  destruct (IHk Hk) as [Hk1 Hk2]. destruct (IHn Hn) as [Hn1 Hn2].
  destruct (detach ids k) as [k' fk], (detach ids n) as [n' fn]. simpl in *.
  destruct (mem (el_id e) ids); simpl;
    rewrite ?forall_elems_fapp, ?He, ?Hk1, ?Hk2, ?Hn1, ?Hn2; auto.
Qed.

Lemma forall_elems_insert_at (t : nat) (frag f : Forest) :
  forall_elems P frag = true -> forall_elems P f = true ->
  forall_elems P (insert_at t frag f) = true.
Proof.
  intros Hfrag. induction f as [|e k IHk n IHn]; simpl; [reflexivity|].
  rewrite !andb_true_iff. intros [[He Hk] Hn].
  destruct (Nat.eqb (el_id e) t); simpl;
    rewrite ?forall_elems_fapp, ?He, ?Hk, ?Hfrag, ?(IHk Hk), ?(IHn Hn); auto.
Qed.

Lemma forall_elems_copies (ids : list nat) (f : Forest) :
  forall_elems P f = true -> forall_elems P (copies ids f) = true.
Proof.
  induction f as [|e k IHk n IHn]; simpl; [reflexivity|].
  rewrite !andb_true_iff. intros [[He Hk] Hn].
  rewrite !forall_elems_fapp, (IHk Hk), (IHn Hn).
  destruct (mem (el_id e) ids); simpl; rewrite ?He, ?Hk; reflexivity.
Qed.

Lemma forall_elems_renumber (i : nat) (f : Forest) :
  forall_elems P (fst (renumber i f)) = forall_elems P f.
Proof.
  revert i. induction f as [|e k IHk n IHn]; intros i; simpl; [reflexivity|].
  specialize (IHk (S i)). destruct (renumber (S i) k) as [k' i1].
  specialize (IHn i1). destruct (renumber i1 n) as [n' i2].
  simpl in *. rewrite IHk, IHn, P_set_id. reflexivity.
Qed.

Lemma forall_sections_map (g : Forest -> Forest) (secs : list Forest) :
  (forall f, forall_elems P f = true -> forall_elems P (g f) = true) ->
  forallb (forall_elems P) secs = true ->
  forallb (forall_elems P) (map g secs) = true.
Proof.
  intros Hg. induction secs as [|f secs IH]; simpl; [reflexivity|].
  rewrite !andb_true_iff. intros [Hf Hs]. auto.
Qed.

Lemma forall_elems_detach_all (ids : list nat) (secs : list Forest) :
  forallb (forall_elems P) secs = true ->
  forallb (forall_elems P) (fst (detach_all ids secs)) = true
  /\ forall_elems P (snd (detach_all ids secs)) = true.
Proof.
  unfold detach_all. simpl. induction secs as [|f secs IH]; simpl; [auto|].
  rewrite !andb_true_iff. intros [Hf Hs].
  destruct (IH Hs) as [H1 H2]. destruct (forall_elems_detach ids f Hf) as [H3 H4].
  rewrite forall_elems_fapp, H1, H2, H3, H4. auto.
Qed.

Lemma forall_elems_copies_all (ids : list nat) (secs : list Forest) :
  forallb (forall_elems P) secs = true ->
  forall_elems P (copies_all ids secs) = true.
Proof.
  unfold copies_all. induction secs as [|f secs IH]; simpl; [reflexivity|].
  rewrite !andb_true_iff. intros [Hf Hs].
  rewrite forall_elems_fapp, (forall_elems_copies ids f Hf), (IH Hs). reflexivity.
Qed.

Lemma forall_elems_appendTo (sources targets : list nat) :
  forall (secs : list Forest) (fresh : nat) (secs' : list Forest) (fresh' : nat),
    forallb (forall_elems P) secs = true ->
    appendTo sources targets secs fresh = Some (secs', fresh') ->
    forallb (forall_elems P) secs' = true.
Proof.
  induction targets as [|t ts IH]; intros secs fresh secs' fresh' Hs Ha.
  - simpl in Ha. injection Ha as <- <-. exact Hs.
  - destruct ts as [|t2 ts].
    + cbn [appendTo] in Ha.
      destruct (forall_elems_detach_all sources secs Hs) as [H1 H2].
      destruct (detach_all sources secs) as [rest frag]. cbn [fst snd] in H1, H2.
      destruct frag as [|e k n]; [injection Ha as <- <-; exact Hs|].
      destruct (existsb (has_id t) rest); [|discriminate].
      injection Ha as <- <-.
      apply forall_sections_map; [|exact H1].
      intros f Hf. apply forall_elems_insert_at; assumption.
    + cbn [appendTo] in Ha.
      pose proof (forall_elems_renumber fresh (copies_all sources secs)) as Hr.
      rewrite (forall_elems_copies_all sources secs Hs) in Hr.
      destruct (renumber fresh (copies_all sources secs)) as [clones fresh1].
      simpl in Hr.
      apply (IH _ _ _ _ (forall_sections_map (insert_at t clones) secs
                           (fun f Hf => forall_elems_insert_at t clones f Hr Hf) Hs) Ha).
Qed.

Lemma forall_elems_each_body (e : Elem) (secs secs' : list Forest)
    (fresh fresh' : nat) :
  forallb (forall_elems P) secs = true ->
  each_core e (secs, fresh) = Some (secs', fresh') ->
  forallb (forall_elems P) secs' = true.
Proof.
  intros Hs. unfold each_core.
  destruct (truthy (jq_data (data_parent e))); [|intros [= <- <-]; exact Hs].
  set (secs1 := if existsb _ secs then secs else _).
  assert (H1 : forallb (forall_elems P) secs1 = true).
  { subst secs1. destruct (existsb _ secs); [exact Hs|].
    apply forall_sections_map; [|exact Hs].
    intros f Hf. apply forall_elems_add_icon_under. exact Hf. }
  destruct (appendTo _ _ secs1 fresh) as [[secs2 fresh2]|] eqn:Ea; [|discriminate].
  intros [= <- <-].
  apply forall_sections_map; [intros f Hf; rewrite forall_elems_hide_at; exact Hf|].
  exact (forall_elems_appendTo _ _ _ _ _ _ H1 Ea).
Qed.

Lemma forall_elems_each (l : list Elem) :
  forall (secs secs' : list Forest) (fresh fresh' : nat),
    forallb (forall_elems P) secs = true ->
    each each_core l (secs, fresh) = Some (secs', fresh') ->
    forallb (forall_elems P) secs' = true.
Proof.
  induction l as [|e l IH]; intros secs secs' fresh fresh' Hs He.
  - injection He as <- <-. exact Hs.
  - cbn [each] in He.
    destruct (each_core e (secs, fresh)) as [[secs1 fresh1]|] eqn:Eb;
      [|discriminate].
    exact (IH _ _ _ _ (forall_elems_each_body _ _ _ _ _ Hs Eb) He).
Qed.

End ForallElems.

(** ** The top level of a section through the loop *)

Lemma top_ids_detach (ids : list nat) (f : Forest) :
  top_ids (fst (detach ids f))
  = List.filter (fun i => negb (mem i ids)) (top_ids f).
Proof.
  unfold top_ids. induction f as [|e k _ n IHn]; simpl; [reflexivity|].
  destruct (detach ids k) as [k' fk], (detach ids n) as [n' fn]. simpl in *.
  destruct (mem (el_id e) ids); simpl; rewrite IHn; reflexivity.
Qed.

Lemma top_ids_insert_at (t : nat) (frag f : Forest) :
  top_ids (insert_at t frag f) = top_ids f.
Proof.
  unfold top_ids. induction f as [|e k _ n IHn]; simpl; [reflexivity|].
  destruct (Nat.eqb (el_id e) t); simpl; rewrite IHn; reflexivity.
Qed.

Lemma top_ids_hide_at (ids : list nat) (f : Forest) :
  top_ids (hide_at ids f) = top_ids f.
Proof.
  unfold top_ids. induction f as [|e k _ n IHn]; simpl; [reflexivity|].
  rewrite IHn. destruct (mem (el_id e) ids); reflexivity.
Qed.

Lemma top_ids_add_icon_under (b : bool) (key : string) (ic : DropIcon) (f : Forest) :
  top_ids (add_icon_under b key ic f) = top_ids f.
Proof.
  unfold top_ids. induction f as [|e k _ n IHn]; simpl; [reflexivity|].
  rewrite IHn. destruct (b || named key e); reflexivity.
Qed.

Lemma filter_sublist_nat (P : nat -> bool) (l : list nat) :
  List.filter P l `sublist_of` l.
Proof.
  induction l as [|x l IH]; simpl; [constructor|].
  destruct (P x); [apply sublist_skip | apply sublist_cons]; assumption.
Qed.

Lemma tops_shrink_refl (secs : list Forest) : tops_shrink secs secs.
Proof. induction secs; constructor; [reflexivity | assumption]. Qed.

Lemma tops_shrink_trans (a b c : list Forest) :
  tops_shrink a b -> tops_shrink b c -> tops_shrink a c.
Proof.
  unfold tops_shrink. intros H. revert c.
  induction H as [|x y l k Hxy _ IH]; intros c Hc; inversion Hc; subst;
    constructor; [etransitivity; eassumption | auto].
Qed.

Lemma tops_shrink_map (g : Forest -> Forest) (secs : list Forest) :
  (forall f, top_ids (g f) `sublist_of` top_ids f) ->
  tops_shrink (map g secs) secs.
Proof. intros Hg. induction secs; simpl; constructor; auto. Qed.

Lemma tops_shrink_appendTo (sources targets : list nat) :
  forall (secs : list Forest) (fresh : nat) (secs' : list Forest) (fresh' : nat),
    appendTo sources targets secs fresh = Some (secs', fresh') ->
    tops_shrink secs' secs.
Proof.
  induction targets as [|t ts IH]; intros secs fresh secs' fresh' Ha.
  - injection Ha as <- <-. apply tops_shrink_refl.
  - destruct ts as [|t2 ts].
    + cbn [appendTo] in Ha. unfold detach_all in Ha.
      destruct (fold_right _ _ _); [injection Ha as <- <-; apply tops_shrink_refl|].
      destruct (existsb _ _); [|discriminate].
      injection Ha as <- <-. rewrite map_map. apply tops_shrink_map.
      intros f. rewrite top_ids_insert_at, top_ids_detach. apply filter_sublist_nat.
    + cbn [appendTo] in Ha.
      destruct (renumber fresh (copies_all sources secs)) as [clones fresh1].
      apply IH in Ha. eapply tops_shrink_trans; [exact Ha|].
      apply tops_shrink_map. intros f. rewrite top_ids_insert_at. reflexivity.
Qed.

Lemma tops_shrink_each_body (e : Elem) (secs secs' : list Forest)
    (fresh fresh' : nat) :
  each_core e (secs, fresh) = Some (secs', fresh') ->
  tops_shrink secs' secs.
Proof.
  unfold each_core.
  destruct (truthy _); [|intros [= <- <-]; apply tops_shrink_refl].
  destruct (appendTo _ _ _ _) as [[secs2 fresh2]|] eqn:Ea; [|discriminate].
  intros [= <- <-].
  eapply tops_shrink_trans;
    [apply tops_shrink_map; intros f; rewrite top_ids_hide_at; reflexivity|].
  eapply tops_shrink_trans; [exact (tops_shrink_appendTo _ _ _ _ _ _ Ea)|].
  destruct (existsb _ _); [apply tops_shrink_refl|].
  apply tops_shrink_map. intros f. rewrite top_ids_add_icon_under. reflexivity.
Qed.

Lemma tops_shrink_each (l : list Elem) :
  forall (secs secs' : list Forest) (fresh fresh' : nat),
    each each_core l (secs, fresh) = Some (secs', fresh') ->
    tops_shrink secs' secs.
Proof.
  induction l as [|e l IH]; intros secs secs' fresh fresh' He.
  - injection He as <- <-. apply tops_shrink_refl.
  - cbn [each] in He.
    destruct (each_core e (secs, fresh)) as [[secs1 fresh1]|] eqn:Eb;
      [|discriminate].
    eapply tops_shrink_trans; [exact (IH _ _ _ _ He)|].
    exact (tops_shrink_each_body _ _ _ _ _ Eb).
Qed.

(** ** One click handler per toggle *)

Lemma mem_true (i : nat) (l : list nat) : mem i l = true <-> i ∈ l.
Proof.
  unfold mem. rewrite existsb_exists. split.
  - intros (x & Hx & E). apply Nat.eqb_eq in E. subst. apply list_elem_of_In. exact Hx.
  - intros H. exists i. split; [apply list_elem_of_In; exact H | apply Nat.eqb_refl].
Qed.

Lemma icon_bound_once_add_handler (e : Elem) :
  icon_as_appended e = true -> icon_bound_once (add_handler e) = true.
Proof.
  unfold icon_as_appended, icon_bound_once, add_handler.
  destruct (drop_icon e) as [ic|] eqn:E; simpl; [|rewrite E; reflexivity].
  intros H. apply andb_true_iff in H as [H1 H2].
  apply bool_decide_eq_true in H1. apply Nat.eqb_eq in H2.
  destruct ic as [h n]. simpl in *. subst. reflexivity.
Qed.

Lemma bind_under_inside (roots : list nat) (f : Forest) :
  forall_elems icon_as_appended f = true ->
  forall_elems icon_bound_once (bind_under true roots f) = true.
Proof.
  induction f as [|e k IHk n IHn]; simpl; [reflexivity|].
  intros H. apply andb_true_iff in H as [H Hn]. apply andb_true_iff in H as [He Hk].
  rewrite icon_bound_once_add_handler, IHk, IHn by assumption. reflexivity.
Qed.

Lemma bind_under_tops (roots : list nat) (f : Forest) :
  (forall i, i ∈ top_ids f -> i ∈ roots) ->
  forall_elems icon_as_appended f = true ->
  forall_elems icon_bound_once (bind_under false roots f) = true.
Proof.
  unfold top_ids. induction f as [|e k _ n IHn]; simpl; [reflexivity|].
  intros Hr H. apply andb_true_iff in H as [H Hn].
  apply andb_true_iff in H as [He Hk].
  assert (Hm : mem (el_id e) roots = true) by (apply mem_true, Hr; left).
  rewrite Hm, icon_bound_once_add_handler, bind_under_inside by assumption.
  rewrite IHn; [reflexivity| |assumption].
  intros i Hi. apply Hr. right. exact Hi.
Qed.

Lemma either_build_core (pages : list PageItem) (s : Sidebar)
    (secs : list Forest) :
  option_map sections (ListSidebar.make_sidebar_menu pages s) = Some secs
  \/ option_map sections (FormSidebar.make_sidebar_menu pages s) = Some secs ->
  option_map sections (build_core pages s) = Some secs.
Proof.
  intros [H|H].
  - destruct (ListSidebar.make_sidebar_menu pages s) as [s'|] eqn:E; [|discriminate].
    rewrite (list_build_core _ _ _ E). exact H.
  - destruct (FormSidebar.make_sidebar_menu pages s) as [s'|] eqn:E; [|discriminate].
    destruct (form_build_core _ _ _ E) as (r & Hr & Hs & _).
    rewrite Hr. simpl in *. rewrite Hs. exact H.
Qed.

Lemma icons_render_flat (i : nat) (pages : list PageItem) :
  forall_elems icon_as_appended (render_flat i pages) = true.
Proof.
  revert i. induction pages as [|p ps IH]; intros i; simpl; [reflexivity | apply IH].
Qed.

Lemma bind_sections (roots : list nat) (secs' secs : list Forest) :
  tops_shrink secs' secs ->
  (forall i, i ∈ flat_map top_ids secs -> i ∈ roots) ->
  forallb (forall_elems icon_as_appended) secs' = true ->
  forallb (forall_elems icon_bound_once) (map (bind_under false roots) secs') = true.
Proof.
  induction 1 as [|f' f secs' secs Hf _ IH]; intros Hr; [reflexivity|].
  simpl. rewrite !andb_true_iff. intros [Hf1 Hs1]. split.
  - apply bind_under_tops; [|assumption].
    intros i Hi. apply Hr. simpl. apply elem_of_app. left.
    eapply elem_of_sublist; [exact Hi | exact Hf].
  - apply IH; [|assumption].
    intros i Hi. apply Hr. simpl. apply elem_of_app. right. exact Hi.
Qed.

Lemma label_item_ids (secs : list Forest) :
  map el_id (label_items secs) = flat_map top_ids secs.
Proof.
  unfold label_items, top_ids. induction secs as [|f secs IH]; simpl; [reflexivity|].
  rewrite map_app, IH. reflexivity.
Qed.



(** ** The order of the top level *)

Lemma nodes_below_not_top (q : string) (k : Forest) :
  List.filter is_top (nodes (Some q) k) = [].
Proof.
  revert q. induction k as [|e k IHk n IHn]; intros q; simpl; [reflexivity|].
  rewrite List.filter_app, IHk, IHn. reflexivity.
Qed.

Lemma nodes_top (f : Forest) :
  List.filter is_top (nodes None f) = map unplaced (tops f).
Proof.
  induction f as [|e k _ n IHn]; simpl; [reflexivity|].
  rewrite List.filter_app, nodes_below_not_top, IHn. reflexivity.
Qed.

Lemma top_ids_bind_under (b : bool) (roots : list nat) (f : Forest) :
  top_ids (bind_under b roots f) = top_ids f.
Proof.
  unfold top_ids. revert b. induction f as [|e k _ n IHn]; intros b; simpl; [reflexivity|].
  rewrite IHn. destruct (b || mem (el_id e) roots); [|reflexivity].
  unfold add_handler. destruct (drop_icon e); reflexivity.
Qed.

Lemma StronglySorted_seq (i n : nat) : StronglySorted lt (seq i n).
Proof.
  revert i. induction n as [|n IH]; intros i; simpl; constructor; [apply IH|].
  apply Forall_forall. intros x Hx. apply list_elem_of_In, in_seq in Hx. lia.
Qed.

Lemma StronglySorted_sublist_lt (l k : list nat) :
  l `sublist_of` k -> StronglySorted lt k -> StronglySorted lt l.
Proof.
  induction 1 as [|x l k Hs IH|x l k Hs IH]; intros Hk; [constructor| |].
  - apply StronglySorted_inv in Hk as [Hk Hx]. constructor; [auto|].
    apply Forall_forall. intros y Hy. rewrite Forall_forall in Hx. apply Hx.
    eapply elem_of_sublist; eassumption.
  - apply StronglySorted_inv in Hk as [Hk _]. auto.
Qed.

Lemma StronglySorted_by_id (l : list (nat * string * option string)) :
  StronglySorted lt (map node_id l) -> StronglySorted by_id l.
Proof.
  induction l as [|t l IH]; simpl; intros H; [constructor|].
  apply StronglySorted_inv in H as [H Ht]. constructor; [auto|].
  apply Forall_forall. intros y Hy. rewrite Forall_forall in Ht.
  apply Ht. apply list_elem_of_In, in_map, list_elem_of_In. exact Hy.
Qed.

Lemma sorted_perm_by_id (l k : list (nat * string * option string)) :
  StronglySorted lt (map node_id l) -> StronglySorted lt (map node_id k) ->
  l ≡ₚ k -> l = k.
Proof.
  intros Hl Hk. apply (StronglySorted_unique_strong by_id);
    [|apply StronglySorted_by_id; assumption..].
  unfold by_id. intros x y _ _ H1 H2. lia.
Qed.

Lemma filter_map_sublist (P : nat * string * option string -> bool)
    (l : list (nat * string * option string)) :
  map node_id (List.filter P l) `sublist_of` map node_id l.
Proof.
  induction l as [|x l IH]; simpl; [constructor|].
  destruct (P x); simpl; [apply sublist_skip | apply sublist_cons]; assumption.
Qed.

Lemma placed_top_names (names : list string) (i : nat) (pages : list PageItem) :
  map node_name (List.filter is_top (map (placed names) (rendered i pages)))
  = map name_text (List.filter (stays_on_top names) pages).
Proof.
  assert (Htop : forall j p, is_top (placed names (sidebar_item_container j p))
                             = stays_on_top names p).
  { intros j p. unfold is_top, placed, stays_on_top, node_up. simpl.
    change (template (parent_page p)) with (parent_text p).
    destruct (parent_set (parent_text p) && bool_decide (parent_text p ∈ names));
      reflexivity. }
  revert i. induction pages as [|p ps IH]; intros i; [reflexivity|].
  cbn [rendered map List.filter]. rewrite Htop.
  destruct (stays_on_top names p); cbn [map]; rewrite IH; reflexivity.
Qed.





(** ** One round of the loop, on the tree *)

Lemma top_node_has_id (i : nat) (f : Forest) (e : Elem) (k : Forest) :
  top_node i f = Some (e, k) ->
  el_id e = i /\ has_id i f = true
  /\ (forall up, (i, data_name e, up) ∈ nodes up f).
Proof.
  induction f as [|e0 k0 _ n0 IH]; simpl; [discriminate|].
  destruct (Nat.eqb (el_id e0) i) eqn:E.
  - intros [= <- <-]. apply Nat.eqb_eq in E. subst i.
    split; [reflexivity|]. split; [reflexivity|]. intros up. left.
  - intros H. destruct (IH H) as (H1 & H2 & H3). split; [assumption|].
    split; [rewrite H2; apply orb_true_r|].
    intros up. right. apply elem_of_app. right. apply H3.
Qed.

(** Detaching a top-level element takes it out of the row of its siblings
    and leaves everything else in place. *)
Lemma detach_top (i : nat) (up : option string) (f : Forest) (e : Elem)
    (k : Forest) :
  NoDup (map node_id (nodes up f)) ->
  top_node i f = Some (e, k) ->
  detach [i] f = (remove_top i f, FNode e k FNil).
Proof.
  revert up. induction f as [|e0 k0 _ n0 IH]; intros up Hnd Ht; [discriminate|].
  destruct (NoDup_ids_node up e0 k0 n0 Hnd) as (Hek & Hen & _ & Hndn & Hdis).
  simpl in Ht |- *. unfold mem. simpl existsb. rewrite orb_false_r.
  destruct (Nat.eqb (el_id e0) i) eqn:E.
  - injection Ht as <- <-. apply Nat.eqb_eq in E. subst i.
    rewrite (detach_absent _ _ Hek), (detach_absent _ _ Hen). reflexivity.
  - assert (Hin : has_id i n0 = true) by (apply (top_node_has_id i n0 e k Ht)).
    assert (Hik : has_id i k0 = false).
    { destruct (has_id i k0) eqn:Ek; [|reflexivity]. destruct (Hdis i Ek Hin). }
    rewrite (detach_absent _ _ Hik), (IH up Hndn Ht). reflexivity.
Qed.

Lemma top_node_of_entry (i : nat) (n : string) (f : Forest) :
  NoDup (map node_id (nodes None f)) ->
  (i, n, None) ∈ nodes None f ->
  exists e k, top_node i f = Some (e, k) /\ data_name e = n.
Proof.
  intros Hnd Hin.
  assert (Htop : (i, n, None) ∈ map unplaced (tops f)).
  { rewrite <- nodes_top. apply list_elem_of_In, filter_In.
    split; [apply list_elem_of_In; exact Hin | reflexivity]. }
  assert (Hex : exists e k, top_node i f = Some (e, k)).
  { clear Hnd Hin. induction f as [|e0 k0 _ n0 IH]; simpl in *; [inversion Htop|].
    destruct (Nat.eqb (el_id e0) i) eqn:E; [eauto|].
    apply elem_of_cons in Htop as [Htop|Htop]; [|auto].
    injection Htop as Hi _. apply Nat.eqb_neq in E. congruence. }
  destruct Hex as (e & k & Ht). exists e, k. split; [exact Ht|].
  destruct (top_node_has_id i f e k Ht) as (_ & _ & He).
  pose proof (node_by_id (nodes None f) _ _ Hnd (He None) Hin eq_refl) as Heq.
  congruence.
Qed.

Lemma hide_at_nil (f : Forest) : hide_at [] f = f.
Proof. induction f as [|e k IHk n IHn]; simpl; [reflexivity | rewrite IHk, IHn; reflexivity]. Qed.

Lemma icon_under_absent (key : string) (f : Forest) :
  find_named key f = [] -> icon_under false key f = false.
Proof.
  induction f as [|e k IHk n IHn]; simpl; [reflexivity|].
  destruct (named key e); simpl; [discriminate|].
  intros H. apply app_eq_nil in H as [Hk Hn]. rewrite IHk, IHn by assumption.
  reflexivity.
Qed.

Lemma add_icon_under_absent (key : string) (ic : DropIcon) (f : Forest) :
  find_named key f = [] -> add_icon_under false key ic f = f.
Proof.
  induction f as [|e k IHk n IHn]; simpl; [reflexivity|].
  destruct (named key e); simpl; [discriminate|].
  intros H. apply app_eq_nil in H as [Hk Hn]. rewrite IHk, IHn by assumption.
  reflexivity.
Qed.

Section ReparentShape.

Variable els : list Elem.

Hypothesis els_ids : NoDup (map el_id els).
Hypothesis els_names : NoDup (map data_name els).
Hypothesis els_acyclic : acyclic parent_set (elem_links els).

Local Abbreviation layout := (layout_of (map data_name els)).

(** In a menu with distinct names one round of the loop is [move_under], or
    nothing when the parent reference is not set or names no element. *)
Lemma each_body_shape (done todo : list Elem) (e : Elem) (f : Forest) (fresh : nat) :
  els = (done ++ e :: todo)%list ->
  nodes None f ≡ₚ layout done (e :: todo) ->
  exists f',
    each_core e ([f], fresh) = Some ([f'], fresh)
    /\ nodes None f' ≡ₚ layout (done ++ [e]) todo
    /\ (f' = f
        \/ exists tq, tq ∈ layout done (e :: todo)
             /\ node_name tq = data_parent e
             /\ node_id tq <> el_id e
             /\ find_named (data_parent e) f = [node_id tq]
             /\ has_id (node_id tq)
                  (remove_top (el_id e) (with_icon (data_parent e) f)) = true
             /\ f' = move_under (el_id e) (node_id tq) (data_parent e) f).
Proof.
  intros Hels Hp.
  destruct (each_body_step els els_ids els_names els_acyclic done todo e f fresh Hels Hp)
    as (f' & Hb & Hp').
  exists f'. split; [exact Hb|]. split; [exact Hp'|].
  assert (HidL : NoDup (map node_id (layout done (e :: todo)))).
  { rewrite layout_ids, <- Hels. exact els_ids. }
  assert (HnmL : NoDup (map node_name (layout done (e :: todo)))).
  { rewrite layout_names, <- Hels. exact els_names. }
  assert (HeL : unplaced e ∈ layout done (e :: todo)).
  { unfold layout_of. apply elem_of_app. right. left. }
  unfold each_core in Hb. rewrite !template_jq_data in Hb.
  fold (parent_set (data_parent e)) in Hb.
  destruct (parent_set (data_parent e)) eqn:Eps;
    [|left; injection Hb as <-; reflexivity].
  unfold find_all in Hb. simpl flat_map in Hb. rewrite !app_nil_r in Hb.
  rewrite (find_named_unique f _ (unplaced e) Hp HnmL HeL
           : find_named (data_name e) f = [el_id e]) in Hb.
  destruct (decide (data_parent e ∈ map data_name els)) as [Hin|Hnin].
  2:{ left.
      assert (Hq : find_named (data_parent e) f = []).
      { apply (find_named_absent f _ (data_parent e) Hp).
        rewrite layout_names, <- Hels. assumption. }
      rewrite Hq in Hb. simpl in Hb. rewrite (icon_under_absent _ _ Hq) in Hb.
      simpl in Hb. rewrite (add_icon_under_absent _ _ _ Hq), hide_at_nil in Hb.
      injection Hb as <-. reflexivity. }
  right.
  assert (Htq : exists tq, tq ∈ layout done (e :: todo)
                           /\ node_name tq = data_parent e).
  { rewrite Hels, <- (layout_names els) in Hin.
    apply list_elem_of_In, in_map_iff in Hin as (tq & Hn & Hq).
    exists tq. split; [apply list_elem_of_In|]; assumption. }
  destruct Htq as (tq & HtqL & Hnq).
  assert (Hfq : find_named (data_parent e) f = [node_id tq]).
  { rewrite <- Hnq. exact (find_named_unique f _ tq Hp HnmL HtqL). }
  exists tq. split; [exact HtqL|]. split; [exact Hnq|].
  assert (Hne : node_id tq <> el_id e).
  { intros Heq.
    pose proof (node_by_id _ tq (unplaced e) HidL HtqL HeL Heq) as Ht.
    apply (els_acyclic (data_name e)).
    assert (Hn : data_parent e = data_name e) by (rewrite <- Hnq, Ht; reflexivity).
    rewrite <- Hn at 2. apply ancestor_parent; [|exact Eps].
    unfold elem_links. apply list_elem_of_In, in_map_iff. exists e.
    split; [reflexivity|]. rewrite Hels. apply in_or_app. right. left. reflexivity. }
  split; [exact Hne|]. split; [exact Hfq|].
  rewrite Hfq in Hb. unfold move_under.
  simpl existsb in Hb. rewrite orb_false_r in Hb.
  unfold with_icon.
  set (g := if icon_under false (data_parent e) f then f
            else add_icon_under false (data_parent e) itemparentbtn f) in *.
  assert (Hsecs : (if icon_under false (data_parent e) f then [f]
                   else map (add_icon_under false (data_parent e) itemparentbtn) [f])
                  = [g]).
  { subst g. destruct (icon_under false (data_parent e) f); reflexivity. }
  rewrite Hsecs in Hb. clear Hsecs.
  assert (Hng : nodes None g = nodes None f).
  { subst g. destruct (icon_under false (data_parent e) f);
      [reflexivity | apply nodes_add_icon_under]. }
  assert (Hndg : NoDup (map node_id (nodes None g))).
  { rewrite Hng, Hp. exact HidL. }
  destruct (top_node_of_entry (el_id e) (data_name e) g Hndg) as (e' & k & Ht & _).
  { rewrite Hng, Hp. exact HeL. }
  rewrite Ht.
  simpl appendTo in Hb. unfold detach_all in Hb. simpl in Hb.
  rewrite (detach_top _ None g e' k Hndg Ht) in Hb. simpl in Hb.
  destruct (has_id (node_id tq) (remove_top (el_id e) g)); simpl in Hb;
    [|discriminate Hb].
  split; [reflexivity|]. injection Hb as <-. reflexivity.
Qed.

End ReparentShape.

(** ** A toggle exactly on the items that have children *)

Lemma forall_nodes_impl (P Q : Elem -> bool -> bool) (f : Forest) :
  (forall e b, P e b = true -> Q e b = true) ->
  forall_nodes P f = true -> forall_nodes Q f = true.
Proof.
  intros H. induction f as [|e k IHk n IHn]; simpl; [reflexivity|].
  intros Hf. apply andb_true_iff in Hf as [Hf Hn].
  apply andb_true_iff in Hf as [He Hk].
  rewrite (H _ _ He), (IHk Hk), (IHn Hn). reflexivity.
Qed.

Lemma forall_nodes_and (P Q : Elem -> bool -> bool) (f : Forest) :
  forall_nodes P f = true -> forall_nodes Q f = true ->
  forall_nodes (fun e b => P e b && Q e b) f = true.
Proof.
  induction f as [|e k IHk n IHn]; simpl; [reflexivity|].
  intros Hp Hq.
  apply andb_true_iff in Hp as [Hp Hpn]. apply andb_true_iff in Hp as [Hpe Hpk].
  apply andb_true_iff in Hq as [Hq Hqn]. apply andb_true_iff in Hq as [Hqe Hqk].
  rewrite Hpe, Hqe, (IHk Hpk Hqk), (IHn Hpn Hqn). reflexivity.
Qed.

Lemma forall_nodes_fapp (P : Elem -> bool -> bool) (f g : Forest) :
  forall_nodes P (fapp f g) = forall_nodes P f && forall_nodes P g.
Proof.
  induction f as [|e k _ n IH]; simpl; [reflexivity|].
  rewrite IH, !andb_assoc. reflexivity.
Qed.

Lemma is_empty_fapp (f g : Forest) :
  is_empty (fapp f g) = is_empty f && is_empty g.
Proof. destruct f; reflexivity. Qed.

Lemma is_empty_add_icon_under (b : bool) (q : string) (ic : DropIcon) (f : Forest) :
  is_empty (add_icon_under b q ic f) = is_empty f.
Proof. destruct f; reflexivity. Qed.

Lemma is_empty_hide_insert (j : nat) (frag f : Forest) :
  is_empty (hide_at [j] (insert_at j frag f)) = is_empty f.
Proof. destruct f as [|e k n]; simpl; [reflexivity|]. destruct (Nat.eqb (el_id e) j); reflexivity. Qed.

Lemma is_empty_bind_under (b : bool) (roots : list nat) (f : Forest) :
  is_empty (bind_under b roots f) = is_empty f.
Proof. destruct f; reflexivity. Qed.

Lemma has_id_fapp_or (i : nat) (f g : Forest) :
  has_id i (fapp f g) = has_id i f || has_id i g.
Proof.
  induction f as [|e k _ n IH]; simpl; [reflexivity|].
  rewrite IH, !orb_assoc. reflexivity.
Qed.

Lemma hide_at_absent (j : nat) (f : Forest) :
  has_id j f = false -> hide_at [j] f = f.
Proof.
  induction f as [|e k IHk n IHn]; simpl; [reflexivity|].
  rewrite !orb_false_iff. intros [[He Hk] Hn].
  unfold mem. simpl. rewrite He, (IHk Hk), (IHn Hn). reflexivity.
Qed.

Lemma toggle_but_absent (q : string) (f : Forest) :
  find_named q f = [] ->
  forall_nodes (toggle_ok_but q) f = forall_nodes toggle_ok f.
Proof.
  induction f as [|e k IHk n IHn]; simpl; [reflexivity|].
  unfold toggle_ok_but at 1. destruct (named q e); simpl; [discriminate|].
  intros H. apply app_eq_nil in H as [Hk Hn]. rewrite (IHk Hk), (IHn Hn).
  reflexivity.
Qed.

Lemma toggle_but_id_absent (j : nat) (f : Forest) :
  has_id j f = false ->
  forall_nodes (toggle_ok_but_id j) f = forall_nodes toggle_ok f.
Proof.
  induction f as [|e k IHk n IHn]; simpl; [reflexivity|].
  rewrite !orb_false_iff. intros [[He Hk] Hn].
  unfold toggle_ok_but_id at 1. rewrite He, (IHk Hk), (IHn Hn). reflexivity.
Qed.

(** A parent that has children, and so a toggle by the invariant, passes the
    test for an existing drop icon. *)
Lemma icon_found_toggles (q : string) (j : nat) (f : Forest) :
  forall_nodes toggle_ok f = true -> find_named q f = [j] ->
  icon_under false q f = true ->
  forall_nodes (toggle_ok_but q) f = true.
Proof.
  induction f as [|e k IHk n IHn]; simpl; [reflexivity|].
  intros H Hf Hi.
  apply andb_true_iff in H as [H Hn]. apply andb_true_iff in H as [He Hk].
  unfold toggle_ok_but at 1. destruct (named q e) eqn:En; simpl in Hf, Hi.
  - injection Hf as _ Hf. apply app_eq_nil in Hf as [Hfk Hfn].
    rewrite (toggle_but_absent _ _ Hfk), (toggle_but_absent _ _ Hfn), Hk, Hn.
    rewrite (icon_under_absent _ _ Hfn), orb_false_r in Hi.
    unfold toggle_ok in He. unfold has_toggle in He |- *.
    destruct (bool_decide (is_Some (drop_icon e))); [reflexivity|].
    simpl in Hi. destruct k; [discriminate Hi | discriminate He].
  - rewrite He. simpl.
    apply app_eq_unit in Hf as [[Hfk Hfn]|[Hfk Hfn]].
    + rewrite (icon_under_absent _ _ Hfk) in Hi. simpl in Hi.
      rewrite (toggle_but_absent _ _ Hfk), Hk, (IHn Hn Hfn Hi). reflexivity.
    + rewrite (icon_under_absent _ _ Hfn), orb_false_r in Hi.
      rewrite (toggle_but_absent _ _ Hfn), Hn, (IHk Hk Hfk Hi). reflexivity.
Qed.

(** A parent without a drop icon at or below it has no children yet, and
    the icon goes to this parent alone. *)
Lemma icon_added_toggles (q : string) (j : nat) (ic : DropIcon) (f : Forest) :
  forall_nodes toggle_ok f = true -> find_named q f = [j] ->
  icon_under false q f = false ->
  forall_nodes (toggle_ok_but q) (add_icon_under false q ic f) = true.
Proof.
  induction f as [|e k IHk n IHn]; simpl; [reflexivity|].
  intros H Hf Hi.
  apply andb_true_iff in H as [H Hn]. apply andb_true_iff in H as [He Hk].
  apply orb_false_iff in Hi as [Hi Hin]. apply orb_false_iff in Hi as [Hie Hik].
  destruct (named q e) eqn:En; simpl in Hf, Hie, Hik |- *.
  - injection Hf as _ Hf. apply app_eq_nil in Hf as [Hfk Hfn].
    rewrite (add_icon_under_absent _ _ _ Hfn), (toggle_but_absent _ _ Hfn), Hn.
    unfold toggle_ok, has_toggle in He. rewrite Hie in He.
    destruct k; [|discriminate He]. simpl.
    unfold toggle_ok_but. unfold named in En |- *. simpl. rewrite En. reflexivity.
  - rewrite is_empty_add_icon_under. unfold toggle_ok_but at 1. rewrite En, He.
    simpl.
    apply app_eq_unit in Hf as [[Hfk Hfn]|[Hfk Hfn]].
    + rewrite (add_icon_under_absent _ _ _ Hfk), (toggle_but_absent _ _ Hfk), Hk.
      rewrite (IHn Hn Hfn Hin). reflexivity.
    + rewrite (add_icon_under_absent _ _ _ Hfn), (toggle_but_absent _ _ Hfn), Hn.
      rewrite (IHk Hk Hfk Hik). reflexivity.
Qed.

Lemma with_icon_toggles (q : string) (j : nat) (f : Forest) :
  forall_nodes toggle_ok f = true -> find_named q f = [j] ->
  forall_nodes (toggle_ok_but q) (with_icon q f) = true.
Proof.
  intros H Hf. unfold with_icon. destruct (icon_under false q f) eqn:Hi.
  - exact (icon_found_toggles q j f H Hf Hi).
  - exact (icon_added_toggles q j _ f H Hf Hi).
Qed.

Lemma nodes_with_icon (up : option string) (q : string) (f : Forest) :
  nodes up (with_icon q f) = nodes up f.
Proof.
  unfold with_icon. destruct (icon_under false q f);
    [reflexivity | apply nodes_add_icon_under].
Qed.

Lemma forall_nodes_of_nodes (r : nat -> string -> bool) (up : option string)
    (f : Forest) :
  (forall x, x ∈ nodes up f -> r (node_id x) (node_name x) = true) ->
  forall_nodes (fun e _ => r (el_id e) (data_name e)) f = true.
Proof.
  revert up. induction f as [|e k IHk n IHn]; intros up H; simpl; [reflexivity|].
  simpl in H.
  rewrite (H (el_id e, data_name e, up) ltac:(left)
           : r (el_id e) (data_name e) = true).
  rewrite (IHk (Some (data_name e))), (IHn up); [reflexivity| |].
  - intros x Hx. apply H. right. apply elem_of_app. right. exact Hx.
  - intros x Hx. apply H. right. apply elem_of_app. left. exact Hx.
Qed.

(** With distinct identities, the one element a name is found at is the
    only one of that name. *)
Lemma name_of_found (q : string) (j : nat) (up : option string) (f : Forest) :
  NoDup (map node_id (nodes up f)) -> find_named q f = [j] ->
  forall_nodes (name_of q j) f = true.
Proof.
  intros Hnd Hf.
  pose (r := fun (i : nat) (n : string) =>
               Bool.eqb (bool_decide (n = q)) (Nat.eqb i j)).
  apply (forall_nodes_of_nodes r up).
  intros x Hx. unfold r. rewrite (find_named_nodes q up) in Hf.
  destruct (List.filter _ (nodes up f)) as [|t [|? ?]] eqn:Efil;
    try discriminate Hf.
  injection Hf as Hj.
  assert (Ht : t ∈ nodes up f /\ node_name t = q).
  { assert (Hin : In t (List.filter (fun t => bool_decide (node_name t = q))
                          (nodes up f))) by (rewrite Efil; left; reflexivity).
    apply filter_In in Hin as [Hin Hq]. split; [apply list_elem_of_In; exact Hin|].
    apply bool_decide_eq_true_1 in Hq. exact Hq. }
  destruct Ht as [Htin Htq].
  case_bool_decide as Hq.
  - assert (Hin : In x (List.filter (fun t => bool_decide (node_name t = q))
                          (nodes up f))).
    { apply filter_In. split; [apply list_elem_of_In; exact Hx|].
      apply bool_decide_eq_true_2. exact Hq. }
    rewrite Efil in Hin. destruct Hin as [<-|[]].
    rewrite Hj, Nat.eqb_refl. reflexivity.
  - destruct (Nat.eqb (node_id x) j) eqn:E; [|reflexivity].
    apply Nat.eqb_eq in E. exfalso. apply Hq.
    rewrite (node_by_id _ x t Hnd Hx Htin) by congruence. exact Htq.
Qed.

Lemma top_node_forall (P : Elem -> bool -> bool) (i : nat) (f : Forest)
    (e : Elem) (k : Forest) :
  forall_nodes P f = true -> top_node i f = Some (e, k) ->
  forall_nodes P (remove_top i f) = true
  /\ P e (is_empty k) = true /\ forall_nodes P k = true.
Proof.
  induction f as [|e0 k0 _ n0 IH]; simpl; [discriminate|].
  intros H Ht.
  apply andb_true_iff in H as [H Hn]. apply andb_true_iff in H as [He Hk].
  destruct (Nat.eqb (el_id e0) i).
  - injection Ht as <- <-. auto.
  - destruct (IH Hn Ht) as (H1 & H2 & H3). simpl. rewrite He, Hk, H1. auto.
Qed.

Lemma nodes_remove_top (i : nat) (up : option string) (f : Forest) :
  nodes up (remove_top i f) `sublist_of` nodes up f.
Proof.
  induction f as [|e k _ n IH]; simpl; [constructor|].
  destruct (Nat.eqb (el_id e) i); simpl.
  - apply sublist_cons, sublist_inserts_l. reflexivity.
  - apply sublist_skip, sublist_app; [reflexivity | exact IH].
Qed.

Lemma sublist_map_ids (l1 l2 : list (nat * string * option string)) :
  l1 `sublist_of` l2 -> map node_id l1 `sublist_of` map node_id l2.
Proof.
  induction 1; simpl; [constructor | apply sublist_skip | apply sublist_cons];
    assumption.
Qed.

Lemma top_node_below (i j : nat) (f : Forest) (e : Elem) (k : Forest) :
  top_node i f = Some (e, k) -> has_id j k = true -> has_id j f = true.
Proof.
  induction f as [|e0 k0 _ n0 IH]; simpl; [discriminate|].
  destruct (Nat.eqb (el_id e0) i).
  - intros [= <- <-] H. rewrite H. rewrite orb_true_r. reflexivity.
  - intros Ht H. rewrite (IH Ht H). apply orb_true_r.
Qed.

(** What stays after a top-level element is taken out has nothing in common
    with the element and its subtree. *)
Lemma remove_top_disjoint (i j : nat) (up : option string) (f : Forest)
    (e : Elem) (k : Forest) :
  NoDup (map node_id (nodes up f)) ->
  top_node i f = Some (e, k) ->
  has_id j (remove_top i f) = true ->
  j <> i /\ has_id j k = false.
Proof.
  induction f as [|e0 k0 _ n0 IH]; intros Hnd Ht Hj; [discriminate|].
  destruct (NoDup_ids_node up e0 k0 n0 Hnd) as (Hek & Hen & _ & Hndn & Hdis).
  simpl in Ht, Hj. destruct (Nat.eqb (el_id e0) i) eqn:E.
  - injection Ht as <- <-. apply Nat.eqb_eq in E. subst i. split.
    + intros ->. rewrite Hen in Hj. discriminate.
    + destruct (has_id j k0) eqn:Ek; [|reflexivity]. destruct (Hdis j Ek Hj).
  - simpl in Hj. apply orb_true_iff in Hj as [Hj|Hj];
      [apply orb_true_iff in Hj as [Hj|Hj]|].
    + apply Nat.eqb_eq in Hj. subst j. split.
      * intros Heq. rewrite Heq, Nat.eqb_refl in E. discriminate.
      * destruct (has_id (el_id e0) k) eqn:Ek; [|reflexivity].
        rewrite (top_node_below _ _ _ _ _ Ht Ek) in Hen. discriminate.
    + split.
      * intros ->. destruct (top_node_has_id _ _ _ _ Ht) as (_ & Hin & _).
        exact (Hdis _ Hj Hin).
      * destruct (has_id j k) eqn:Ek; [|reflexivity].
        destruct (Hdis j Hj (top_node_below _ _ _ _ _ Ht Ek)).
    + exact (IH Hndn Ht Hj).
Qed.

(** Appending a fragment that is in order to the element that was exempt
    puts the whole tree in order. *)
Lemma insert_hide_toggles (j : nat) (frag : Forest) :
  forall_nodes toggle_ok frag = true -> is_empty frag = false ->
  has_id j frag = false ->
  forall (rest : Forest) (up : option string),
    NoDup (map node_id (nodes up rest)) ->
    forall_nodes (toggle_ok_but_id j) rest = true ->
    forall_nodes toggle_ok (hide_at [j] (insert_at j frag rest)) = true.
Proof.
  intros Hfrag Hne Hjf.
  induction rest as [|e k IHk n IHn]; intros up Hnd H; [reflexivity|].
  destruct (NoDup_ids_node up e k n Hnd) as (Hek & Hen & Hndk & Hndn & _).
  simpl in H. apply andb_true_iff in H as [H Hn].
  apply andb_true_iff in H as [He Hk]. unfold toggle_ok_but_id in He.
  cbn [insert_at]. destruct (Nat.eqb (el_id e) j) eqn:E.
  - apply Nat.eqb_eq in E. subst j.
    rewrite (insert_at_absent _ _ _ Hen). cbn [hide_at]. unfold mem. simpl existsb.
    rewrite Nat.eqb_refl. simpl orb.
    rewrite (hide_at_absent _ _ Hen), hide_at_absent
      by (rewrite has_id_fapp_or, Hek, Hjf; reflexivity).
    cbn [forall_nodes]. rewrite forall_nodes_fapp, is_empty_fapp, Hne, andb_false_r.
    rewrite (toggle_but_id_absent _ _ Hek) in Hk.
    rewrite (toggle_but_id_absent _ _ Hen) in Hn.
    rewrite Hk, Hn, Hfrag. unfold toggle_ok, has_toggle in *. simpl.
    rewrite He. reflexivity.
  - cbn [hide_at]. unfold mem. simpl existsb. rewrite E. simpl orb.
    cbn [forall_nodes]. rewrite is_empty_hide_insert, He.
    rewrite (IHk _ Hndk Hk), (IHn _ Hndn Hn). reflexivity.
Qed.

(** One round of the loop keeps the invariant. *)
Lemma move_under_toggles (i j : nat) (q : string) (f : Forest) :
  forall_nodes toggle_ok f = true ->
  NoDup (map node_id (nodes None f)) ->
  find_named q f = [j] ->
  has_id j (remove_top i (with_icon q f)) = true ->
  forall_nodes toggle_ok (move_under i j q f) = true.
Proof.
  intros H Hnd Hf Hj. unfold move_under.
  destruct (top_node i (with_icon q f)) as [[e k]|] eqn:Ht; [|exact H].
  assert (Hndg : NoDup (map node_id (nodes None (with_icon q f)))).
  { rewrite nodes_with_icon. exact Hnd. }
  assert (Hfg : find_named q (with_icon q f) = [j]).
  { rewrite (find_named_nodes q None), nodes_with_icon, <- (find_named_nodes q None).
    exact Hf. }
  assert (Hid : forall_nodes (toggle_ok_but_id j) (with_icon q f) = true).
  { apply (forall_nodes_impl (fun e b => toggle_ok_but q e b && name_of q j e b)).
    - intros e0 b. unfold toggle_ok_but, name_of, toggle_ok_but_id.
      destruct (named q e0), (Nat.eqb (el_id e0) j); simpl;
        rewrite ?andb_true_r, ?andb_false_r; auto; discriminate.
    - apply forall_nodes_and;
        [exact (with_icon_toggles q j f H Hf) | exact (name_of_found q j None _ Hndg Hfg)]. }
  destruct (top_node_forall _ _ _ _ _ Hid Ht) as (Hrest & He & Hk).
  destruct (remove_top_disjoint _ _ _ _ _ _ Hndg Ht Hj) as [Hne Hjk].
  destruct (top_node_has_id _ _ _ _ Ht) as (Hei & _ & _).
  assert (Hej : Nat.eqb (el_id e) j = false).
  { apply Nat.eqb_neq. congruence. }
  apply (insert_hide_toggles j (FNode e k FNil)) with (up := None).
  - simpl. unfold toggle_ok_but_id in He. rewrite Hej in He.
    rewrite (toggle_but_id_absent _ _ Hjk) in Hk. rewrite He, Hk. reflexivity.
  - reflexivity.
  - simpl. rewrite Hej, Hjk. reflexivity.
  - eapply sublist_NoDup; [exact Hndg | apply sublist_map_ids, nodes_remove_top].
  - exact Hrest.
Qed.

(** The whole loop keeps it. *)
Lemma each_toggles (els : list Elem) :
  NoDup (map el_id els) -> NoDup (map data_name els) ->
  acyclic parent_set (elem_links els) ->
  forall (todo done : list Elem) (f : Forest) (fresh : nat),
    els = (done ++ todo)%list ->
    nodes None f ≡ₚ layout_of (map data_name els) done todo ->
    forall_nodes toggle_ok f = true ->
    exists f',
      each each_core todo ([f], fresh) = Some ([f'], fresh)
      /\ forall_nodes toggle_ok f' = true.
Proof.
  intros Hids Hnames Hac.
  induction todo as [|e todo IH]; intros done f fresh Hels Hp H.
  - exists f. split; [reflexivity | exact H].
  - destruct (each_body_shape els Hids Hnames Hac done todo e f fresh Hels Hp)
      as (f1 & Hb & Hp1 & Hcase).
    assert (H1 : forall_nodes toggle_ok f1 = true).
    { destruct Hcase as [->|(tq & _ & _ & _ & Hfq & Hj & ->)]; [exact H|].
      apply move_under_toggles; try assumption.
      rewrite Hp, layout_ids, <- Hels. exact Hids. }
    destruct (IH (done ++ [e])%list f1 fresh) as (f' & He & H').
    + rewrite <- app_assoc. exact Hels.
    + exact Hp1.
    + exact H1.
    + exists f'. split; [|exact H']. cbn [each]. rewrite Hb. exact He.
Qed.

Lemma toggles_render_flat (i : nat) (pages : list PageItem) :
  forall_nodes toggle_ok (render_flat i pages) = true.
Proof.
  revert i. induction pages as [|p ps IH]; intros i; simpl; [reflexivity | apply IH].
Qed.

Lemma toggles_bind_under (b : bool) (roots : list nat) (f : Forest) :
  forall_nodes toggle_ok (bind_under b roots f) = forall_nodes toggle_ok f.
Proof.
  revert b. induction f as [|e k IHk n IHn]; intros b; simpl; [reflexivity|].
  rewrite is_empty_bind_under, IHk, IHn.
  assert (Hh : has_toggle (add_handler e) = has_toggle e).
  { unfold has_toggle, add_handler. destruct (drop_icon e) eqn:E; simpl;
      [reflexivity | rewrite E; reflexivity]. }
  unfold toggle_ok. destruct (b || mem (el_id e) roots); rewrite ?Hh; reflexivity.
Qed.



(** ** Children in the order of the pages *)

Lemma top_ids_fapp (f g : Forest) :
  top_ids (fapp f g) = (top_ids f ++ top_ids g)%list.
Proof.
  unfold top_ids. induction f as [|e k _ n IH]; simpl; [reflexivity|].
  rewrite IH. reflexivity.
Qed.

Lemma kids_sorted_fapp (f g : Forest) :
  kids_sorted f -> kids_sorted g -> kids_sorted (fapp f g).
Proof.
  induction f as [|e k _ n IH]; simpl; [auto|].
  intros (H1 & H2 & H3) Hg. auto.
Qed.

Lemma kids_sorted_hide_at (ids : list nat) (f : Forest) :
  kids_sorted (hide_at ids f) = kids_sorted f.
Proof.
  induction f as [|e k IHk n IHn]; simpl; [reflexivity|].
  rewrite top_ids_hide_at, IHk, IHn. reflexivity.
Qed.

Lemma kids_sorted_add_icon_under (b : bool) (q : string) (ic : DropIcon)
    (f : Forest) :
  kids_sorted (add_icon_under b q ic f) = kids_sorted f.
Proof.
  revert b. induction f as [|e k IHk n IHn]; intros b; simpl; [reflexivity|].
  rewrite top_ids_add_icon_under, IHk, IHn. reflexivity.
Qed.

Lemma kids_sorted_bind_under (b : bool) (roots : list nat) (f : Forest) :
  kids_sorted (bind_under b roots f) = kids_sorted f.
Proof.
  revert b. induction f as [|e k IHk n IHn]; intros b; simpl; [reflexivity|].
  rewrite top_ids_bind_under, IHk, IHn. reflexivity.
Qed.

Lemma kids_sorted_with_icon (q : string) (f : Forest) :
  kids_sorted (with_icon q f) = kids_sorted f.
Proof.
  unfold with_icon. destruct (icon_under false q f);
    [reflexivity | apply kids_sorted_add_icon_under].
Qed.

Lemma top_node_sorted (i : nat) (f : Forest) (e : Elem) (k : Forest) :
  kids_sorted f -> top_node i f = Some (e, k) ->
  kids_sorted (remove_top i f) /\ StronglySorted lt (top_ids k) /\ kids_sorted k.
Proof.
  induction f as [|e0 k0 _ n0 IH]; simpl; [discriminate|].
  intros (H1 & H2 & H3) Ht. destruct (Nat.eqb (el_id e0) i).
  - injection Ht as <- <-. auto.
  - destruct (IH H3 Ht) as (H4 & H5 & H6). simpl. auto.
Qed.

Lemma tops_in_nodes (up : option string) (f : Forest) (c : Elem) :
  c ∈ tops f -> (el_id c, data_name c, up) ∈ nodes up f.
Proof.
  induction f as [|e k _ n IH]; simpl; intros H; [inversion H|].
  apply elem_of_cons in H as [->|H]; [left|].
  right. apply elem_of_app. right. auto.
Qed.

Lemma StronglySorted_snoc (l : list nat) (i : nat) :
  StronglySorted lt l -> (forall c, c ∈ l -> c < i) ->
  StronglySorted lt (l ++ [i]).
Proof.
  induction l as [|a l IH]; simpl; intros Hs Hlt.
  - repeat constructor.
  - apply StronglySorted_inv in Hs as [Hs Ha]. constructor.
    + apply IH; [exact Hs|]. intros c Hc. apply Hlt. right. exact Hc.
    + apply Forall_app. split; [exact Ha|].
      constructor; [|constructor]. apply Hlt. left.
Qed.

(** A fragment whose one top-level element comes after everything already
    nested goes to the end of its parent's children and leaves every nested
    container in order. *)
Lemma insert_sorted (j i : nat) (frag : Forest) :
  top_ids frag = [i] -> kids_sorted frag ->
  forall (rest : Forest) (up : option string),
    kids_sorted rest ->
    (forall x, x ∈ nodes up rest -> is_Some (node_up x) -> node_id x < i) ->
    kids_sorted (insert_at j frag rest).
Proof.
  intros Hfrag Hsf.
  induction rest as [|e k IHk n IHn]; intros up Hs Hlt; [exact I|].
  destruct Hs as (H1 & H2 & H3).
  assert (Hk : forall x, x ∈ nodes (Some (data_name e)) k ->
                         is_Some (node_up x) -> node_id x < i).
  { intros x Hx. apply Hlt. simpl. right. apply elem_of_app. left. exact Hx. }
  assert (Hn : forall x, x ∈ nodes up n -> is_Some (node_up x) -> node_id x < i).
  { intros x Hx. apply Hlt. simpl. right. apply elem_of_app. right. exact Hx. }
  cbn [insert_at]. destruct (Nat.eqb (el_id e) j).
  - cbn [kids_sorted]. rewrite top_ids_fapp, Hfrag. split; [|split].
    + apply StronglySorted_snoc; [exact H1|].
      intros c Hc. unfold top_ids in Hc.
      apply list_elem_of_In, in_map_iff in Hc as (el & <- & Hel).
      apply list_elem_of_In in Hel.
      apply (Hk _ (tops_in_nodes (Some (data_name e)) k el Hel)). eexists. reflexivity.
    + apply kids_sorted_fapp; assumption.
    + exact (IHn up H3 Hn).
  - cbn [kids_sorted]. rewrite top_ids_insert_at. split; [exact H1|]. split.
    + exact (IHk _ H2 Hk).
    + exact (IHn up H3 Hn).
Qed.

Lemma move_under_sorted (i j : nat) (q : string) (f : Forest) :
  kids_sorted f ->
  (forall x, x ∈ nodes None f -> is_Some (node_up x) -> node_id x < i) ->
  kids_sorted (move_under i j q f).
Proof.
  intros H Hlt. unfold move_under.
  destruct (top_node i (with_icon q f)) as [[e k]|] eqn:Ht; [|exact H].
  rewrite <- (kids_sorted_with_icon q) in H.
  destruct (top_node_sorted _ _ _ _ H Ht) as (H1 & H2 & H3).
  destruct (top_node_has_id _ _ _ _ Ht) as (Hei & _ & _).
  rewrite kids_sorted_hide_at.
  apply (insert_sorted j i (FNode e k FNil)) with (up := None).
  - unfold top_ids. simpl. rewrite Hei. reflexivity.
  - simpl. auto.
  - exact H1.
  - intros x Hx. apply Hlt. rewrite <- (nodes_with_icon None q).
    eapply elem_of_sublist; [exact Hx | apply nodes_remove_top].
Qed.

(** The loop keeps every nested container in the order of the identities,
    when it goes through the elements in that order. *)
Lemma each_sorted (els : list Elem) :
  StronglySorted lt (map el_id els) -> NoDup (map data_name els) ->
  acyclic parent_set (elem_links els) ->
  forall (todo done : list Elem) (f : Forest) (fresh : nat),
    els = (done ++ todo)%list ->
    nodes None f ≡ₚ layout_of (map data_name els) done todo ->
    kids_sorted f ->
    exists f',
      each each_core todo ([f], fresh) = Some ([f'], fresh)
      /\ nodes None f' ≡ₚ map (placed (map data_name els)) els
      /\ kids_sorted f'.
Proof.
  intros Hsorted Hnames Hac.
  assert (Hids : NoDup (map el_id els)).
  { clear -Hsorted. induction (map el_id els) as [|a l IH]; [constructor|].
    apply StronglySorted_inv in Hsorted as [Hs Ha]. constructor; [|auto].
    intros Hin. rewrite Forall_forall in Ha. specialize (Ha a Hin). lia. }
  induction todo as [|e todo IH]; intros done f fresh Hels Hp H.
  - exists f. split; [reflexivity|]. split; [|exact H].
    rewrite Hp. unfold layout_of. simpl. rewrite app_nil_r in Hels |- *.
    rewrite <- Hels. reflexivity.
  - destruct (each_body_shape els Hids Hnames Hac done todo e f fresh Hels Hp)
      as (f1 & Hb & Hp1 & Hcase).
    assert (H1 : kids_sorted f1).
    { destruct Hcase as [->|(tq & _ & _ & _ & _ & _ & ->)]; [exact H|].
      apply move_under_sorted; [exact H|].
      intros x Hx [u Hu]. rewrite Hp in Hx. unfold layout_of in Hx.
      apply elem_of_app in Hx as [Hx|Hx].
      - apply list_elem_of_In, in_map_iff in Hx as (d & <- & Hd).
        change (node_id (placed (map data_name els) d)) with (el_id d).
        rewrite Hels, map_app in Hsorted. simpl in Hsorted.
        clear -Hsorted Hd. induction done as [|a done IHd]; [destruct Hd|].
        simpl in Hsorted. apply StronglySorted_inv in Hsorted as [Hs Ha].
        destruct Hd as [->|Hd]; [|auto].
        rewrite Forall_forall in Ha. apply Ha.
        apply elem_of_app. right. left.
      - apply list_elem_of_In, in_map_iff in Hx as (d & <- & _). discriminate Hu. }
    destruct (IH (done ++ [e])%list f1 fresh) as (f' & He & Hp' & H').
    + rewrite <- app_assoc. exact Hels.
    + exact Hp1.
    + exact H1.
    + exists f'. split; [|split; assumption]. cbn [each]. rewrite Hb. exact He.
Qed.

(** The nodes that sit below [q] are the children of the elements named
    [q]. *)
Lemma filter_is_under (q : string) (f : Forest) :
  forall up,
    List.filter (is_under q) (nodes up f)
    ≡ₚ ((if bool_decide (up = Some q) then entries up (tops f) else [])
        ++ entries (Some q) (children_of q f))%list.
Proof.
  induction f as [|e k IHk n IHn]; intros up.
  - simpl. destruct (bool_decide (up = Some q)); reflexivity.
  - cbn [nodes children_of tops].
    assert (Hsplit : forall x l1 l2,
               List.filter (is_under q) (x :: l1 ++ l2)
               = ((if is_under q x then [x] else [])
                  ++ List.filter (is_under q) l1 ++ List.filter (is_under q) l2)%list).
    { intros x l1 l2. simpl. rewrite List.filter_app.
      destruct (is_under q x); reflexivity. }
    rewrite Hsplit, (IHk (Some (data_name e))), (IHn up). clear Hsplit.
    change (is_under q (el_id e, data_name e, up)) with (bool_decide (up = Some q)).
    assert (Hn : bool_decide (Some (data_name e) = Some q) = named q e).
    { unfold named. apply bool_decide_ext. split; congruence. }
    rewrite Hn. unfold entries. rewrite !map_app.
    destruct (named q e) eqn:En.
    + unfold named in En. apply bool_decide_eq_true_1 in En. subst q.
      destruct (bool_decide (up = Some (data_name e))); simpl; solve_Permutation.
    + destruct (bool_decide (up = Some q)); simpl; solve_Permutation.
Qed.

Lemma children_absent (q : string) (f : Forest) :
  q ∉ map data_name (elems f) -> children_of q f = [].
Proof.
  induction f as [|e k IHk n IHn]; simpl; [reflexivity|].
  rewrite map_app. intros H.
  unfold named. rewrite bool_decide_eq_false_2.
  - rewrite IHk, IHn; [reflexivity| |]; intros Hin; apply H; right;
      apply elem_of_app; [right | left]; exact Hin.
  - intros E. apply H. rewrite <- E. left.
Qed.

(** With distinct names at most one element is named [q], and its children
    are in order. *)
Lemma children_sorted (q : string) (f : Forest) :
  NoDup (map data_name (elems f)) -> kids_sorted f ->
  StronglySorted lt (map el_id (children_of q f)).
Proof.
  induction f as [|e k IHk n IHn]; simpl; [constructor|].
  rewrite map_app. intros Hnd (H1 & H2 & H3).
  apply NoDup_cons in Hnd as [He Hnd].
  apply NoDup_app in Hnd as (Hk & Hdis & Hn).
  rewrite elem_of_app in He.
  unfold named. case_bool_decide as Eq.
  - subst q. rewrite !children_absent, app_nil_r by tauto. exact H1.
  - simpl. destruct (decide (q ∈ map data_name (elems k))) as [Hin|Hout].
    + rewrite (children_absent q n (Hdis q Hin)), app_nil_r. auto.
    + rewrite (children_absent q k Hout). simpl. auto.
Qed.

Lemma placed_under_names (names : list string) (q : string) (i : nat)
    (pages : list PageItem) :
  map node_name (List.filter (is_under q) (map (placed names) (rendered i pages)))
  = map name_text (List.filter (nests_under names q) pages).
Proof.
  assert (Hu : forall j p, is_under q (placed names (sidebar_item_container j p))
                           = nests_under names q p).
  { intros j p. unfold is_under, placed, nests_under, node_up. simpl.
    change (template (parent_page p)) with (parent_text p).
    destruct (parent_set (parent_text p) && bool_decide (parent_text p ∈ names));
      simpl; [|reflexivity].
    apply bool_decide_ext. split; congruence. }
  revert i. induction pages as [|p ps IH]; intros i; [reflexivity|].
  cbn [rendered map List.filter]. rewrite Hu.
  destruct (nests_under names q p); cbn [map]; rewrite IH; reflexivity.
Qed.



(** ** A built menu under clicks *)

Lemma elems_ids (up : option string) (f : Forest) :
  map el_id (elems f) = map node_id (nodes up f).
Proof.
  revert up. induction f as [|e k IHk n IHn]; intros up; simpl; [reflexivity|].
  rewrite !map_app, (IHk (Some (data_name e))), (IHn up). reflexivity.
Qed.

Lemma nodes_set_href (up : option string) (x : nat) (h : string) (f : Forest) :
  nodes up (set_href x h f) = nodes up f.
Proof.
  revert up. induction f as [|e k IHk n IHn]; intros up; simpl; [reflexivity|].
  destruct (Nat.eqb (el_id e) x); [destruct (drop_icon e)|]; simpl;
    rewrite IHk, IHn; reflexivity.
Qed.

Lemma nodes_flip_all (up : option string) (f : Forest) :
  nodes up (flip_all f) = nodes up f.
Proof.
  revert up. induction f as [|e k IHk n IHn]; intros up; simpl; [reflexivity|].
  rewrite IHk, IHn. reflexivity.
Qed.

Lemma nodes_toggle_parents (up : option string) (x : nat) (f : Forest) :
  nodes up (toggle_parents x f) = nodes up f.
Proof.
  revert up. induction f as [|e k _ n IHn]; intros up; simpl; [reflexivity|].
  destruct (Nat.eqb (el_id e) x || has_id x k); simpl;
    rewrite ?nodes_flip_all, IHn; reflexivity.
Qed.

Lemma forall_elems_impl (P Q : Elem -> bool) (f : Forest) :
  (forall e, P e = true -> Q e = true) ->
  forall_elems P f = true -> forall_elems Q f = true.
Proof.
  intros H. induction f as [|e k IHk n IHn]; simpl; [reflexivity|].
  intros Hf. apply andb_true_iff in Hf as [Hf Hn].
  apply andb_true_iff in Hf as [He Hk].
  rewrite (H _ He), (IHk Hk), (IHn Hn). reflexivity.
Qed.

Lemma icon_in_use_set_href (x : nat) (h : string) (f : Forest) :
  h = "#es-line-down" \/ h = "#es-line-up" ->
  forall_elems icon_in_use f = true ->
  forall_elems icon_in_use (set_href x h f) = true.
Proof.
  intros Hh. induction f as [|e k IHk n IHn]; simpl; [reflexivity|].
  intros Hf. apply andb_true_iff in Hf as [Hf Hn].
  apply andb_true_iff in Hf as [He Hk].
  rewrite (IHk Hk), (IHn Hn), !andb_true_r.
  destruct (Nat.eqb (el_id e) x); [|exact He].
  unfold icon_in_use in He |- *. destruct (drop_icon e) as [ic|] eqn:Ei; simpl.
  - apply andb_true_iff in He as [_ He]. rewrite He.
    destruct Hh as [-> | ->]; reflexivity.
  - rewrite Ei. reflexivity.
Qed.

Lemma icon_in_use_flip_all (f : Forest) :
  forall_elems icon_in_use (flip_all f) = forall_elems icon_in_use f.
Proof.
  induction f as [|e k IHk n IHn]; simpl; [reflexivity|].
  rewrite IHk, IHn. reflexivity.
Qed.

Lemma icon_in_use_toggle_parents (x : nat) (f : Forest) :
  forall_elems icon_in_use (toggle_parents x f) = forall_elems icon_in_use f.
Proof.
  induction f as [|e k _ n IHn]; simpl; [reflexivity|].
  destruct (Nat.eqb (el_id e) x || has_id x k); simpl;
    rewrite ?icon_in_use_flip_all, IHn; reflexivity.
Qed.

(** One click, on whichever element of the toggle, keeps the tree, the
    identities and the icon states. *)
Lemma on_click_keeps (t : Target) (x : nat) (v v' : View) :
  ListSidebar.handler t x v = Some v' ->
  map (nodes None) (dom v') = map (nodes None) (dom v)
  /\ (forallb (forall_elems icon_in_use) (dom v) = true ->
      forallb (forall_elems icon_in_use) (dom v') = true).
Proof.
  intros H. apply handler_state in H as (el & ic & _ & _ & Hd & _).
  rewrite Hd. destruct (is_use t); split.
  - rewrite !map_map. apply map_ext. intros f.
    rewrite nodes_toggle_parents. reflexivity.
  - rewrite !forallb_forall. intros Hall f Hf.
    apply in_map_iff in Hf as (f1 & <- & Hf1).
    rewrite icon_in_use_toggle_parents. auto.
  - rewrite !map_map. apply map_ext. intros f.
    rewrite nodes_toggle_parents, nodes_set_href. reflexivity.
  - rewrite !forallb_forall. intros Hall f Hf.
    apply in_map_iff in Hf as (f1 & <- & Hf1).
    apply in_map_iff in Hf1 as (f0 & <- & Hf0).
    rewrite icon_in_use_toggle_parents. apply icon_in_use_set_href; [|auto].
    unfold flip_href. case_bool_decide; auto.
Qed.

Lemma ids_of_nodes (secs : list Forest) :
  map el_id (flat_map elems secs) = flat_map (map node_id) (map (nodes None) secs).
Proof.
  induction secs as [|f secs IH]; simpl; [reflexivity|].
  rewrite map_app, (elems_ids None), IH. reflexivity.
Qed.

Lemma list_build_icons (pages : list PageItem) (secs : list Forest) :
  option_map sections (ListSidebar.make_sidebar_menu pages empty_sidebar) = Some secs ->
  forallb (forall_elems icon_in_use) secs = true.
Proof.
  intros Hl. pose proof (either_build_core pages empty_sidebar secs (or_introl Hl)) as Hc.
  clear Hl. rename Hc into Hl. unfold build_core in Hl.
  destruct (each _ _ _) as [[secs1 fresh]|] eqn:He; [|discriminate].
  simpl in Hl. injection Hl as <-.
  assert (H0 : forallb (forall_elems icon_as_appended)
                 (sections (append_menu pages empty_sidebar)) = true).
  { simpl. rewrite icons_render_flat. reflexivity. }
  pose proof (forall_elems_each icon_as_appended
                (fun b e => eq_refl) (fun i e => eq_refl) (fun e => eq_refl)
                _ _ _ _ _ H0 He) as H1.
  pose proof (tops_shrink_each _ _ _ _ _ He) as Hs.
  assert (H2 : forallb (forall_elems icon_bound_once)
                 (map (bind_under false
                         (map el_id (label_items
                                       (sections (append_menu pages empty_sidebar)))))
                      secs1) = true).
  { apply (bind_sections _ _ _ Hs); [|exact H1].
    intros i Hi. rewrite <- label_item_ids in Hi. exact Hi. }
  rewrite forallb_forall in H2 |- *. intros f Hf.
  apply (forall_elems_impl icon_bound_once); [|auto].
  intros e. unfold icon_bound_once, icon_in_use. destruct (drop_icon e); [|auto].
  intros H. apply andb_true_iff in H as [-> ->]. reflexivity.
Qed.


